(** * Charon's Gamble: the frame simulation and economy engine

    A shallow embedding of [src/game/core/Game.ts] and
    [src/game/services/SaveService.ts], followed by the properties of the
    effect stack, the collision resolver, the economy controller, the save
    loader and the pause bookkeeping.

    Modelling conventions.
    - A JavaScript [number] is an exact rational ([Qc], canonical fractions
      with Leibniz equality).  IEEE rounding, NaN and the infinities are
      outside the model; integer counters that only ever move by one
      ([deathCount], [soulsCollected], [platformPauseDepth]) are [Z].
      Where a property would rest on re-associating a sum or a product,
      which exact rationals allow and binary64 numbers do not, it is
      stated step by step, in the order of the code; the effect
      multiplier is read a second time over binary64 numbers ([Double]),
      where the order of the factors shows.
    - The class [Game] is one flat record of its mutable fields; a method is
      a function [Game -> Game] (or returns a pair when it yields a value
      or may throw).  DOM widgets, the canvas, banners and pointer capture
      are not part of the state; the text of a toast is kept as a tag of the
      call site that raised it.
    - [Math.random()] and the results of awaited platform calls are inputs
      of the handler that consumes them; wall-clock time ([Date.now()],
      the interstitial rate limit) is left out.
    - A value that comes out of [JSON.parse] is a [json] tree; the
      TypeScript types of the configuration are trusted, except where the
      source itself tests a dynamic type. *)

From Stdlib Require Import QArith Qcanon Qround ZArith Lqa.
From Stdlib Require PrimFloat Uint63.
From stdpp Require Import base numbers list strings gmap sorting pretty.

Local Open Scope Qc_scope.

(** ** JavaScript numbers *)

Definition num (x : Q) : Qc := Q2Qc x.
Global Arguments num x%_Q.

Definition Math_max (a b : Qc) : Qc := if decide (a ≤ b) then b else a.
Definition Math_min (a b : Qc) : Qc := if decide (a ≤ b) then a else b.
Definition Math_abs (a : Qc) : Qc := if decide (0 ≤ a) then a else - a.
Definition Math_floor (a : Qc) : Qc := Qc_of_Z (Qfloor a).

(** [a[i]] for a numeric index: [undefined] unless [i] is a whole number
    inside the array. *)
Definition array_get {A} (l : list A) (i : Qc) : option A :=
  if decide (Math_floor i = i ∧ 0 ≤ i) then l !! Z.to_nat (Qfloor i) else None.

(** ** JSON values, as produced by [JSON.parse] *)

#[warnings="-register-all"] Inductive json : Type :=
  | JNull
  | JBool (b : bool)
  | JNum (q : Qc)
  | JStr (s : string)
  | JArr (items : list json)
  | JObj (fields : list (string * json)).

(** Property read [o.k] on the entries of an object literal: a later entry
    with the same key replaces an earlier one. *)
Fixpoint obj_get {V} (k : string) (fields : list (string * V)) : option V :=
  match fields with
  | [] => None
  | (k', v) :: rest =>
      match obj_get k rest with
      | Some w => Some w
      | None => if decide (k' = k) then Some v else None
      end
  end.

(** [typeof v === 'number'], where [None] is [undefined]. *)
Definition typeof_number (v : option json) : bool :=
  match v with Some (JNum _) => true | _ => false end.

(** ** Configuration ([types/config.ts]) *)

Record DrainTier := { fromSec : Qc; rate : Qc }.

Record EconomyConfig := {
  startCoins : Qc;
  coinDrainTiers : list DrainTier;
  pickupValue : Qc;
  collisionPenalty : Qc;
  bribeShotCost : Qc;
  freeBribeChance : Qc;
  firstGateDelaySec : option Qc;
  gateIntervalSec : Qc;
  gateDurationSec : Qc;
  minInterstitialIntervalSec : option Qc }.

(** The four multipliers are optional and come unchecked from JSON:
    [effectMultiplier] tests their dynamic type. *)
Record GateEffect := {
  collisionPenaltyMultiplier : option json;
  pickupMultiplier : option json;
  speedMultiplier : option json;
  drainMultiplier : option json }.

(** [keyof GateEffect] *)
Inductive EffectKey :=
  | KCollisionPenaltyMultiplier
  | KPickupMultiplier
  | KSpeedMultiplier
  | KDrainMultiplier.

Definition effect_get (e : GateEffect) (key : EffectKey) : option json :=
  match key with
  | KCollisionPenaltyMultiplier => collisionPenaltyMultiplier e
  | KPickupMultiplier => pickupMultiplier e
  | KSpeedMultiplier => speedMultiplier e
  | KDrainMultiplier => drainMultiplier e
  end.

Record GateConfig := {
  gate_id : string;
  gate_name : string;
  gate_description : string;
  gate_durationSec : Qc;
  gate_permanent : option bool;
  gate_effects : GateEffect }.

Record ObstacleConfig := {
  obstacle_id : string;
  obstacle_radius : Qc;
  obstacle_damage : Qc;
  obstacle_color : string }.

Record UpgradeEffect := {
  shieldStart : option Qc;
  up_shieldRegenSec : option Qc;
  up_obstacleDamageMult : option Qc;
  up_magnetMult : option Qc;
  up_soulValueMult : option Qc;
  up_doubleSoulChance : option Qc;
  up_bribeCooldownMult : option Qc;
  up_freeBribeEverySec : option Qc;
  up_bribeSplashRadius : option Qc }.

(** The empty object [{}] returned by [currentLevelEffect]. *)
Definition noUpgradeEffect : UpgradeEffect :=
  {| shieldStart := None; up_shieldRegenSec := None;
     up_obstacleDamageMult := None; up_magnetMult := None;
     up_soulValueMult := None; up_doubleSoulChance := None;
     up_bribeCooldownMult := None; up_freeBribeEverySec := None;
     up_bribeSplashRadius := None |}.

Record UpgradeLevelConfig := {
  level_cost : Qc;
  level_title : string;
  level_shortDesc : string;
  level_effect : UpgradeEffect }.

Record UpgradeBranchConfig := {
  branch_id : string;
  branch_title : string;
  branch_levels : list UpgradeLevelConfig }.

Record GameConfig := {
  economy : EconomyConfig;
  cfg_gates : list GateConfig;
  cfg_obstacles : list ObstacleConfig;
  cfg_upgrades : list UpgradeBranchConfig }.

(** [interface SaveData].  The declared field type is [number]; what
    [SaveService.load] returns is whatever the stored JSON held, so the
    record is indexed by the type of its values: [SaveData Qc] inside the
    game, [SaveData json] at the loader. *)
Record SaveData (V : Type) := {
  bestScore : V;
  walletCoins : V;
  upgrades : gmap string V }.
Global Arguments bestScore {_} _.
Global Arguments walletCoins {_} _.
Global Arguments upgrades {_} _.

Definition SaveData_map {V W} (f : V → W) (s : SaveData V) : SaveData W :=
  {| bestScore := f (bestScore s);
     walletCoins := f (walletCoins s);
     upgrades := f <$> upgrades s |}.

(** ** Exceptions

    [Throw] stands for any exception that escapes an expression
    (a [TypeError] on a property of [null] or [undefined], a [SyntaxError]
    of [JSON.parse], a storage access error). *)

Inductive completion (A : Type) : Type :=
  | Normal (a : A)
  | Throw.
Global Arguments Normal {_} _.
Global Arguments Throw {_}.

Global Instance completion_ret : MRet completion := λ A a, Normal a.
Global Instance completion_bind : MBind completion := λ A B k c,
  match c with
  | Normal a => k a
  | Throw => Throw
  end.

(** [try { body } catch { handler }] *)
Definition try_catch {A} (body : completion A) (handler : completion A) : completion A :=
  match body with
  | Normal a => Normal a
  | Throw => handler
  end.

(** ** SaveService *)

Module SaveService.

(** What [localStorage.getItem(SAVE_STORAGE_KEY)] does. *)
Inductive StorageRead :=
  | GetItemThrows
  | NoItem
  | Item (raw : string).

(** [Object.fromEntries]: entries are written in order. *)
Definition fromEntries {V} (entries : list (string * V)) : gmap string V :=
  foldl (λ m kv, <[kv.1 := kv.2]> m) ∅ entries.

Definition defaults (upgrades : list UpgradeBranchConfig) : SaveData Qc :=
  {| bestScore := 0;
     walletCoins := 0;
     upgrades := fromEntries ((λ upgrade, (branch_id upgrade, 0)) <$> upgrades) |}.

(** [parsed.k] for one of the three keys read by [load] (none of them is
    an index or [length], so only an object can hold it): [Throw] on
    [null], [None] for [undefined]. *)
Definition get_prop (parsed : json) (k : string) : completion (option json) :=
  match parsed with
  | JNull => Throw
  | JObj fields => Normal (obj_get k fields)
  | _ => Normal None
  end.

(** [a ?? b] *)
Definition nullish (a : option json) (b : json) : json :=
  match a with
  | None | Some JNull => b
  | Some v => v
  end.

(** The own enumerable properties copied by an object spread [...v]. *)
Definition own_entries (v : json) : list (string * json) :=
  match v with
  | JObj fields => fields
  | JArr items => imap (λ i x, (pretty i, x)) items
  | JStr s => imap (λ i c, (pretty i, JStr (String c EmptyString))) (String.list_ascii_of_string s)
  | JNull | JBool _ | JNum _ => []
  end.

(** [{ ...target, ...v }] *)
Definition spread (target : gmap string json) (v : json) : gmap string json :=
  foldl (λ m kv, <[kv.1 := kv.2]> m) target (own_entries v).

Section Load.
(** [JSON.parse] is a built-in; its result is an input of the model. *)
Variable JSON_parse : string → completion json.

Definition load_body (defaults : SaveData json) (read : StorageRead)
  : completion (SaveData json) :=
  match read with
  | GetItemThrows => Throw
  | NoItem => Normal defaults
  | Item raw =>
      if decide (raw = EmptyString) then Normal defaults
      else
        parsed ← JSON_parse raw;
        best ← get_prop parsed "bestScore";
        wallet ← get_prop parsed "walletCoins";
        ups ← get_prop parsed "upgrades";
        Normal {| bestScore := nullish best (bestScore defaults);
                  walletCoins := nullish wallet (walletCoins defaults);
                  upgrades := spread (upgrades defaults) (nullish ups (JObj [])) |}
  end.

Definition load (upgrades : list UpgradeBranchConfig) (read : StorageRead)
  : completion (SaveData json) :=
  let defaults := SaveData_map JNum (defaults upgrades) in
  try_catch (load_body defaults read) (Normal defaults).
End Load.

End SaveService.

(** ** Record update

    [r <| f := v |>] is the record [r] with field [f] set to [v], and
    [r <| f ::= h |>] applies [h] to the field, as an assignment
    [this.f = v] or [this.f += d] does. *)

Class Setter {R T : Type} (proj : R → T) := set : (T → T) → R → R.
Global Arguments set {_ _} _ {_} _ _ /.

Ltac build_setter eta proj :=
  let f := fresh "f" in
  let r := fresh "r" in
  intros f r;
  let body := eval cbv beta delta [eta] in (eta r) in
  let abstracted := eval pattern (proj r) in body in
  lazymatch abstracted with
  | ?make _ => exact (make (f (proj r)))
  end.

Notation "r <| proj := v |>" := (set proj (λ _, v) r)
  (at level 1, left associativity, proj at level 1, v at level 99,
   format "r  <| proj  :=  v |>").
Notation "r <| proj ::= f |>" := (set proj f r)
  (at level 1, left associativity, proj at level 1, f at level 99,
   format "r  <| proj  ::=  f |>").

(** ** Entities *)

(** [Vec2 & { r: number }] *)
Class Circle (A : Type) := {
  circle_x : A → Qc;
  circle_y : A → Qc;
  circle_r : A → Qc }.

Record Body := { body_x : Qc; body_y : Qc; body_r : Qc }.
Record ObstacleEntity := {
  o_x : Qc; o_y : Qc; o_r : Qc; o_color : string; o_damage : Qc }.
Record CoinEntity := { c_x : Qc; c_y : Qc; c_r : Qc; c_value : Qc }.
Record ProjectileEntity := { p_x : Qc; p_y : Qc; p_r : Qc; p_speed : Qc }.

Global Instance Body_circle : Circle Body :=
  {| circle_x := body_x; circle_y := body_y; circle_r := body_r |}.
Global Instance Obstacle_circle : Circle ObstacleEntity :=
  {| circle_x := o_x; circle_y := o_y; circle_r := o_r |}.
Global Instance Coin_circle : Circle CoinEntity :=
  {| circle_x := c_x; circle_y := c_y; circle_r := c_r |}.
Global Instance Projectile_circle : Circle ProjectileEntity :=
  {| circle_x := p_x; circle_y := p_y; circle_r := p_r |}.

Record GatePair := {
  gp_y : Qc;
  gp_left : GateConfig;
  gp_right : GateConfig;
  width : Qc;
  chosen : bool }.

Record ActiveEffect := {
  gateId : string;
  effect : GateEffect;
  permanent : bool;
  remainingSec : Qc }.

Record Player := {
  player_x : Qc; player_y : Qc; player_w : Qc; player_h : Qc; player_speed : Qc }.

Definition WIDTH : Qc := num 900.
Definition HEIGHT : Qc := num 520.
Definition GATE_GAP : Qc := num 120.
Definition GATE_HEIGHT : Qc := num 26.
Definition REVIVE_INVULN_MS : Qc := num 1200.
Definition BASE_MAGNET_RADIUS : Qc := num 50.
Definition BASE_BRIBE_COOLDOWN_SEC : Qc := num 0.45.

Definition clamp (value min max : Qc) : Qc := Math_min max (Math_max min value).

(** [rand(min, max)], given the value [u] returned by [Math.random()]. *)
Definition rand (min max u : Qc) : Qc := min + u * (max - min).

Definition intersects {A B} `{Circle A, Circle B} (a : A) (b : B) : bool :=
  let dx := circle_x a - circle_x b in
  let dy := circle_y a - circle_y b in
  let radius := circle_r a + circle_r b in
  bool_decide (dx * dx + dy * dy ≤ radius * radius).

Definition distanceSq {A B} `{Circle A, Circle B} (a : A) (b : B) : Qc :=
  let dx := circle_x a - circle_x b in
  let dy := circle_y a - circle_y b in
  dx * dx + dy * dy.

(** ** Toasts

    [showToast] receives a text; the model keeps which message it is. *)

Inductive GateToastKey := gate_debt | gate_safe | gate_gamble.

Inductive Toast :=
  | ToastDailyContract
  | ToastPaused
  | ToastResumed
  | ToastTabHidden
  | ToastTabReturned
  | ToastRevived
  | ToastRewardX2Fixed
  | ToastProgressReset
  | ToastWalletShort
  | ToastPurchase (title : string)
  | ToastStartRun
  | ToastPickSoul (value : Qc)
  | ToastShieldAbsorbed
  | ToastHitObstacle
  | ToastDebtAlreadyIssued
  | ToastGateChosen (key : GateToastKey) (name : string)
  | ToastInsufficientCoins
  | ToastPaidBribe (cost : Qc)
  | ToastFreeBribe
  | ToastGameOver.

(** ** The state of [class Game] *)

Record Game := MkGame {
  saveData : SaveData Qc;
  (** the payload last written by [SaveService.store] *)
  storedSave : option (SaveData Qc);
  (** [AudioManager.muted] *)
  audioMuted : bool;
  (** [false] once [update] has thrown inside [loop]: the next animation
      frame is never requested *)
  loopRunning : bool;
  player : Player;
  keys : gset string;
  obstacles : list ObstacleEntity;
  coins : list CoinEntity;
  projectiles : list ProjectileEntity;
  gates : list GatePair;
  effects : list ActiveEffect;
  elapsedSec : Qc;
  distance : Qc;
  coinsBalance : Qc;
  paused : bool;
  manualPaused : bool;
  pausedByUser : bool;
  gameOver : bool;
  runActive : bool;
  deathCount : Z;
  reviveInvulnMs : Qc;
  gameOverBaseScore : Qc;
  gameOverScoreMultiplier : Qc;
  soulsCollected : Z;
  sessionEarningsBase : Qc;
  shieldMax : Qc;
  shieldCount : Qc;
  shieldRegenSec : Qc;
  shieldRegenTimer : Qc;
  obstacleDamageMult : Qc;
  magnetMult : Qc;
  soulValueMult : Qc;
  doubleSoulChance : Qc;
  bribeCooldownMult : Qc;
  freeBribeEverySec : Qc;
  bribeSplashRadius : Qc;
  bribeCooldownLeftSec : Qc;
  freeBribeTimerSec : Qc;
  freeBribeReady : bool;
  obstacleSpawnTimer : Qc;
  coinSpawnTimer : Qc;
  gateSpawnTimer : Qc;
  toastTimer : Qc;
  toast : option Toast;
  toastActive : bool;
  platformPauseDepth : Z;
  wasPausedBeforePlatformPause : bool;
  wasMutedBeforePlatformPause : bool }.

Definition etaGame (g : Game) : Game :=
  MkGame (saveData g) (storedSave g) (audioMuted g) (loopRunning g) (player g)
    (keys g) (obstacles g) (coins g) (projectiles g) (gates g) (effects g)
    (elapsedSec g) (distance g) (coinsBalance g) (paused g) (manualPaused g)
    (pausedByUser g) (gameOver g) (runActive g) (deathCount g)
    (reviveInvulnMs g) (gameOverBaseScore g) (gameOverScoreMultiplier g)
    (soulsCollected g) (sessionEarningsBase g) (shieldMax g) (shieldCount g)
    (shieldRegenSec g) (shieldRegenTimer g) (obstacleDamageMult g)
    (magnetMult g) (soulValueMult g) (doubleSoulChance g)
    (bribeCooldownMult g) (freeBribeEverySec g) (bribeSplashRadius g)
    (bribeCooldownLeftSec g) (freeBribeTimerSec g) (freeBribeReady g)
    (obstacleSpawnTimer g) (coinSpawnTimer g) (gateSpawnTimer g)
    (toastTimer g) (toast g) (toastActive g) (platformPauseDepth g)
    (wasPausedBeforePlatformPause g) (wasMutedBeforePlatformPause g).

Global Instance set_saveData : Setter saveData := ltac:(build_setter etaGame saveData).
Global Instance set_storedSave : Setter storedSave := ltac:(build_setter etaGame storedSave).
Global Instance set_audioMuted : Setter audioMuted := ltac:(build_setter etaGame audioMuted).
Global Instance set_loopRunning : Setter loopRunning := ltac:(build_setter etaGame loopRunning).
Global Instance set_player : Setter player := ltac:(build_setter etaGame player).
Global Instance set_keys : Setter keys := ltac:(build_setter etaGame keys).
Global Instance set_obstacles : Setter obstacles := ltac:(build_setter etaGame obstacles).
Global Instance set_coins : Setter coins := ltac:(build_setter etaGame coins).
Global Instance set_projectiles : Setter projectiles := ltac:(build_setter etaGame projectiles).
Global Instance set_gates : Setter gates := ltac:(build_setter etaGame gates).
Global Instance set_effects : Setter effects := ltac:(build_setter etaGame effects).
Global Instance set_elapsedSec : Setter elapsedSec := ltac:(build_setter etaGame elapsedSec).
Global Instance set_distance : Setter distance := ltac:(build_setter etaGame distance).
Global Instance set_coinsBalance : Setter coinsBalance := ltac:(build_setter etaGame coinsBalance).
Global Instance set_paused : Setter paused := ltac:(build_setter etaGame paused).
Global Instance set_manualPaused : Setter manualPaused := ltac:(build_setter etaGame manualPaused).
Global Instance set_pausedByUser : Setter pausedByUser := ltac:(build_setter etaGame pausedByUser).
Global Instance set_gameOver : Setter gameOver := ltac:(build_setter etaGame gameOver).
Global Instance set_runActive : Setter runActive := ltac:(build_setter etaGame runActive).
Global Instance set_deathCount : Setter deathCount := ltac:(build_setter etaGame deathCount).
Global Instance set_reviveInvulnMs : Setter reviveInvulnMs := ltac:(build_setter etaGame reviveInvulnMs).
Global Instance set_gameOverBaseScore : Setter gameOverBaseScore := ltac:(build_setter etaGame gameOverBaseScore).
Global Instance set_gameOverScoreMultiplier : Setter gameOverScoreMultiplier := ltac:(build_setter etaGame gameOverScoreMultiplier).
Global Instance set_soulsCollected : Setter soulsCollected := ltac:(build_setter etaGame soulsCollected).
Global Instance set_sessionEarningsBase : Setter sessionEarningsBase := ltac:(build_setter etaGame sessionEarningsBase).
Global Instance set_shieldMax : Setter shieldMax := ltac:(build_setter etaGame shieldMax).
Global Instance set_shieldCount : Setter shieldCount := ltac:(build_setter etaGame shieldCount).
Global Instance set_shieldRegenSec : Setter shieldRegenSec := ltac:(build_setter etaGame shieldRegenSec).
Global Instance set_shieldRegenTimer : Setter shieldRegenTimer := ltac:(build_setter etaGame shieldRegenTimer).
Global Instance set_obstacleDamageMult : Setter obstacleDamageMult := ltac:(build_setter etaGame obstacleDamageMult).
Global Instance set_magnetMult : Setter magnetMult := ltac:(build_setter etaGame magnetMult).
Global Instance set_soulValueMult : Setter soulValueMult := ltac:(build_setter etaGame soulValueMult).
Global Instance set_doubleSoulChance : Setter doubleSoulChance := ltac:(build_setter etaGame doubleSoulChance).
Global Instance set_bribeCooldownMult : Setter bribeCooldownMult := ltac:(build_setter etaGame bribeCooldownMult).
Global Instance set_freeBribeEverySec : Setter freeBribeEverySec := ltac:(build_setter etaGame freeBribeEverySec).
Global Instance set_bribeSplashRadius : Setter bribeSplashRadius := ltac:(build_setter etaGame bribeSplashRadius).
Global Instance set_bribeCooldownLeftSec : Setter bribeCooldownLeftSec := ltac:(build_setter etaGame bribeCooldownLeftSec).
Global Instance set_freeBribeTimerSec : Setter freeBribeTimerSec := ltac:(build_setter etaGame freeBribeTimerSec).
Global Instance set_freeBribeReady : Setter freeBribeReady := ltac:(build_setter etaGame freeBribeReady).
Global Instance set_obstacleSpawnTimer : Setter obstacleSpawnTimer := ltac:(build_setter etaGame obstacleSpawnTimer).
Global Instance set_coinSpawnTimer : Setter coinSpawnTimer := ltac:(build_setter etaGame coinSpawnTimer).
Global Instance set_gateSpawnTimer : Setter gateSpawnTimer := ltac:(build_setter etaGame gateSpawnTimer).
Global Instance set_toastTimer : Setter toastTimer := ltac:(build_setter etaGame toastTimer).
Global Instance set_toast : Setter toast := ltac:(build_setter etaGame toast).
Global Instance set_toastActive : Setter toastActive := ltac:(build_setter etaGame toastActive).
Global Instance set_platformPauseDepth : Setter platformPauseDepth := ltac:(build_setter etaGame platformPauseDepth).
Global Instance set_wasPausedBeforePlatformPause : Setter wasPausedBeforePlatformPause := ltac:(build_setter etaGame wasPausedBeforePlatformPause).
Global Instance set_wasMutedBeforePlatformPause : Setter wasMutedBeforePlatformPause := ltac:(build_setter etaGame wasMutedBeforePlatformPause).

Definition etaPlayer (p : Player) : Player :=
  Build_Player (player_x p) (player_y p) (player_w p) (player_h p) (player_speed p).
Global Instance set_player_x : Setter player_x := ltac:(build_setter etaPlayer player_x).

Definition etaGatePair (gp : GatePair) : GatePair :=
  Build_GatePair (gp_y gp) (gp_left gp) (gp_right gp) (width gp) (chosen gp).
Global Instance set_gp_y : Setter gp_y := ltac:(build_setter etaGatePair gp_y).
Global Instance set_chosen : Setter chosen := ltac:(build_setter etaGatePair chosen).

Definition etaActiveEffect (e : ActiveEffect) : ActiveEffect :=
  Build_ActiveEffect (gateId e) (effect e) (permanent e) (remainingSec e).
Global Instance set_remainingSec : Setter remainingSec := ltac:(build_setter etaActiveEffect remainingSec).

Definition etaObstacle (o : ObstacleEntity) : ObstacleEntity :=
  Build_ObstacleEntity (o_x o) (o_y o) (o_r o) (o_color o) (o_damage o).
Global Instance set_o_y : Setter o_y := ltac:(build_setter etaObstacle o_y).

Definition etaCoin (c : CoinEntity) : CoinEntity :=
  Build_CoinEntity (c_x c) (c_y c) (c_r c) (c_value c).
Global Instance set_c_y : Setter c_y := ltac:(build_setter etaCoin c_y).

Definition etaProjectile (p : ProjectileEntity) : ProjectileEntity :=
  Build_ProjectileEntity (p_x p) (p_y p) (p_r p) (p_speed p).
Global Instance set_p_y : Setter p_y := ltac:(build_setter etaProjectile p_y).

Definition with_bestScore {V} (v : V) (s : SaveData V) : SaveData V :=
  {| bestScore := v; walletCoins := walletCoins s; upgrades := upgrades s |}.
Definition with_walletCoins {V} (v : V) (s : SaveData V) : SaveData V :=
  {| bestScore := bestScore s; walletCoins := v; upgrades := upgrades s |}.
Definition with_upgrades {V} (u : gmap string V) (s : SaveData V) : SaveData V :=
  {| bestScore := bestScore s; walletCoins := walletCoins s; upgrades := u |}.

(** Setters unfold as soon as they are applied. *)
Global Arguments set_saveData _ _ /.
Global Arguments set_storedSave _ _ /.
Global Arguments set_audioMuted _ _ /.
Global Arguments set_loopRunning _ _ /.
Global Arguments set_player _ _ /.
Global Arguments set_keys _ _ /.
Global Arguments set_obstacles _ _ /.
Global Arguments set_coins _ _ /.
Global Arguments set_projectiles _ _ /.
Global Arguments set_gates _ _ /.
Global Arguments set_effects _ _ /.
Global Arguments set_elapsedSec _ _ /.
Global Arguments set_distance _ _ /.
Global Arguments set_coinsBalance _ _ /.
Global Arguments set_paused _ _ /.
Global Arguments set_manualPaused _ _ /.
Global Arguments set_pausedByUser _ _ /.
Global Arguments set_gameOver _ _ /.
Global Arguments set_runActive _ _ /.
Global Arguments set_deathCount _ _ /.
Global Arguments set_reviveInvulnMs _ _ /.
Global Arguments set_gameOverBaseScore _ _ /.
Global Arguments set_gameOverScoreMultiplier _ _ /.
Global Arguments set_soulsCollected _ _ /.
Global Arguments set_sessionEarningsBase _ _ /.
Global Arguments set_shieldMax _ _ /.
Global Arguments set_shieldCount _ _ /.
Global Arguments set_shieldRegenSec _ _ /.
Global Arguments set_shieldRegenTimer _ _ /.
Global Arguments set_obstacleDamageMult _ _ /.
Global Arguments set_magnetMult _ _ /.
Global Arguments set_soulValueMult _ _ /.
Global Arguments set_doubleSoulChance _ _ /.
Global Arguments set_bribeCooldownMult _ _ /.
Global Arguments set_freeBribeEverySec _ _ /.
Global Arguments set_bribeSplashRadius _ _ /.
Global Arguments set_bribeCooldownLeftSec _ _ /.
Global Arguments set_freeBribeTimerSec _ _ /.
Global Arguments set_freeBribeReady _ _ /.
Global Arguments set_obstacleSpawnTimer _ _ /.
Global Arguments set_coinSpawnTimer _ _ /.
Global Arguments set_gateSpawnTimer _ _ /.
Global Arguments set_toastTimer _ _ /.
Global Arguments set_toast _ _ /.
Global Arguments set_toastActive _ _ /.
Global Arguments set_platformPauseDepth _ _ /.
Global Arguments set_wasPausedBeforePlatformPause _ _ /.
Global Arguments set_wasMutedBeforePlatformPause _ _ /.
Global Arguments set_player_x _ _ /.
Global Arguments set_gp_y _ _ /.
Global Arguments set_chosen _ _ /.
Global Arguments set_remainingSec _ _ /.
Global Arguments set_o_y _ _ /.
Global Arguments set_c_y _ _ /.
Global Arguments set_p_y _ _ /.

(** Reduces field reads of updated records, and nothing else. *)
Ltac fields :=
  cbn [
       saveData storedSave audioMuted loopRunning player keys obstacles coins
       projectiles gates effects elapsedSec distance coinsBalance paused
       manualPaused pausedByUser gameOver runActive deathCount reviveInvulnMs
       gameOverBaseScore gameOverScoreMultiplier soulsCollected
       sessionEarningsBase shieldMax shieldCount shieldRegenSec
       shieldRegenTimer obstacleDamageMult magnetMult soulValueMult
       doubleSoulChance bribeCooldownMult freeBribeEverySec bribeSplashRadius
       bribeCooldownLeftSec freeBribeTimerSec freeBribeReady
       obstacleSpawnTimer coinSpawnTimer gateSpawnTimer toastTimer toast
       toastActive platformPauseDepth wasPausedBeforePlatformPause
       wasMutedBeforePlatformPause player_x gp_y chosen remainingSec o_y c_y
       p_y set_saveData set_storedSave set_audioMuted set_loopRunning
       set_player set_keys set_obstacles set_coins set_projectiles set_gates
       set_effects set_elapsedSec set_distance set_coinsBalance set_paused
       set_manualPaused set_pausedByUser set_gameOver set_runActive
       set_deathCount set_reviveInvulnMs set_gameOverBaseScore
       set_gameOverScoreMultiplier set_soulsCollected set_sessionEarningsBase
       set_shieldMax set_shieldCount set_shieldRegenSec set_shieldRegenTimer
       set_obstacleDamageMult set_magnetMult set_soulValueMult
       set_doubleSoulChance set_bribeCooldownMult set_freeBribeEverySec
       set_bribeSplashRadius set_bribeCooldownLeftSec set_freeBribeTimerSec
       set_freeBribeReady set_obstacleSpawnTimer set_coinSpawnTimer
       set_gateSpawnTimer set_toastTimer set_toast set_toastActive
       set_platformPauseDepth set_wasPausedBeforePlatformPause
       set_wasMutedBeforePlatformPause set_player_x set_gp_y set_chosen
       set_remainingSec set_o_y set_c_y set_p_y set fst snd bestScore
       walletCoins upgrades with_bestScore with_walletCoins with_upgrades
       gp_left gp_right width gateId effect permanent player_y player_w
       player_h player_speed o_x o_r o_color o_damage c_x c_r c_value p_x p_r
       p_speed ] in *.

(** ** Methods of [Game] *)

Section GameMethods.

Variable config : GameConfig.

Definition showToast (message : Toast) (g : Game) : Game :=
  g <| toast := Some message |> <| toastActive := true |> <| toastTimer := num 1.7 |>.

(** [SaveService.store(this.saveData)]; the cloud copy made by
    [storeWithCloud] leaves the game untouched. *)
Definition storeSave (g : Game) : Game :=
  g <| storedSave := Some (saveData g) |>.

(** *** Effect stack *)

(** The callback of the [reduce] in [effectMultiplier]. *)
Definition multiplier_step (key : EffectKey) (acc : Qc) (effect0 : ActiveEffect) : Qc :=
  match effect_get (effect effect0) key with
  | Some (JNum value) => acc * value
  | _ => acc
  end.

Definition effectMultiplier (key : EffectKey) (g : Game) : Qc :=
  foldl (multiplier_step key) 1 (effects g).

Definition forwardSpeed (g : Game) : Qc :=
  num 150 * effectMultiplier KSpeedMultiplier g.

(** [Boolean(gate.permanent)] *)
Definition isPermanent (gate : GateConfig) : bool :=
  default false (gate_permanent gate).

Definition hasPermanentDebt (g : Game) : bool :=
  existsb (λ effect0, permanent effect0 && bool_decide (gateId effect0 = "DEBT"))
          (effects g).

Definition gateToastKey (gate : GateConfig) : GateToastKey :=
  if decide (gate_id gate = "DEBT") then gate_debt
  else if decide (gate_id gate = "MERCY" ∨ gate_id gate = "PLENTY") then gate_safe
  else gate_gamble.

Definition applyGate (gate : GateConfig) (g : Game) : Game :=
  if isPermanent gate && bool_decide (gate_id gate = "DEBT") && hasPermanentDebt g
  then showToast ToastDebtAlreadyIssued g
  else
    let duration :=
      if isPermanent gate then 0
      else if decide (gate_durationSec gate = 0)
           then gateDurationSec (economy config)
           else gate_durationSec gate in
    let g := g <| effects ::= λ es, es ++
               [ {| gateId := gate_id gate;
                    effect := gate_effects gate;
                    permanent := isPermanent gate;
                    remainingSec := duration |} ] |> in
    showToast (ToastGateChosen (gateToastKey gate) (gate_name gate)) g.

Definition updateEffects (dt : Qc) (g : Game) : Game :=
  g <| effects ::= omap (λ effect0,
         if permanent effect0 then Some effect0
         else
           let effect1 := effect0 <| remainingSec ::= λ s, s - dt |> in
           if decide (0 < remainingSec effect1) then Some effect1 else None) |>.

(** *** Economy *)

(** [[...tiers].sort((a, b) => a.fromSec - b.fromSec)]: a stable
    ascending sort. *)
Fixpoint insert_tier (t : DrainTier) (tiers : list DrainTier) : list DrainTier :=
  match tiers with
  | [] => [t]
  | u :: rest =>
      if decide (fromSec t ≤ fromSec u) then t :: u :: rest
      else u :: insert_tier t rest
  end.

Definition sort_tiers (tiers : list DrainTier) : list DrainTier :=
  foldr insert_tier [] tiers.

(** The body of the loop in [currentDrainRate]. *)
Definition drain_step (elapsed : Qc) (current : Qc) (tier : DrainTier) : Qc :=
  if decide (fromSec tier ≤ elapsed) then rate tier else current.

Definition currentDrainRate (g : Game) : Qc :=
  let tiers := sort_tiers (coinDrainTiers (economy config)) in
  let current := match tiers with [] => 0 | tier :: _ => rate tier end in
  foldl (drain_step (elapsedSec g)) current tiers.

(** [u] is the value of [Math.random()] for this shot. *)
Definition fireBribe (u : Qc) (g : Game) : Game :=
  if paused g || gameOver g || negb (runActive g) then g
  else if decide (0 < bribeCooldownLeftSec g) then g
  else
    let randomFreeShot := bool_decide (u < freeBribeChance (economy config)) in
    let timerFreeShot := freeBribeReady g in
    let freeShot := randomFreeShot || timerFreeShot in
    if negb freeShot && bool_decide (coinsBalance g < bribeShotCost (economy config))
    then showToast ToastInsufficientCoins g
    else
      let g :=
        if timerFreeShot
        then g <| freeBribeReady := false |>
               <| freeBribeTimerSec := freeBribeEverySec g |>
        else g in
      let g :=
        if negb freeShot
        then
          let cost := bribeShotCost (economy config) in
          showToast (ToastPaidBribe cost) (g <| coinsBalance ::= λ b, b - cost |>)
        else showToast ToastFreeBribe g in
      let g := g <| bribeCooldownLeftSec := BASE_BRIBE_COOLDOWN_SEC * bribeCooldownMult g |> in
      g <| projectiles ::= λ ps, ps ++
             [ {| p_x := player_x (player g);
                  p_y := player_y (player g) - num 20;
                  p_r := num 8;
                  p_speed := num 450 |} ] |>.

Definition triggerGameOver (g : Game) : Game :=
  let earnings :=
    Math_max 0 (Math_floor (distance g / num 10)
                + Qc_of_Z (soulsCollected g)
                + Math_floor (Math_max 0 (coinsBalance g) / num 10)) in
  let g := g <| sessionEarningsBase := earnings |> in
  let g := g <| saveData ::= λ s, with_walletCoins (walletCoins s + earnings) s |> in
  let g := g <| gameOver := true |> <| paused := true |> <| pausedByUser := false |>
             <| runActive := false |> in
  let g := g <| coinsBalance := 0 |> <| deathCount ::= Z.succ |> in
  let g := g <| gameOverBaseScore := Math_floor (distance g) |>
             <| gameOverScoreMultiplier := 1 |> in
  let g :=
    if decide (bestScore (saveData g) < gameOverBaseScore g)
    then g <| saveData ::= with_bestScore (gameOverBaseScore g) |>
    else g in
  let g := showToast ToastGameOver g in
  let g := g <| audioMuted := true |> in
  storeSave g.

(** *** Run start *)

Definition reset (g : Game) : Game :=
  let g := g <| elapsedSec := 0 |> <| distance := 0 |>
             <| coinsBalance := startCoins (economy config) |> in
  let g := g <| paused := true |> <| manualPaused := false |>
             <| pausedByUser := false |> <| gameOver := false |> in
  let g := g <| reviveInvulnMs := 0 |> <| gameOverBaseScore := 0 |>
             <| gameOverScoreMultiplier := 1 |> <| soulsCollected := 0%Z |>
             <| sessionEarningsBase := 0 |> in
  let g := g <| shieldMax := 0 |> <| shieldCount := 0 |>
             <| shieldRegenSec := 0 |> <| shieldRegenTimer := 0 |>
             <| obstacleDamageMult := 1 |> in
  let g := g <| magnetMult := 1 |> <| soulValueMult := 1 |>
             <| doubleSoulChance := 0 |> in
  let g := g <| bribeCooldownMult := 1 |> <| freeBribeEverySec := 0 |>
             <| bribeSplashRadius := 0 |> <| bribeCooldownLeftSec := 0 |>
             <| freeBribeTimerSec := 0 |> <| freeBribeReady := false |> in
  let g := g <| obstacles := [] |> <| coins := [] |> <| projectiles := [] |>
             <| gates := [] |> <| effects := [] |> in
  let g := g <| gateSpawnTimer := default (num 18) (firstGateDelaySec (economy config)) |> in
  g <| audioMuted := false |>.

(** [branch.levels[Math.min(level, branch.levels.length) - 1]] is cast to
    a level without a check: reading [.effect] of [undefined] throws. *)
Definition currentLevelEffect (branchId : string) (g : Game) : completion UpgradeEffect :=
  match List.find (λ item, bool_decide (branch_id item = branchId)) (cfg_upgrades config) with
  | None => Normal noUpgradeEffect
  | Some branch =>
      let level := default 0 (upgrades (saveData g) !! branch_id branch) in
      if decide (level ≤ 0) then Normal noUpgradeEffect
      else
        let count := Qc_of_Z (Z.of_nat (length (branch_levels branch))) in
        match array_get (branch_levels branch) (Math_min level count - 1) with
        | Some selectedLevel => Normal (level_effect selectedLevel)
        | None => Throw
        end
  end.

Definition applyDefense (defense : UpgradeEffect) (g : Game) : Game :=
  let g := g <| shieldMax := Math_max 0 (Math_floor (default 0 (shieldStart defense))) |> in
  let g := g <| shieldCount := shieldMax g |> in
  let g := g <| shieldRegenSec := Math_max 0 (default 0 (up_shieldRegenSec defense)) |> in
  let g := g <| shieldRegenTimer := shieldRegenSec g |> in
  g <| obstacleDamageMult := Math_max (num 0.1) (default 1 (up_obstacleDamageMult defense)) |>.

Definition applyFarm (farm : UpgradeEffect) (g : Game) : Game :=
  g <| magnetMult := Math_max 1 (default 1 (up_magnetMult farm)) |>
    <| soulValueMult := Math_max (num 0.1) (default 1 (up_soulValueMult farm)) |>
    <| doubleSoulChance := clamp (default 0 (up_doubleSoulChance farm)) 0 1 |>.

Definition applySkills (skills : UpgradeEffect) (g : Game) : Game :=
  let g := g <| bribeCooldownMult := Math_max (num 0.2) (default 1 (up_bribeCooldownMult skills)) |> in
  let g := g <| freeBribeEverySec := Math_max 0 (default 0 (up_freeBribeEverySec skills)) |> in
  let g := g <| bribeSplashRadius := Math_max 0 (default 0 (up_bribeSplashRadius skills)) |> in
  let g := g <| bribeCooldownLeftSec := 0 |> <| freeBribeReady := false |> in
  g <| freeBribeTimerSec := freeBribeEverySec g |>.

(** The three blocks of [applyMetaUpgradesForRun]; each starts with a call
    of [currentLevelEffect], which may throw and then abandons the rest of
    the method with the assignments made so far. *)
Definition applyMetaUpgradesForRun (g : Game) : Game * completion unit :=
  match currentLevelEffect "defense" g with
  | Throw => (g, Throw)
  | Normal defense =>
      let g := applyDefense defense g in
      match currentLevelEffect "farm" g with
      | Throw => (g, Throw)
      | Normal farm =>
          let g := applyFarm farm g in
          match currentLevelEffect "skills" g with
          | Throw => (g, Throw)
          | Normal skills => (applySkills skills g, Normal ())
          end
      end
  end.

Definition startNewRun (g : Game) : Game :=
  let g := reset g in
  let g := g <| runActive := true |> <| paused := false |>
             <| manualPaused := false |> <| pausedByUser := false |>
             <| audioMuted := false |> in
  match applyMetaUpgradesForRun g with
  | (g, Normal _) => showToast ToastStartRun g
  | (g, Throw) => g
  end.

(** *** One simulation step *)

(** The random choices of one call of [update]: the values returned by the
    calls of [Math.random()], and the pair returned by [pickTwoGates]
    (a sort under a random comparator, whose outcome the engine decides).
    The pair is two gates, as it is for a configuration with at least two
    of them; with fewer, [pickTwoGates] yields [undefined] options, which
    is outside the model. *)
Record TickRandom := {
  u_obstacleInterval : Qc;
  u_template : Qc;
  u_obstacleX : Qc;
  u_coinInterval : Qc;
  u_coinX : Qc;
  pickedGates : GateConfig * GateConfig;
  (** the roll made for the coin at this index of [this.coins], if that
      coin is collected *)
  u_doubleSoul : nat → Qc }.

(** [array.filter(callback)] where the callback also updates the game. *)
Fixpoint filter_with {A} (callback : nat → A → Game → Game * bool)
    (index : nat) (items : list A) (g : Game) : Game * list A :=
  match items with
  | [] => (g, [])
  | item :: rest =>
      let '(g, keep) := callback index item g in
      let '(g, kept) := filter_with callback (S index) rest g in
      (g, if keep then item :: kept else kept)
  end.

Definition spawnObstacle (dt : Qc) (rnd : TickRandom) (g : Game) : Game * completion unit :=
  let g := g <| obstacleSpawnTimer ::= λ t, t - dt |> in
  if decide (obstacleSpawnTimer g ≤ 0) then
    let g := g <| obstacleSpawnTimer := rand (num 0.8) (num 1.4) (u_obstacleInterval rnd) |> in
    let count := Qc_of_Z (Z.of_nat (length (cfg_obstacles config))) in
    match array_get (cfg_obstacles config) (Math_floor (u_template rnd * count)) with
    | None => (g, Throw)
    | Some template =>
        (g <| obstacles ::= λ os, os ++
               [ {| o_x := rand (obstacle_radius template)
                                (WIDTH - obstacle_radius template) (u_obstacleX rnd);
                    o_y := - num 40;
                    o_r := obstacle_radius template;
                    o_damage := obstacle_damage template;
                    o_color := obstacle_color template |} ] |>,
         Normal ())
    end
  else (g, Normal ()).

Definition spawnCoin (dt : Qc) (rnd : TickRandom) (g : Game) : Game :=
  let g := g <| coinSpawnTimer ::= λ t, t - dt |> in
  if decide (coinSpawnTimer g ≤ 0) then
    let g := g <| coinSpawnTimer := rand (num 0.45) (num 0.9) (u_coinInterval rnd) |> in
    g <| coins ::= λ cs, cs ++
           [ {| c_x := rand (num 24) (WIDTH - num 24) (u_coinX rnd);
                c_y := - num 20;
                c_r := num 10;
                c_value := pickupValue (economy config) |} ] |>
  else g.

Definition spawnGate (dt : Qc) (rnd : TickRandom) (g : Game) : Game :=
  let g := g <| gateSpawnTimer ::= λ t, t - dt |> in
  if decide (gateSpawnTimer g ≤ 0) then
    let g := g <| gateSpawnTimer := gateIntervalSec (economy config) |> in
    g <| gates ::= λ gs, gs ++
           [ {| gp_y := - num 60;
                gp_left := (pickedGates rnd).1;
                gp_right := (pickedGates rnd).2;
                width := num 170;
                chosen := false |} ] |>
  else g.

Definition moveAndCull (scrollSpeed dt : Qc) (g : Game) : Game :=
  let g := g <| obstacles ::= fmap (λ obstacle, obstacle <| o_y ::= λ y, y + scrollSpeed * dt |>) |> in
  let g := g <| coins ::= fmap (λ coin, coin <| c_y ::= λ y, y + scrollSpeed * dt |>) |> in
  let g := g <| gates ::= fmap (λ gate, gate <| gp_y ::= λ y, y + scrollSpeed * dt |>) |> in
  let g := g <| projectiles ::= fmap (λ projectile, projectile <| p_y ::= λ y, y - p_speed projectile * dt |>) |> in
  let g := g <| obstacles ::= filter (λ entity, o_y entity < HEIGHT + num 40) |> in
  let g := g <| coins ::= filter (λ entity, c_y entity < HEIGHT + num 30) |> in
  let g := g <| gates ::= filter (λ entity, gp_y entity < HEIGHT + num 80) |> in
  g <| projectiles ::= filter (λ entity, - num 20 < p_y entity) |>.

Definition spawnAndMove (dt : Qc) (rnd : TickRandom) (g : Game) : Game * completion unit :=
  let scrollSpeed := forwardSpeed g in
  match spawnObstacle dt rnd g with
  | (g, Throw) => (g, Throw)
  | (g, Normal _) =>
      let g := spawnCoin dt rnd g in
      let g := spawnGate dt rnd g in
      (moveAndCull scrollSpeed dt g, Normal ())
  end.

Record GateRects := { leftX : Qc; rightX : Qc; rect_width : Qc }.

Definition gateRects (gate : GatePair) : GateRects :=
  let center := WIDTH / num 2 in
  {| leftX := center - GATE_GAP - width gate;
     rightX := center + GATE_GAP;
     rect_width := width gate |}.

Definition boatBody (g : Game) : Body :=
  {| body_x := player_x (player g);
     body_y := player_y (player g);
     body_r := player_w (player g) * num 0.45 |}.

(** The callback of [this.coins.filter]. *)
Definition collectCoin (boat : Body) (magnetRadiusSq : Qc) (rolls : nat → Qc)
    (index : nat) (coin : CoinEntity) (g : Game) : Game * bool :=
  let inMagnet := bool_decide (distanceSq boat coin ≤ magnetRadiusSq) in
  if negb inMagnet && negb (intersects boat coin) then (g, true)
  else
    let value := c_value coin * soulValueMult g * effectMultiplier KPickupMultiplier g in
    let g := g <| soulsCollected ::= Z.succ |> in
    let '(value, g) :=
      if decide (rolls index < doubleSoulChance g)
      then (value + c_value coin * soulValueMult g * effectMultiplier KPickupMultiplier g,
            g <| soulsCollected ::= Z.succ |>)
      else (value, g) in
    let g := g <| coinsBalance ::= λ b, b + value |> in
    (showToast (ToastPickSoul value) g, false).

(** The callback of [this.obstacles.filter]. *)
Definition hitObstacle (boat : Body) (index : nat) (obstacle : ObstacleEntity)
    (g : Game) : Game * bool :=
  if negb (intersects boat obstacle) then (g, true)
  else
    let g :=
      if decide (reviveInvulnMs g ≤ 0) then
        if decide (0 < shieldCount g) then
          let g := g <| shieldCount ::= λ n, n - 1 |> in
          let g := g <| shieldRegenTimer := shieldRegenSec g |> in
          showToast ToastShieldAbsorbed g
        else
          let penalty := collisionPenalty (economy config)
                         * o_damage obstacle
                         * effectMultiplier KCollisionPenaltyMultiplier g
                         * obstacleDamageMult g in
          let g := g <| coinsBalance ::= λ b, b - penalty |> in
          showToast ToastHitObstacle g
      else g in
    (g, false).

(** The body of [for (const gate of this.gates)]: the game and the gate
    object after the iteration. *)
Definition resolveGate (gate : GatePair) (g : Game) : Game * GatePair :=
  if chosen gate then (g, gate)
  else if decide (GATE_HEIGHT < Math_abs (gp_y gate - player_y (player g))) then (g, gate)
  else
    let rects := gateRects gate in
    let leftCenter := leftX rects + rect_width rects * num 0.5 in
    let rightCenter := rightX rects + rect_width rects * num 0.5 in
    let px := player_x (player g) in
    let inLeftRect := bool_decide (leftX rects ≤ px) && bool_decide (px ≤ leftX rects + rect_width rects) in
    let inRightRect := bool_decide (rightX rects ≤ px) && bool_decide (px ≤ rightX rects + rect_width rects) in
    if inLeftRect then (applyGate (gp_left gate) g, gate <| chosen := true |>)
    else if inRightRect then (applyGate (gp_right gate) g, gate <| chosen := true |>)
    else
      let distanceLeft := Math_abs (px - leftCenter) in
      let distanceRight := Math_abs (px - rightCenter) in
      (applyGate (if decide (distanceLeft ≤ distanceRight) then gp_left gate else gp_right gate) g,
       gate <| chosen := true |>).

Fixpoint resolveGates (gs : list GatePair) (g : Game) : Game * list GatePair :=
  match gs with
  | [] => (g, [])
  | gate :: rest =>
      let '(g, gate) := resolveGate gate g in
      let '(g, rest) := resolveGates rest g in
      (g, gate :: rest)
  end.

(** The callback of [this.projectiles.filter]. *)
Definition hitProjectile (index : nat) (projectile : ProjectileEntity) (g : Game)
    : Game * bool :=
  match list_find (λ obstacle, intersects projectile obstacle = true) (obstacles g) with
  | None => (g, true)
  | Some (targetIndex, hit) =>
      let g := g <| obstacles ::= delete targetIndex |> in
      let g :=
        if decide (0 < bribeSplashRadius g) then
          let splashSq := bribeSplashRadius g * bribeSplashRadius g in
          g <| obstacles ::= filter (λ obstacle, splashSq < distanceSq obstacle hit) |>
        else g in
      (g, false)
  end.

Definition handleCollisions (rnd : TickRandom) (g : Game) : Game :=
  let boat := boatBody g in
  let magnetRadius := BASE_MAGNET_RADIUS * magnetMult g in
  let magnetRadiusSq := magnetRadius * magnetRadius in
  let '(g, kept) := filter_with (collectCoin boat magnetRadiusSq (u_doubleSoul rnd)) 0 (coins g) g in
  let g := g <| coins := kept |> in
  let '(g, kept) := filter_with (hitObstacle boat) 0 (obstacles g) g in
  let g := g <| obstacles := kept |> in
  let '(g, resolved) := resolveGates (gates g) g in
  let g := g <| gates := resolved |> in
  let '(g, kept) := filter_with hitProjectile 0 (projectiles g) g in
  g <| projectiles := kept |>.

(** Lines 736-742 of [update]. *)
Definition regenShield (dt : Qc) (g : Game) : Game :=
  if bool_decide (0 < shieldRegenSec g) && bool_decide (shieldCount g < shieldMax g) then
    let g := g <| shieldRegenTimer ::= λ t, t - dt |> in
    if decide (shieldRegenTimer g ≤ 0) then
      g <| shieldCount ::= λ n, n + 1 |> <| shieldRegenTimer := shieldRegenSec g |>
    else g
  else g.

Definition moveDir (g : Game) : Qc :=
  (if bool_decide ("arrowleft" ∈ keys g) || bool_decide ("a" ∈ keys g) then - 1 else 0)
  + (if bool_decide ("arrowright" ∈ keys g) || bool_decide ("d" ∈ keys g) then 1 else 0).

Definition movePlayer (x : Qc) (p : Player) : Player :=
  p <| player_x := clamp x (player_w p / num 2) (WIDTH - player_w p / num 2) |>.

(** Lines 724-734 of [update]. *)
Definition tickTimers (dt : Qc) (g : Game) : Game :=
  let g := g <| elapsedSec ::= λ t, t + dt |> in
  let g := g <| distance ::= λ d, d + forwardSpeed g * dt |> in
  let g := g <| reviveInvulnMs ::= λ ms, Math_max 0 (ms - dt * num 1000) |> in
  let g := g <| bribeCooldownLeftSec ::= λ s, Math_max 0 (s - dt) |> in
  if bool_decide (0 < freeBribeEverySec g) && negb (freeBribeReady g) then
    let g := g <| freeBribeTimerSec ::= λ s, s - dt |> in
    if decide (freeBribeTimerSec g ≤ 0) then g <| freeBribeReady := true |> else g
  else g.

(** Lines 744-748 of [update]. *)
Definition steerAndDrain (dt : Qc) (g : Game) : Game :=
  let g := g <| player ::= λ p, movePlayer (player_x p + moveDir g * player_speed p * dt) p |> in
  let drain := currentDrainRate g * effectMultiplier KDrainMultiplier g * dt in
  g <| coinsBalance ::= λ b, b - drain |>.

(** Lines 752-763 of [update]. *)
Definition settle (dt : Qc) (g : Game) : Game :=
  let g := updateEffects dt g in
  let g :=
    if decide (0 < toastTimer g) then
      let g := g <| toastTimer ::= λ t, t - dt |> in
      if decide (toastTimer g ≤ 0) then g <| toastActive := false |> else g
    else g in
  if decide (coinsBalance g ≤ 0) then triggerGameOver g else g.

Definition update (dt : Qc) (rnd : TickRandom) (g : Game) : Game * completion unit :=
  let g := tickTimers dt g in
  let g := regenShield dt g in
  let g := steerAndDrain dt g in
  match spawnAndMove dt rnd g with
  | (g, Throw) => (g, Throw)
  | (g, Normal _) =>
      let g := handleCollisions rnd g in
      (settle dt g, Normal ())
  end.

(** [loop], given the milliseconds since the previous frame.  An exception
    in [update] escapes before the next frame is requested. *)
Definition loop (elapsedMs : Qc) (rnd : TickRandom) (g : Game) : Game :=
  if negb (loopRunning g) then g
  else
    let dt := Math_min (elapsedMs / num 1000) (num 0.05) in
    if negb (paused g) && negb (gameOver g) && runActive g then
      match update dt rnd g with
      | (g, Normal _) => g
      | (g, Throw) => g <| loopRunning := false |>
      end
    else g.

(** *** Event handlers ([bindEvents]) *)

Definition pauseButton_click (g : Game) : Game :=
  if gameOver g || negb (runActive g) then g
  else
    let g :=
      if paused g
      then g <| paused := false |> <| manualPaused := false |> <| pausedByUser := false |>
      else g <| paused := true |> <| manualPaused := true |> <| pausedByUser := true |> in
    showToast (if paused g then ToastPaused else ToastResumed) g.

Definition visibilitychange (hidden : bool) (g : Game) : Game :=
  if hidden then
    let g := g <| paused := true |> <| manualPaused := false |> <| pausedByUser := false |> in
    let g := g <| keys := ∅ |> in
    showToast ToastTabHidden g
  else if runActive g then
    let g := g <| paused := true |> <| manualPaused := true |> <| pausedByUser := false |> in
    showToast ToastTabReturned g
  else g.

Definition platform_onPause (g : Game) : Game :=
  let g :=
    if decide (platformPauseDepth g = 0%Z)
    then g <| wasPausedBeforePlatformPause := paused g |>
           <| wasMutedBeforePlatformPause := audioMuted g |>
    else g in
  let g := g <| platformPauseDepth ::= λ d, (d + 1)%Z |> in
  g <| paused := true |> <| pausedByUser := false |> <| audioMuted := true |>.

Definition platform_onResume (g : Game) : Game :=
  if decide (platformPauseDepth g ≤ 0)%Z then g
  else
    let g := g <| platformPauseDepth ::= λ d, (d - 1)%Z |> in
    if decide (0 < platformPauseDepth g)%Z then g
    else
      let shouldStayPaused :=
        gameOver g || manualPaused g || wasPausedBeforePlatformPause g in
      g <| paused := shouldStayPaused |>
        <| audioMuted := wasMutedBeforePlatformPause g |>.

(** What follows [await this.platform.showRewarded()] in the revive
    handler when the reward was granted. *)
Definition revive_granted (g : Game) : Game :=
  let g := g <| coinsBalance := num 50 |> <| gameOver := false |>
             <| paused := false |> <| manualPaused := false |> in
  let g := g <| projectiles := [] |> <| obstacles := [] |>
             <| reviveInvulnMs := REVIVE_INVULN_MS |> in
  let g := g <| audioMuted := false |> in
  showToast ToastRevived g.

(** The revive handler, run to its end with the outcome of the rewarded
    ad. *)
Definition reviveButton_click (rewarded : bool) (g : Game) : Game :=
  if negb (gameOver g) then g
  else if negb rewarded then g
  else revive_granted g.

(** What follows [await this.platform.showRewarded()] in the doubler
    handler when the reward was granted. *)
Definition rewardX2_granted (g : Game) : Game :=
  let g := g <| gameOverScoreMultiplier := num 2 |> in
  let boostedScore := gameOverBaseScore g * gameOverScoreMultiplier g in
  let g :=
    if decide (bestScore (saveData g) < boostedScore)
    then g <| saveData ::= with_bestScore boostedScore |>
    else g in
  let bonus := sessionEarningsBase g in
  let g :=
    if decide (0 < bonus)
    then g <| saveData ::= λ s, with_walletCoins (walletCoins s + bonus) s |>
    else g in
  let g := storeSave g in
  showToast ToastRewardX2Fixed g.

(** The doubler handler, run to its end with the outcome of the rewarded
    ad. *)
Definition rewardX2Button_click (rewarded : bool) (g : Game) : Game :=
  if negb (gameOver g) || bool_decide (gameOverScoreMultiplier g = num 2) then g
  else if negb rewarded then g
  else rewardX2_granted g.

Definition restartButton_click (g : Game) : Game :=
  g <| runActive := false |> <| paused := true |> <| manualPaused := false |>
    <| pausedByUser := false |>.

(** The interstitial shown before a new run only touches wall-clock
    bookkeeping and the platform. *)
Definition startRunButton_click (g : Game) : Game := startNewRun g.

Definition handleProgressReset (confirmed : bool) (g : Game) : Game :=
  if negb confirmed then g
  else
    let defaults := SaveService.defaults (cfg_upgrades config) in
    let g := g <| storedSave := Some defaults |> in
    let g := g <| saveData := defaults |> in
    showToast ToastProgressReset g.

Definition buyUpgrade (branchId : string) (g : Game) : Game :=
  match List.find (λ item, bool_decide (branch_id item = branchId)) (cfg_upgrades config) with
  | None => g
  | Some branch =>
      let level := default 0 (upgrades (saveData g) !! branch_id branch) in
      match array_get (branch_levels branch) level with
      | None => g
      | Some next =>
          if decide (walletCoins (saveData g) < level_cost next)
          then showToast ToastWalletShort g
          else
            let g := g <| saveData ::= λ s, with_walletCoins (walletCoins s - level_cost next) s |> in
            let g := g <| saveData ::= λ s, with_upgrades (<[branch_id branch := level + 1]> (upgrades s)) s |> in
            let g := storeSave g in
            showToast (ToastPurchase (level_title next)) g
      end
  end.

(** [onPointerMove], given [(clientX - rect.left) / rect.width]. *)
Definition onPointerMove (normalizedX : Qc) (g : Game) : Game :=
  g <| player ::= movePlayer (normalizedX * WIDTH) |>.

(** [keydown], given [event.key.toLowerCase()] (the space bar is the one
    key whose name is a blank, in either case), whether the event is a
    repeat, and the roll of the shot it may fire. *)
Definition keydown (key : string) (repeat : bool) (u : Qc) (g : Game) : Game :=
  let g := g <| keys ::= λ ks, {[ key ]} ∪ ks |> in
  if bool_decide (key = " ") && negb repeat then fireBribe u g else g.

Definition keyup (key : string) (g : Game) : Game :=
  g <| keys ::= λ ks, ks ∖ {[ key ]} |>.

Definition window_blur (g : Game) : Game := g <| keys := ∅ |>.

(** *** Construction

    The constructor, given the save returned by [SaveService.load], taken
    to hold numbers as [SaveData] declares. *)

Definition newGame (save : SaveData Qc) : Game :=
  {| saveData := save;
     storedSave := None;
     audioMuted := false;
     loopRunning := true;
     player := {| player_x := WIDTH / num 2; player_y := HEIGHT - num 70;
                  player_w := num 50; player_h := num 36; player_speed := num 340 |};
     keys := ∅;
     obstacles := []; coins := []; projectiles := []; gates := []; effects := [];
     elapsedSec := 0; distance := 0; coinsBalance := 0;
     paused := true; manualPaused := false; pausedByUser := false;
     gameOver := false; runActive := false;
     deathCount := 0%Z;
     reviveInvulnMs := 0;
     gameOverBaseScore := 0; gameOverScoreMultiplier := 1;
     soulsCollected := 0%Z; sessionEarningsBase := 0;
     shieldMax := 0; shieldCount := 0; shieldRegenSec := 0; shieldRegenTimer := 0;
     obstacleDamageMult := 1;
     magnetMult := 1; soulValueMult := 1; doubleSoulChance := 0;
     bribeCooldownMult := 1; freeBribeEverySec := 0; bribeSplashRadius := 0;
     bribeCooldownLeftSec := 0; freeBribeTimerSec := 0; freeBribeReady := false;
     obstacleSpawnTimer := 0; coinSpawnTimer := 0; gateSpawnTimer := 0;
     toastTimer := num 1.7; toast := Some ToastDailyContract; toastActive := true;
     platformPauseDepth := 0%Z;
     wasPausedBeforePlatformPause := false;
     wasMutedBeforePlatformPause := false |}.

(** *** Everything that can happen to a game *)

Inductive Event :=
  | PauseClick
  | VisibilityChange (hidden : bool)
  | PlatformPause
  | PlatformResume
  | ReviveClick (rewarded : bool)
  (** the continuation of a revive handler that was suspended at its
      [await] while other events were handled *)
  | ReviveGrantedLate
  | RewardX2Click (rewarded : bool)
  | RewardX2GrantedLate
  | RestartClick
  | StartRunClick
  | ProgressReset (confirmed : bool)
  | BuyUpgrade (branchId : string)
  | BribeClick (u : Qc)
  | KeyDown (key : string) (repeat : bool) (u : Qc)
  | KeyUp (key : string)
  | Blur
  | PointerMove (normalizedX : Qc)
  | Frame (elapsedMs : Qc) (rnd : TickRandom).

Definition handle (ev : Event) (g : Game) : Game :=
  match ev with
  | PauseClick => pauseButton_click g
  | VisibilityChange hidden => visibilitychange hidden g
  | PlatformPause => platform_onPause g
  | PlatformResume => platform_onResume g
  | ReviveClick rewarded => reviveButton_click rewarded g
  | ReviveGrantedLate => revive_granted g
  | RewardX2Click rewarded => rewardX2Button_click rewarded g
  | RewardX2GrantedLate => rewardX2_granted g
  | RestartClick => restartButton_click g
  | StartRunClick => startRunButton_click g
  | ProgressReset confirmed => handleProgressReset confirmed g
  | BuyUpgrade branchId => buyUpgrade branchId g
  | BribeClick u => fireBribe u g
  | KeyDown key repeat u => keydown key repeat u g
  | KeyUp key => keyup key g
  | Blur => window_blur g
  | PointerMove normalizedX => onPointerMove normalizedX g
  | Frame elapsedMs rnd => loop elapsedMs rnd g
  end.

(** The game after a sequence of events, oldest first. *)
Definition run (evs : list Event) (g : Game) : Game :=
  foldl (λ g ev, handle ev g) g evs.

End GameMethods.

(** ** The effect multiplier over binary64 numbers

    [effectMultiplier] once more, with the arithmetic of the engine that
    runs it: [acc * value] is the IEEE 754 binary64 product, rounded to
    nearest, of the kernel's primitive floats.  A value of the
    configuration is the binary64 number nearest to the fraction written
    in the JSON, which for a numerator and a denominator below 2^53 is
    their correctly rounded quotient. *)

Module Double.

Definition of_Z (z : Z) : PrimFloat.float :=
  match z with
  | Z0 => PrimFloat.zero
  | Zpos p => PrimFloat.of_uint63 (Uint63.of_Z (Zpos p))
  | Zneg p => PrimFloat.opp (PrimFloat.of_uint63 (Uint63.of_Z (Zpos p)))
  end.

Definition of_Qc (q : Qc) : PrimFloat.float :=
  PrimFloat.div (of_Z (Qnum q)) (of_Z (Zpos (Qden q))).

(** The callback of the [reduce] in [effectMultiplier]. *)
Definition multiplier_step (key : EffectKey) (acc : PrimFloat.float)
    (effect0 : ActiveEffect) : PrimFloat.float :=
  match effect_get (effect effect0) key with
  | Some (JNum value) => PrimFloat.mul acc (of_Qc value)
  | _ => acc
  end.

Definition effectMultiplier (key : EffectKey) (g : Game) : PrimFloat.float :=
  foldl (multiplier_step key) PrimFloat.one (effects g).

End Double.

(** ** Reading the claims

    Definitions that follow the words of the specification, to be compared
    with the code above. *)

(** "that effect's value for the key, treating an absent or non-numeric
    entry as the neutral value 1" *)
Definition spec_effectValue (key : EffectKey) (e : ActiveEffect) : Qc :=
  match effect_get (effect e) key with
  | Some (JNum value) => value
  | _ => 1
  end.

(** "the product over all active effects" *)
Definition spec_product (key : EffectKey) (es : list ActiveEffect) : Qc :=
  foldr Qcmult 1 (spec_effectValue key <$> es).

(** The same over binary64 numbers: the factors are the numeric entries,
    taken from the first effect of the list to the last; an effect with an
    absent or non-numeric entry contributes no factor. *)
Definition spec_factor (key : EffectKey) (e : ActiveEffect) : option PrimFloat.float :=
  match effect_get (effect e) key with
  | Some (JNum value) => Some (Double.of_Qc value)
  | _ => None
  end.

Definition spec_ordered_product (key : EffectKey) (es : list ActiveEffect) : PrimFloat.float :=
  foldl PrimFloat.mul PrimFloat.one (omap (spec_factor key) es).

(** "interleaved user-pause and platform suspend/resume events" *)
Definition pauseSignal (ev : Event) : Prop :=
  ev = PauseClick ∨ ev = PlatformPause ∨ ev = PlatformResume.

(** "while the platform suspend counter remains positive after a resume
    the paused flag stays true": [evs] holds a resume after which the
    counter is positive at every step, and the game is paused at the end. *)
Definition spec_stays_suspended (config : GameConfig) (g : Game) (evs : list Event) : Prop :=
  ∀ before after,
    evs = before ++ PlatformResume :: after →
    (∀ k, (0 < platformPauseDepth
                 (run config (before ++ PlatformResume :: take k after) g))%Z) →
    paused (run config evs g) = true.

(** "the last tier whose fromSec threshold is <= t" *)
Definition spec_activeTier (t : Qc) (tiers : list DrainTier) : option DrainTier :=
  last (filter (λ tier, fromSec tier ≤ t) tiers).

(** "ascending-sorted list of drain tiers" *)
Definition tiers_ascending (tiers : list DrainTier) : Prop :=
  Sorted (λ a b, fromSec a ≤ fromSec b) tiers.

(** "the payload": the fields of the JSON object the stored text parses
    to; none when nothing is stored, when the storage or the parser
    throws, or when the text parses to something else than an object. *)
Definition payload_fields (parse : string → completion json)
    (read : SaveService.StorageRead) : list (string * json) :=
  match read with
  | SaveService.Item raw =>
      if decide (raw = EmptyString) then []
      else match parse raw with
           | Normal (JObj fields) => fields
           | _ => []
           end
  | _ => []
  end.

(** What [load] returns when the payload has the given fields. *)
Definition loaded_from (upgrades0 : list UpgradeBranchConfig)
    (fields : list (string * json)) (s : SaveData json) : Prop :=
  bestScore s = match obj_get "bestScore" fields with
                | None | Some JNull => JNum 0
                | Some stored => stored
                end
  ∧ walletCoins s = match obj_get "walletCoins" fields with
                    | None | Some JNull => JNum 0
                    | Some stored => stored
                    end
  ∧ ∀ branch,
      upgrades s !! branch
      = match obj_get branch
                (SaveService.own_entries
                   (SaveService.nullish (obj_get "upgrades" fields) (JObj []))) with
        | Some level => Some level
        | None => if decide (branch ∈ branch_id <$> upgrades0)
                  then Some (JNum 0) else None
        end.

(** "the boat's x lies inside [the left / the right] zone" *)
Definition inLeftZone (gate : GatePair) (x : Qc) : Prop :=
  leftX (gateRects gate) ≤ x ∧ x ≤ leftX (gateRects gate) + width gate.
Definition inRightZone (gate : GatePair) (x : Qc) : Prop :=
  rightX (gateRects gate) ≤ x ∧ x ≤ rightX (gateRects gate) + width gate.

(** "zone center" *)
Definition leftCenter (gate : GatePair) : Qc :=
  leftX (gateRects gate) + width gate * num 0.5.
Definition rightCenter (gate : GatePair) : Qc :=
  rightX (gateRects gate) + width gate * num 0.5.

(** "within vertical tolerance of the boat" *)
Definition withinTolerance (gate : GatePair) (g : Game) : Prop :=
  Math_abs (gp_y gate - player_y (player g)) ≤ GATE_HEIGHT.

(** The fields read by the two state invariants below. *)
Definition core (g : Game) : bool * bool * Qc * Qc :=
  (paused g, manualPaused g, shieldMax g, shieldCount g).

Definition pauseView (g : Game) : bool * bool := (paused g, manualPaused g).
Definition shieldView (g : Game) : Qc * Qc := (shieldMax g, shieldCount g).

(** "the user's manual pause is active" implies "paused" *)
Definition pause_inv (g : Game) : Prop :=
  manualPaused g = true → paused g = true.

(** "0 <= shieldCount <= shieldMax", both whole numbers *)
Definition shield_inv (g : Game) : Prop :=
  ∃ count capacity : Z,
    shieldCount g = Qc_of_Z count ∧ shieldMax g = Qc_of_Z capacity
    ∧ (0 ≤ count ≤ capacity)%Z.

Global Instance inLeftZone_dec gate x : Decision (inLeftZone gate x).
Proof. unfold inLeftZone. apply _. Defined.
Global Instance inRightZone_dec gate x : Decision (inRightZone gate x).
Proof. unfold inRightZone. apply _. Defined.
Global Instance withinTolerance_dec gate g : Decision (withinTolerance gate g).
Proof. unfold withinTolerance. apply _. Defined.

(** ** Sample data *)

Definition sample_economy : EconomyConfig :=
  {| startCoins := num 100;
     coinDrainTiers :=
       [ {| fromSec := 0; rate := 1 |};
         {| fromSec := num 30; rate := num 2 |};
         {| fromSec := num 60; rate := num 4 |} ];
     pickupValue := num 10;
     collisionPenalty := num 8;
     bribeShotCost := 1;
     freeBribeChance := num 0.1;
     firstGateDelaySec := None;
     gateIntervalSec := num 20;
     gateDurationSec := num 12;
     minInterstitialIntervalSec := None |}.

Definition sample_config : GameConfig :=
  {| economy := sample_economy; cfg_gates := []; cfg_obstacles := [];
     cfg_upgrades := [] |}.

Definition sample_save : SaveData Qc :=
  {| bestScore := 0; walletCoins := 0; upgrades := ∅ |}.

Definition sample_effect (id : string) (is_permanent : bool) (drain : option json)
  : ActiveEffect :=
  {| gateId := id;
     effect := {| collisionPenaltyMultiplier := None; pickupMultiplier := None;
                  speedMultiplier := None; drainMultiplier := drain |};
     permanent := is_permanent;
     remainingSec := 0 |}.

Definition sample_gate (id : string) (is_permanent : option bool) : GateConfig :=
  {| gate_id := id; gate_name := id; gate_description := "";
     gate_durationSec := 0; gate_permanent := is_permanent;
     gate_effects := {| collisionPenaltyMultiplier := None; pickupMultiplier := None;
                        speedMultiplier := None; drainMultiplier := None |} |}.

(** Three effects whose drain multipliers are 0.1, 0.2 and 0.3. *)
Definition sample_tenths : list ActiveEffect :=
  [ sample_effect "A" false (Some (JNum (num 0.1)));
    sample_effect "B" true (Some (JNum (num 0.2)));
    sample_effect "C" false (Some (JNum (num 0.3))) ].

Definition sample_effects_game (es : list ActiveEffect) : Game :=
  (newGame sample_save) <| effects := es |>.

Definition at_time (t : Qc) : Game := (newGame sample_save) <| elapsedSec := t |>.

(** A burst of platform signals: [true] is a suspend, [false] a resume. *)
Definition platform_signals (signals : list bool) (g : Game) : Game :=
  foldl (λ g suspend, if suspend : bool then platform_onPause g else platform_onResume g)
        g signals.

(** The snapshot taken by the first suspend. *)
Definition pauseSnapshot (g : Game) : bool * bool :=
  (wasPausedBeforePlatformPause g, wasMutedBeforePlatformPause g).

Definition sample_obstacle (damage : Qc) : ObstacleEntity :=
  {| o_x := num 450; o_y := num 450; o_r := num 10; o_color := "#fff";
     o_damage := damage |}.

Definition sample_gatePair (x_width : Qc) : GatePair :=
  {| gp_y := num 450;
     gp_left := sample_gate "MERCY" None;
     gp_right := sample_gate "DEBT" (Some true);
     width := x_width;
     chosen := false |}.

Definition sample_gameOver (best : Qc) : Game :=
  (newGame {| bestScore := best; walletCoins := num 40; upgrades := ∅ |})
    <| gameOver := true |> <| gameOverBaseScore := num 340 |>
    <| sessionEarningsBase := num 12 |>.

Definition sample_running : Game :=
  (newGame sample_save) <| paused := false |> <| runActive := true |>
    <| freeBribeEverySec := num 8 |> <| freeBribeTimerSec := num 3 |>.

Definition sample_branch (id : string) : UpgradeBranchConfig :=
  {| branch_id := id; branch_title := id; branch_levels := [] |}.

Definition sample_payload : json :=
  JObj [ ("bestScore", JStr "oops");
         ("upgrades", JObj [("farm", JNum (num 2))]) ].

(** What a burst of platform signals maintains once the game was paused
    before it started. *)
Definition held_paused (g : Game) : Prop :=
  paused g = true
  ∧ ((0 < platformPauseDepth g)%Z → wasPausedBeforePlatformPause g = true).

(** ** Further readings of the code *)

(** The callback of the [filter] in [updateEffects]: what becomes of one
    effect after [dt] seconds. *)
Definition effect_step (dt : Qc) (effect0 : ActiveEffect) : option ActiveEffect :=
  if permanent effect0 then Some effect0
  else
    let effect1 := effect0 <| remainingSec ::= λ s, s - dt |> in
    if decide (0 < remainingSec effect1) then Some effect1 else None.

(** Several calls of [updateEffects] in a row, one per frame. *)
Definition updateEffects_each (dts : list Qc) (g : Game) : Game :=
  foldl (λ g dt, updateEffects dt g) g dts.

(** One frame in the life of a temporary effect, on the time it has left:
    [updateEffects] subtracts the frame time and keeps the effect while
    the result is positive.  [None] is an effect that has been removed. *)
Definition remaining_step (rest : option Qc) (dt : Qc) : option Qc :=
  rest ≫= λ remaining,
    if decide (0 < remaining - dt) then Some (remaining - dt) else None.

(** The time left after the frames [dts], one subtraction per frame. *)
Definition remainingAfter (dts : list Qc) (remaining : Qc) : option Qc :=
  foldl remaining_step (Some remaining) dts.

(** The duration [applyGate] gives the effect of a gate. *)
Definition effectDuration (config : GameConfig) (gate : GateConfig) : Qc :=
  if isPermanent gate then 0
  else if decide (gate_durationSec gate = 0)
       then gateDurationSec (economy config)
       else gate_durationSec gate.

(** The effect [applyGate] pushes for a gate, with a given time left. *)
Definition effectOf (gate : GateConfig) (remaining : Qc) : ActiveEffect :=
  {| gateId := gate_id gate; effect := gate_effects gate;
     permanent := isPermanent gate; remainingSec := remaining |}.

(** The permanent effects that come from the gate ["DEBT"]. *)
Definition permanentDebts (g : Game) : list ActiveEffect :=
  filter (λ e, permanent e = true ∧ gateId e = "DEBT") (effects g).

(** [canFire] in [updateHud] (lines 1023-1027): the bribe button is enabled
    exactly when it holds. *)
Definition canFire (config : GameConfig) (g : Game) : bool :=
  let cost := bribeShotCost (economy config) in
  let cooldown := bribeCooldownLeftSec g in
  let canAfford := bool_decide (cost ≤ coinsBalance g) in
  runActive g && negb (paused g) && negb (gameOver g)
  && bool_decide (cooldown ≤ 0) && (freeBribeReady g || canAfford).

(** The keyboard shot that the button would not allow: the roll [u] makes
    the shot free although the purse is short. *)
Definition luckyShot (config : GameConfig) (u : Qc) (g : Game) : Prop :=
  runActive g = true ∧ paused g = false ∧ gameOver g = false
  ∧ bribeCooldownLeftSec g ≤ 0 ∧ u < freeBribeChance (economy config).

(** The projectile pushed by [fireBribe]. *)
Definition bribeProjectile (g : Game) : ProjectileEntity :=
  {| p_x := player_x (player g); p_y := player_y (player g) - num 20;
     p_r := num 8; p_speed := num 450 |}.

(** The earnings computed by [triggerGameOver] (line 986). *)
Definition runEarnings (g : Game) : Qc :=
  Math_max 0 (Math_floor (distance g / num 10)
              + Qc_of_Z (soulsCollected g)
              + Math_floor (Math_max 0 (coinsBalance g) / num 10)).

(** The value of one pickup (line 836). *)
Definition coinValue (coin : CoinEntity) (g : Game) : Qc :=
  c_value coin * soulValueMult g * effectMultiplier KPickupMultiplier g.

(** The coin is within reach: inside the magnet radius or touching the
    boat (lines 831-832). *)
Definition coinInReach (coin : CoinEntity) (g : Game) : Prop :=
  distanceSq (boatBody g) coin
    ≤ BASE_MAGNET_RADIUS * magnetMult g * (BASE_MAGNET_RADIUS * magnetMult g)
  ∨ intersects (boatBody g) coin = true.

(** The JSON tree of a save: what [JSON.parse] returns on the text that
    [SaveService.store] wrote with [JSON.stringify]. *)
Definition save_json (s : SaveData Qc) : json :=
  JObj [ ("bestScore", JNum (bestScore s));
         ("walletCoins", JNum (walletCoins s));
         ("upgrades", JObj (map_to_list (JNum <$> upgrades s))) ].

(** The floors and ranges [applyMetaUpgradesForRun] gives the modifiers of
    a run. *)
Definition modifiers_clamped (g : Game) : Prop :=
  0 ≤ shieldRegenSec g
  ∧ num 0.1 ≤ obstacleDamageMult g
  ∧ 1 ≤ magnetMult g
  ∧ num 0.1 ≤ soulValueMult g
  ∧ (0 ≤ doubleSoulChance g ∧ doubleSoulChance g ≤ 1)
  ∧ num 0.2 ≤ bribeCooldownMult g
  ∧ 0 ≤ freeBribeEverySec g
  ∧ 0 ≤ bribeSplashRadius g.

(** The boat is inside the lane. *)
Definition boat_in_lane (g : Game) : Prop :=
  player_w (player g) = num 50
  ∧ player_w (player g) / num 2 ≤ player_x (player g)
  ∧ player_x (player g) ≤ WIDTH - player_w (player g) / num 2.

(** A finished run is paused and no longer active. *)
Definition over_is_stopped (g : Game) : Prop :=
  gameOver g = true → paused g = true ∧ runActive g = false.

(** What holds of every game the handlers can produce. *)
Definition steady (g : Game) : Prop :=
  modifiers_clamped g ∧ boat_in_lane g ∧ over_is_stopped g
  ∧ (0 ≤ platformPauseDepth g)%Z ∧ 0 ≤ sessionEarningsBase g.

(** The fields [steady] reads. *)
Definition steadyView (g : Game) :=
  (shieldRegenSec g, obstacleDamageMult g, magnetMult g, soulValueMult g,
   doubleSoulChance g, bribeCooldownMult g, freeBribeEverySec g,
   bribeSplashRadius g, player g, gameOver g, paused g, runActive g,
   platformPauseDepth g, sessionEarningsBase g).

(** What the steps of a frame before [settle] leave alone. *)
Definition runView (g : Game) :=
  (gameOver g, paused g, runActive g, saveData g, storedSave g, loopRunning g).

(** The game at the test [coinsBalance <= 0] that ends [update] (line
    759), as far as the purse goes: after the timers, the drain, the
    spawns and the collisions of the frame.  [updateEffects] and the toast
    timer, which run in between, leave the purse, the distance and the
    souls alone. *)
Definition beforeSettle (config : GameConfig) (dt : Qc) (rnd : TickRandom) (g : Game) : Game :=
  handleCollisions config rnd
    (spawnAndMove config dt rnd
       (steerAndDrain config dt (regenShield dt (tickTimers dt g)))).1.

(** A value [Math.random()] can return. *)
Definition unitRoll (u : Qc) : Prop := 0 ≤ u ∧ u < 1.

(** Consecutive calls of [update], each with its frame time and its
    rolls. *)
Definition updates (config : GameConfig) (ticks : list (Qc * TickRandom)) (g : Game) : Game :=
  foldl (λ g tick, (update config tick.1 tick.2 g).1) g ticks.

(** The two timers that only [update] counts down. *)
Definition timersView (g : Game) := (reviveInvulnMs g, bribeCooldownLeftSec g, elapsedSec g).

(** The first lines of [update] (724-727), frame after frame: the
    invulnerability in milliseconds, the bribe cooldown in seconds and the
    clock of the run after frames of [dts] seconds. *)
Definition invulnAfter (dts : list Qc) (ms : Qc) : Qc :=
  foldl (λ ms dt, Math_max 0 (ms - dt * num 1000)) ms dts.

Definition cooldownAfter (dts : list Qc) (sec : Qc) : Qc :=
  foldl (λ sec dt, Math_max 0 (sec - dt)) sec dts.

Definition elapsedAfter (dts : list Qc) (sec : Qc) : Qc :=
  foldl (λ sec dt, sec + dt) sec dts.

(** The wallet of the save is not overdrawn. *)
Definition solvent (g : Game) : Prop := 0 ≤ walletCoins (saveData g).

(** At most one permanent debt is active. *)
Definition single_debt (g : Game) : Prop := (length (permanentDebts g) ≤ 1)%nat.

(** [n] suspends in a row, then [n] resumes. *)
Definition suspends (n : nat) (g : Game) : Game := Nat.iter n platform_onPause g.
Definition resumes (n : nat) (g : Game) : Game := Nat.iter n platform_onResume g.

(** ** Further sample data *)

Definition sample_timed_gate : GateConfig :=
  {| gate_id := "HASTE"; gate_name := "Haste"; gate_description := "";
     gate_durationSec := num 2; gate_permanent := None;
     gate_effects := {| collisionPenaltyMultiplier := None; pickupMultiplier := None;
                        speedMultiplier := Some (JNum (num 1.5));
                        drainMultiplier := None |} |}.

Definition sample_template : ObstacleConfig :=
  {| obstacle_id := "rock"; obstacle_radius := num 18; obstacle_damage := num 3;
     obstacle_color := "#888" |}.

(** A configuration whose runs start with an empty purse. *)
Definition sample_poor_config : GameConfig :=
  {| economy :=
       {| startCoins := 0;
          coinDrainTiers := [ {| fromSec := 0; rate := 1 |} ];
          pickupValue := num 10;
          collisionPenalty := num 8;
          bribeShotCost := 1;
          freeBribeChance := num 0.1;
          firstGateDelaySec := None;
          gateIntervalSec := num 20;
          gateDurationSec := num 12;
          minInterstitialIntervalSec := None |};
     cfg_gates := [];
     cfg_obstacles := [sample_template];
     cfg_upgrades := [] |}.

Definition sample_rolls : TickRandom :=
  {| u_obstacleInterval := 0; u_template := 0; u_obstacleX := 0;
     u_coinInterval := 0; u_coinX := 0;
     pickedGates := (sample_gate "MERCY" None, sample_gate "DEBT" (Some true));
     u_doubleSoul := λ _, 1 |}.

Definition sample_level (cost : Qc) (title : string) (shields : Qc) : UpgradeLevelConfig :=
  {| level_cost := cost; level_title := title; level_shortDesc := "";
     level_effect :=
       {| shieldStart := Some shields; up_shieldRegenSec := Some (num 6);
          up_obstacleDamageMult := None; up_magnetMult := None;
          up_soulValueMult := None; up_doubleSoulChance := None;
          up_bribeCooldownMult := None; up_freeBribeEverySec := None;
          up_bribeSplashRadius := None |} |}.

Definition sample_defense : UpgradeBranchConfig :=
  {| branch_id := "defense"; branch_title := "Defense";
     branch_levels := [ sample_level (num 30) "Plank" 1;
                        sample_level (num 80) "Hull" (num 2) ] |}.

(** A configuration with a shop of one branch. *)
Definition sample_shop_config : GameConfig :=
  {| economy := sample_economy; cfg_gates := []; cfg_obstacles := [sample_template];
     cfg_upgrades := [sample_defense] |}.

(** A save with 100 coins and the given level of the branch. *)
Definition sample_shop_save (level : Qc) : SaveData Qc :=
  {| bestScore := 0; walletCoins := num 100; upgrades := {[ "defense" := level ]} |}.

Definition sample_coin : CoinEntity :=
  {| c_x := num 450; c_y := num 440; c_r := num 10; c_value := num 10 |}.

(** The tiers of the sample economy, out of order. *)
Definition sample_shuffled_config : GameConfig :=
  {| economy :=
       {| startCoins := num 100;
          coinDrainTiers :=
            [ {| fromSec := num 60; rate := num 4 |};
              {| fromSec := 0; rate := 1 |};
              {| fromSec := num 30; rate := num 2 |} ];
          pickupValue := num 10;
          collisionPenalty := num 8;
          bribeShotCost := 1;
          freeBribeChance := num 0.1;
          firstGateDelaySec := None;
          gateIntervalSec := num 20;
          gateDurationSec := num 12;
          minInterstitialIntervalSec := None |};
     cfg_gates := []; cfg_obstacles := []; cfg_upgrades := [] |}.

(** A run that ends in its first frame. *)
Definition sample_lost_run : list Event :=
  [ StartRunClick; Frame (num 16) sample_rolls ].

(** * Properties *)

(** ** Proof steps *)

(** Closed comparisons of rationals, by computation. *)
Ltac qc_compute :=
  vm_compute;
  first [ reflexivity
        | discriminate
        | intros ?; discriminate
        | let H := fresh in intros H; elim H; reflexivity ].

(** Case analysis on every test of a method, then computation. *)
Ltac frame :=
  intros; repeat (first [ case_decide | case_match ]); try reflexivity.

(** ** Arithmetic on [Qc] *)

Lemma Qc_of_Z_le (a b : Z) : (a ≤ b)%Z ↔ Qc_of_Z a ≤ Qc_of_Z b.
Proof.
  unfold Qcle, Qc_of_Z; simpl. rewrite <- Zle_Qle. reflexivity.
Qed.

Lemma Qc_of_Z_lt (a b : Z) : (a < b)%Z ↔ Qc_of_Z a < Qc_of_Z b.
Proof.
  unfold Qclt, Qc_of_Z; simpl. rewrite <- Zlt_Qlt. reflexivity.
Qed.

Lemma Qc_of_Z_plus (a b : Z) : Qc_of_Z (a + b) = Qc_of_Z a + Qc_of_Z b.
Proof.
  apply Qc_is_canon. unfold Qcplus, Q2Qc, Qc_of_Z. cbn [this].
  rewrite Qred_correct, inject_Z_plus. reflexivity.
Qed.

Lemma Qc_of_Z_minus (a b : Z) : Qc_of_Z (a - b) = Qc_of_Z a - Qc_of_Z b.
Proof.
  apply Qc_is_canon. unfold Qcminus, Qcplus, Qcopp, Q2Qc, Qc_of_Z. cbn [this].
  rewrite !Qred_correct. unfold Z.sub. rewrite inject_Z_plus, inject_Z_opp.
  reflexivity.
Qed.

Lemma Qc_of_Z_0 : Qc_of_Z 0 = 0.
Proof. apply Qc_is_canon. reflexivity. Qed.

Lemma Qc_of_Z_1 : Qc_of_Z 1 = 1.
Proof. apply Qc_is_canon. reflexivity. Qed.

Lemma Math_max_0_floor (x : Qc) : ∃ m : Z, Math_max 0 (Math_floor x) = Qc_of_Z m ∧ (0 ≤ m)%Z.
Proof.
  unfold Math_max, Math_floor. case_decide as H.
  - exists (Qfloor x). split; [reflexivity|].
    rewrite <- Qc_of_Z_0 in H. by apply Qc_of_Z_le.
  - exists 0%Z. split; [by rewrite Qc_of_Z_0 | lia].
Qed.

(** ** Effect stack *)

Section EffectStack.

Variable key : EffectKey.

Lemma multiplier_step_value acc e :
  multiplier_step key acc e = acc * spec_effectValue key e.
Proof.
  unfold multiplier_step, spec_effectValue.
  destruct (effect_get (effect e) key) as [[]|]; simpl; ring.
Qed.

Lemma spec_product_nil : spec_product key [] = 1.
Proof. reflexivity. Qed.

Lemma spec_product_cons e es :
  spec_product key (e :: es) = spec_effectValue key e * spec_product key es.
Proof. reflexivity. Qed.

Lemma multiplier_fold acc es :
  foldl (multiplier_step key) acc es = acc * spec_product key es.
Proof.
  revert acc. induction es as [|e es IH]; intros acc.
  - rewrite spec_product_nil. cbn [foldl]. ring.
  - cbn [foldl]. rewrite IH, multiplier_step_value, spec_product_cons. ring.
Qed.

Lemma spec_product_perm es es' :
  es ≡ₚ es' → spec_product key es = spec_product key es'.
Proof.
  induction 1 as [|e es es' _ IH|e e' es|es es' es'' _ IH1 _ IH2].
  - reflexivity.
  - rewrite !spec_product_cons. by rewrite IH.
  - rewrite !spec_product_cons. ring.
  - by rewrite IH1.
Qed.

Lemma effectMultiplier_fold g :
  effectMultiplier key g = foldl (multiplier_step key) 1 (effects g).
Proof. reflexivity. Qed.

End EffectStack.

(** Over exact rationals the multiplier is the product of the values, an
    absent or non-numeric entry counting as 1; it is 1 when no effect is
    active, and a reordering of the list does not change it. *)
Lemma effectMultiplier_exact_product (key : EffectKey) (g g' : Game)
    (Hreorder : effects g ≡ₚ effects g') :
  effectMultiplier key g = spec_product key (effects g)
  ∧ effectMultiplier key (g <| effects := [] |>) = 1
  ∧ effectMultiplier key g' = effectMultiplier key g.
Proof.
  rewrite !effectMultiplier_fold, !multiplier_fold, !Qcmult_1_l.
  split; [reflexivity|]. split; [reflexivity|].
  symmetry. by apply spec_product_perm.
Qed.

Lemma Double_multiplier_fold key acc es :
  foldl (Double.multiplier_step key) acc es
  = foldl PrimFloat.mul acc (omap (spec_factor key) es).
Proof.
  revert acc. induction es as [|e es IH]; intros acc; [reflexivity|].
  cbn [foldl omap list_omap]. rewrite IH.
  unfold Double.multiplier_step, spec_factor.
  by destruct (effect_get (effect e) key) as [[]|].
Qed.

(** C2, as the code has it.  On the binary64 numbers of the engine,
    [effectMultiplier(key)] is the product of the numeric values for [key]
    of the active effects, temporary and permanent, multiplied from the
    first effect of the list to the last, an absent or non-numeric entry
    leaving the product as it is; it is 1 when no effect is active; an
    effect appended to the list multiplies the result by its value; and
    the result depends on nothing but the list of the effects' value
    tables, in their order. *)
Theorem effectMultiplier_is_ordered_product (key : EffectKey) (g : Game) :
  Double.effectMultiplier key g = spec_ordered_product key (effects g)
  ∧ Double.effectMultiplier key (g <| effects := [] |>) = PrimFloat.one
  ∧ (∀ effect0,
       Double.effectMultiplier key (g <| effects ::= λ es, es ++ [effect0] |>)
       = match spec_factor key effect0 with
         | Some value => PrimFloat.mul (Double.effectMultiplier key g) value
         | None => Double.effectMultiplier key g
         end)
  ∧ (∀ g', effect <$> effects g' = effect <$> effects g →
           Double.effectMultiplier key g' = Double.effectMultiplier key g).
Proof.
  unfold Double.effectMultiplier, spec_ordered_product.
  split; [apply Double_multiplier_fold|].
  split; [reflexivity|].
  split.
  - intros effect0. fields. rewrite foldl_app. cbn [foldl].
    unfold Double.multiplier_step, spec_factor.
    by destruct (effect_get (effect effect0) key) as [[]|].
  - intros g'. generalize PrimFloat.one.
    generalize (effects g) (effects g'). clear g g'.
    intros es. induction es as [|e es IH]; intros [|e' es'] acc Hsame;
      try discriminate; [reflexivity|].
    cbn [fmap list_fmap] in Hsame. injection Hsame as Hhead Htail.
    cbn [foldl]. rewrite (IH es' _ Htail).
    unfold Double.multiplier_step. by rewrite Hhead.
Qed.

(** C2 as stated, in its last part, fails on binary64 numbers: the
    multipliers 0.1, 0.2 and 0.3 give 0.006000000000000001 in this order
    and 0.006 in the reverse order. *)
Lemma effectMultiplier_depends_on_order :
  ¬ (∀ (key : EffectKey) (g g' : Game),
       effects g ≡ₚ effects g' →
       Double.effectMultiplier key g' = Double.effectMultiplier key g).
Proof.
  intros Hclaim.
  specialize (Hclaim KDrainMultiplier (sample_effects_game sample_tenths)
                (sample_effects_game (reverse sample_tenths))
                (symmetry (reverse_Permutation sample_tenths))).
  apply (f_equal (PrimFloat.eqb (Double.effectMultiplier KDrainMultiplier
                                   (sample_effects_game sample_tenths)))) in Hclaim.
  vm_compute in Hclaim. discriminate.
Qed.

Example effectMultiplier_rounds :
  PrimFloat.eqb (Double.effectMultiplier KDrainMultiplier (sample_effects_game sample_tenths))
                (Double.of_Qc (num 0.006)) = false
  ∧ PrimFloat.eqb (Double.effectMultiplier KDrainMultiplier
                     (sample_effects_game (reverse sample_tenths)))
                  (Double.of_Qc (num 0.006)) = true.
Proof. vm_compute. by split. Qed.

Example effectMultiplier_exact_sample :
  let slow := sample_effect "SLOW" false (Some (JNum (num 0.5))) in
  let debt := sample_effect "DEBT" true (Some (JNum (num 3))) in
  let mute := sample_effect "MUTE" false (Some (JStr "x")) in
  let g := sample_effects_game [slow; debt; mute] in
  let g' := sample_effects_game [debt; mute; slow] in
  effectMultiplier KDrainMultiplier g = num 1.5
  ∧ effectMultiplier KDrainMultiplier g' = num 1.5.
Proof. split; apply Qc_is_canon; vm_compute; reflexivity. Qed.

Example effectMultiplier_sample :
  effectMultiplier KDrainMultiplier
    (sample_effects_game
       [ sample_effect "SLOW" false (Some (JNum (num 0.5)));
         sample_effect "DEBT" true (Some (JNum (num 3)));
         sample_effect "MUTE" false (Some (JStr "x"));
         sample_effect "NONE" false None ])
  = num 1.5.
Proof. apply Qc_is_canon. vm_compute. reflexivity. Qed.

Lemma showToast_effects message g : effects (showToast message g) = effects g.
Proof. reflexivity. Qed.

Lemma hasPermanentDebt_spec g :
  hasPermanentDebt g = true
  ↔ ∃ e, e ∈ effects g ∧ permanent e = true ∧ gateId e = "DEBT".
Proof.
  unfold hasPermanentDebt. rewrite existsb_exists. split.
  - intros (e & Hin & He). apply andb_true_iff in He as [Hp Hid].
    exists e. split; [by apply list_elem_of_In|]. split; [done|].
    by apply bool_decide_eq_true in Hid.
  - intros (e & Hin & Hp & Hid). exists e. split; [by apply list_elem_of_In|].
    rewrite Hp. by apply bool_decide_eq_true.
Qed.

(** What [applyGate] does whenever it does not reject: one effect more. *)
Lemma applyGate_pushes config gate g :
  isPermanent gate && bool_decide (gate_id gate = "DEBT") && hasPermanentDebt g = false →
  effects (applyGate config gate g)
  = effects g ++
      [ {| gateId := gate_id gate; effect := gate_effects gate;
           permanent := isPermanent gate;
           remainingSec :=
             if isPermanent gate then 0
             else if decide (gate_durationSec gate = 0)
                  then gateDurationSec (economy config)
                  else gate_durationSec gate |} ].
Proof. intros Hguard. unfold applyGate. rewrite Hguard. reflexivity. Qed.

(** C1, as the code has it.  A permanent gate whose id is ["DEBT"],
    applied while a permanent effect of gate ["DEBT"] is active, is
    rejected: the game only gets the "already issued" toast, so the effect
    list and its length are unchanged. *)
Theorem applyGate_rejects_second_debt (config : GameConfig) (gate : GateConfig) (g : Game)
    (Hpermanent : isPermanent gate = true)
    (Hdebt : gate_id gate = "DEBT")
    (Hactive : ∃ e, e ∈ effects g ∧ permanent e = true ∧ gateId e = gate_id gate) :
  applyGate config gate g = showToast ToastDebtAlreadyIssued g
  ∧ effects (applyGate config gate g) = effects g
  ∧ length (effects (applyGate config gate g)) = length (effects g)
  ∧ toast (applyGate config gate g) = Some ToastDebtAlreadyIssued.
Proof.
  rewrite Hdebt in Hactive. apply hasPermanentDebt_spec in Hactive.
  assert (Happly : applyGate config gate g = showToast ToastDebtAlreadyIssued g).
  { unfold applyGate. rewrite Hpermanent, Hactive.
    rewrite (bool_decide_eq_true_2 _ Hdebt). reflexivity. }
  rewrite Happly. repeat split; reflexivity.
Qed.

Lemma applyGate_rejects_second_debt_witness :
  let gate := sample_gate "DEBT" (Some true) in
  let g := sample_effects_game [sample_effect "DEBT" true None] in
  applyGate sample_config gate g = showToast ToastDebtAlreadyIssued g
  ∧ effects (applyGate sample_config gate g) = effects g
  ∧ length (effects (applyGate sample_config gate g)) = length (effects g)
  ∧ toast (applyGate sample_config gate g) = Some ToastDebtAlreadyIssued.
Proof.
  intros gate g.
  apply (applyGate_rejects_second_debt sample_config gate g).
  - reflexivity.
  - reflexivity.
  - exists (sample_effect "DEBT" true None).
    split; [apply list_elem_of_here|]. split; reflexivity.
Defined.

(** C1, as stated, fails for a permanent gate with another id: the
    permanent gate ["OATH"] applied over its own permanent effect is pushed
    a second time. *)
Lemma applyGate_repeats_other_permanent :
  ¬ (∀ (config : GameConfig) (gate : GateConfig) (g : Game),
       isPermanent gate = true →
       (∃ e, e ∈ effects g ∧ permanent e = true ∧ gateId e = gate_id gate) →
       effects (applyGate config gate g) = effects g
       ∧ length (effects (applyGate config gate g)) = length (effects g)
       ∧ toast (applyGate config gate g) = Some ToastDebtAlreadyIssued).
Proof.
  intros Hclaim.
  destruct (Hclaim sample_config (sample_gate "OATH" (Some true))
              (sample_effects_game [sample_effect "OATH" true None]))
    as (_ & Hlength & _).
  - reflexivity.
  - exists (sample_effect "OATH" true None).
    split; [apply list_elem_of_here|]. split; reflexivity.
  - vm_compute in Hlength. discriminate Hlength.
Qed.

(** ** Drain tiers *)

Lemma insert_tier_head t tiers :
  HdRel (λ a b, fromSec a ≤ fromSec b) t tiers → insert_tier t tiers = t :: tiers.
Proof.
  destruct 1 as [|u rest Hle]; simpl; [reflexivity|].
  by rewrite decide_True.
Qed.

Lemma sort_tiers_ascending tiers :
  tiers_ascending tiers → sort_tiers tiers = tiers.
Proof.
  induction 1 as [|t tiers _ IH Hhd]; [reflexivity|].
  unfold sort_tiers in *. cbn [foldr]. rewrite IH. by apply insert_tier_head.
Qed.

Lemma drain_loop t tiers current :
  foldl (drain_step t) current tiers
  = match spec_activeTier t tiers with
    | Some tier => rate tier
    | None => current
    end.
Proof.
  revert current. unfold spec_activeTier.
  induction tiers as [|u tiers IH]; intros current; [reflexivity|].
  cbn [foldl]. rewrite IH, filter_cons. unfold drain_step.
  destruct (decide (fromSec u ≤ t)) as [Hle|Hgt].
  - rewrite last_cons. by destruct (last _).
  - reflexivity.
Qed.

(** Before the first threshold the first tier's rate stands in (0 without
    any tier). *)
Lemma currentDrainRate_before_first_tier config g :
  tiers_ascending (coinDrainTiers (economy config)) →
  spec_activeTier (elapsedSec g) (coinDrainTiers (economy config)) = None →
  currentDrainRate config g
  = match coinDrainTiers (economy config) with
    | [] => 0
    | tier :: _ => rate tier
    end.
Proof.
  intros Hsorted Hnone. unfold currentDrainRate.
  rewrite (sort_tiers_ascending _ Hsorted). by rewrite drain_loop, Hnone.
Qed.

(** C4.  Over tiers sorted by ascending threshold, [currentDrainRate] is
    the rate of the last tier whose [fromSec] is at most the elapsed time,
    with no interpolation; for the tiers (0,1), (30,2), (60,4) it is 2 at
    45 s, 4 at 61 s and 1 at 0 s. *)
Theorem currentDrainRate_last_tier (config : GameConfig) (g : Game) (tier : DrainTier)
    (Hsorted : tiers_ascending (coinDrainTiers (economy config)))
    (Hactive : spec_activeTier (elapsedSec g) (coinDrainTiers (economy config)) = Some tier) :
  currentDrainRate config g = rate tier
  ∧ currentDrainRate sample_config (at_time (num 45)) = num 2
  ∧ currentDrainRate sample_config (at_time (num 61)) = num 4
  ∧ currentDrainRate sample_config (at_time 0) = 1.
Proof.
  split.
  - unfold currentDrainRate. rewrite (sort_tiers_ascending _ Hsorted).
    by rewrite drain_loop, Hactive.
  - repeat split; apply Qc_is_canon; vm_compute; reflexivity.
Qed.

Lemma currentDrainRate_last_tier_witness :
  currentDrainRate sample_config (at_time (num 45)) = rate {| fromSec := num 30; rate := num 2 |}
  ∧ currentDrainRate sample_config (at_time (num 45)) = num 2
  ∧ currentDrainRate sample_config (at_time (num 61)) = num 4
  ∧ currentDrainRate sample_config (at_time 0) = 1.
Proof.
  apply (currentDrainRate_last_tier sample_config (at_time (num 45))
           {| fromSec := num 30; rate := num 2 |}).
  - repeat constructor; vm_compute; discriminate.
  - vm_compute. reflexivity.
Defined.

(** ** Obstacle impact *)

Lemma hitObstacle_removes config boat index obstacle g :
  intersects boat obstacle = true →
  (hitObstacle config boat index obstacle g).2 = false.
Proof. intros Hhit. unfold hitObstacle. rewrite Hhit. reflexivity. Qed.

Lemma hitObstacle_keeps config boat index obstacle g :
  intersects boat obstacle = false →
  hitObstacle config boat index obstacle g = (g, true).
Proof. intros Hmiss. unfold hitObstacle. rewrite Hmiss. reflexivity. Qed.

Lemma hitObstacle_filter config boat obstacles0 index g :
  (filter_with (hitObstacle config boat) index obstacles0 g).2
  = filter (λ obstacle, intersects boat obstacle = false) obstacles0.
Proof.
  revert index g. induction obstacles0 as [|o os IH]; intros index g; [reflexivity|].
  cbn [filter_with]. rewrite filter_cons.
  destruct (intersects boat o) eqn:Hhit.
  - pose proof (hitObstacle_removes config boat index o g Hhit) as Hdrop.
    destruct (hitObstacle config boat index o g) as [g1 keep]. simpl in Hdrop. subst keep.
    specialize (IH (S index) g1).
    destruct (filter_with _ _ os g1) as [g2 kept]. simpl in *. exact IH.
  - rewrite (hitObstacle_keeps config boat index o g Hhit).
    specialize (IH (S index) g).
    destruct (filter_with _ _ os g) as [g2 kept]. simpl in *. by rewrite IH.
Qed.

(** C3.  An obstacle that touches the boat while the revive
    invulnerability is over: with a shield charge left, one charge is
    consumed, the regeneration timer restarts and the balance is untouched;
    with no charge, the balance drops by exactly
    [collisionPenalty * damage * collisionPenaltyMultiplier *
    obstacleDamageMult], which is [collisionPenalty * damage] when both
    multipliers are 1.  Whatever the outcome (invulnerable or not), the
    callback drops the obstacle, so the filtered list keeps only obstacles
    that do not touch the boat. *)
Theorem obstacle_collision (config : GameConfig) (g : Game) (index : nat)
    (obstacle : ObstacleEntity)
    (Himpact : intersects (boatBody g) obstacle = true)
    (Hvulnerable : reviveInvulnMs g ≤ 0) :
  let g' := (hitObstacle config (boatBody g) index obstacle g).1 in
  let penalty := collisionPenalty (economy config) * o_damage obstacle
                 * effectMultiplier KCollisionPenaltyMultiplier g
                 * obstacleDamageMult g in
  (0 < shieldCount g →
     shieldCount g' = shieldCount g - 1
     ∧ shieldRegenTimer g' = shieldRegenSec g
     ∧ coinsBalance g' = coinsBalance g)
  ∧ (shieldCount g = 0 →
     coinsBalance g' = coinsBalance g - penalty
     ∧ shieldCount g' = 0
     ∧ (effectMultiplier KCollisionPenaltyMultiplier g = 1 →
        obstacleDamageMult g = 1 →
        coinsBalance g' = coinsBalance g - collisionPenalty (economy config) * o_damage obstacle))
  ∧ (∀ boat i o g0, intersects boat o = true → (hitObstacle config boat i o g0).2 = false)
  ∧ (∀ boat i os g0,
       (filter_with (hitObstacle config boat) i os g0).2
       = filter (λ o, intersects boat o = false) os).
Proof.
  intros g' penalty.
  assert (Hg' : g' = if decide (0 < shieldCount g)
                     then showToast ToastShieldAbsorbed
                            (g <| shieldCount ::= λ n, n - 1 |>
                               <| shieldRegenTimer := shieldRegenSec g |>)
                     else showToast ToastHitObstacle
                            (g <| coinsBalance ::= λ b, b - penalty |>)).
  { subst g'. unfold hitObstacle. rewrite Himpact. cbn [negb fst].
    by rewrite (decide_True _ _ Hvulnerable). }
  rewrite Hg'. clear Hg'.
  split; [|split; [|split]].
  - intros Hshield. rewrite (decide_True _ _ Hshield). repeat split; reflexivity.
  - intros Hempty.
    rewrite decide_False by (rewrite Hempty; apply Qcle_not_lt, Qcle_refl).
    split; [reflexivity|]. split; [exact Hempty|].
    intros Heffects Hupgrade. subst penalty. cbn. rewrite Heffects, Hupgrade. ring.
  - intros. by apply hitObstacle_removes.
  - intros. apply hitObstacle_filter.
Qed.

Lemma obstacle_collision_witness :
  let g := (newGame sample_save) <| shieldCount := num 2 |> <| shieldMax := num 2 |> in
  let g' := (hitObstacle sample_config (boatBody g) 0 (sample_obstacle (num 3)) g).1 in
  shieldCount g' = num 2 - 1 ∧ coinsBalance g' = coinsBalance g.
Proof.
  intros g g'.
  destruct (obstacle_collision sample_config g 0 (sample_obstacle (num 3)))
    as (Hshield & _).
  - vm_compute. reflexivity.
  - qc_compute.
  - destruct Hshield as (Hcount & _ & Hbalance); [qc_compute|].
    split; [exact Hcount | exact Hbalance].
Defined.

Example obstacle_collision_sample :
  let g := (newGame sample_save) <| coinsBalance := num 100 |> in
  coinsBalance (hitObstacle sample_config (boatBody g) 0 (sample_obstacle (num 3)) g).1
  = num 76.
Proof. apply Qc_is_canon. vm_compute. reflexivity. Qed.

(** ** Gate resolution *)

Lemma applyGate_player config gate g : player (applyGate config gate g) = player g.
Proof. unfold applyGate. by destruct (_ && _). Qed.

Lemma resolveGate_player config gate g :
  player (resolveGate config gate g).1 = player g.
Proof.
  unfold resolveGate.
  repeat (case_match; cbn [fst]); try reflexivity; apply applyGate_player.
Qed.

Lemma resolveGate_chosen_skip config gate g :
  chosen gate = true → resolveGate config gate g = (g, gate).
Proof. intros Hc. unfold resolveGate. by rewrite Hc. Qed.

Lemma resolveGate_far_skip config gate g :
  ¬ withinTolerance gate g → resolveGate config gate g = (g, gate).
Proof.
  intros Hfar. unfold resolveGate. destruct (chosen gate); [reflexivity|].
  rewrite decide_True; [reflexivity|]. by apply Qcnot_le_lt.
Qed.

(** What the loop body does to a pending gate within reach. *)
Lemma resolveGate_pending config gate g :
  chosen gate = false → withinTolerance gate g →
  resolveGate config gate g
  = (applyGate config
       (if decide (inLeftZone gate (player_x (player g))) then gp_left gate
        else if decide (inRightZone gate (player_x (player g))) then gp_right gate
        else if decide (Math_abs (player_x (player g) - leftCenter gate)
                        ≤ Math_abs (player_x (player g) - rightCenter gate))
             then gp_left gate else gp_right gate) g,
     gate <| chosen := true |>).
Proof.
  intros Hpending Hnear. unfold resolveGate. rewrite Hpending.
  rewrite decide_False by (by apply Qcle_not_lt).
  cbn zeta. unfold inLeftZone, inRightZone, leftCenter, rightCenter.
  change (rect_width (gateRects gate)) with (width gate).
  destruct (decide (_ ∧ _)) as [[Hl1 Hl2]|Hnl].
  { by rewrite (bool_decide_eq_true_2 _ Hl1), (bool_decide_eq_true_2 _ Hl2). }
  replace (bool_decide _ && bool_decide _) with false; cycle 1.
  { symmetry. apply andb_false_iff.
    destruct (decide (leftX (gateRects gate) ≤ player_x (player g))) as [H1|H1].
    - right. apply bool_decide_eq_false_2. tauto.
    - left. by apply bool_decide_eq_false_2. }
  cbn iota.
  destruct (decide (_ ∧ _)) as [[Hr1 Hr2]|Hnr].
  { by rewrite (bool_decide_eq_true_2 _ Hr1), (bool_decide_eq_true_2 _ Hr2). }
  replace (bool_decide _ && bool_decide _) with false; cycle 1.
  { symmetry. apply andb_false_iff.
    destruct (decide (rightX (gateRects gate) ≤ player_x (player g))) as [H1|H1].
    - right. apply bool_decide_eq_false_2. tauto.
    - left. by apply bool_decide_eq_false_2. }
  reflexivity.
Qed.

Lemma resolveGate_marks config gate g :
  withinTolerance gate g → chosen (resolveGate config gate g).2 = true.
Proof.
  intros Hnear. destruct (chosen gate) eqn:Hc.
  - by rewrite resolveGate_chosen_skip.
  - by rewrite resolveGate_pending.
Qed.

(** A second pass of the loop, from any game with the boat at the same
    place, finds nothing left to resolve. *)
Lemma resolveGates_settled config gs g g' :
  player g' = player g →
  resolveGates config (resolveGates config gs g).2 g' = (g', (resolveGates config gs g).2).
Proof.
  revert g. induction gs as [|gate gs IH]; intros g Hplayer; [reflexivity|].
  cbn [resolveGates].
  pose proof (resolveGate_player config gate g) as Hp1.
  destruct (resolveGate config gate g) as [g1 gate1] eqn:Hstep. cbn [fst] in Hp1.
  specialize (IH g1 ltac:(congruence)).
  destruct (resolveGates config gs g1) as [g2 rest] eqn:Hrest. cbn [snd] in *.
  assert (Hskip : resolveGate config gate1 g' = (g', gate1)).
  { destruct (decide (withinTolerance gate g)) as [Hnear|Hfar].
    - apply resolveGate_chosen_skip.
      pose proof (resolveGate_marks config gate g Hnear) as Hm.
      by rewrite Hstep in Hm.
    - rewrite (resolveGate_far_skip config gate g Hfar) in Hstep.
      injection Hstep as <- <-. apply resolveGate_far_skip.
      unfold withinTolerance in *. by rewrite Hplayer. }
  cbn [resolveGates]. rewrite Hskip, IH. reflexivity.
Qed.

(** C5.  For a gate pair not yet chosen and within the vertical tolerance
    of the boat: a boat inside exactly one zone gets that side's option; a
    boat inside neither zone gets the option whose zone center is nearer,
    the left one on an exact tie; the pair is then marked chosen, and a
    chosen pair is skipped by every later pass of the loop. *)
Theorem gate_resolution (config : GameConfig) (g : Game) (gate : GatePair)
    (Hpending : chosen gate = false)
    (Hnear : withinTolerance gate g) :
  let x := player_x (player g) in
  let distanceLeft := Math_abs (x - leftCenter gate) in
  let distanceRight := Math_abs (x - rightCenter gate) in
  let applies option0 :=
    resolveGate config gate g = (applyGate config option0 g, gate <| chosen := true |>) in
  (inLeftZone gate x → ¬ inRightZone gate x → applies (gp_left gate))
  ∧ (inRightZone gate x → ¬ inLeftZone gate x → applies (gp_right gate))
  ∧ (¬ inLeftZone gate x → ¬ inRightZone gate x →
       (distanceLeft < distanceRight → applies (gp_left gate))
       ∧ (distanceRight < distanceLeft → applies (gp_right gate))
       ∧ (distanceLeft = distanceRight → applies (gp_left gate)))
  ∧ chosen (resolveGate config gate g).2 = true
  ∧ (∀ g', resolveGate config (resolveGate config gate g).2 g'
           = (g', (resolveGate config gate g).2))
  ∧ (∀ gs g0 g', player g' = player g0 →
       resolveGates config (resolveGates config gs g0).2 g'
       = (g', (resolveGates config gs g0).2)).
Proof.
  intros x distanceLeft distanceRight applies. subst applies. cbn beta.
  rewrite (resolveGate_pending config gate g Hpending Hnear).
  fold x. fold distanceLeft. fold distanceRight.
  split; [|split; [|split; [|split; [|split]]]].
  - intros Hl _. by rewrite (decide_True _ _ Hl).
  - intros Hr Hnl. by rewrite (decide_False _ _ Hnl), (decide_True _ _ Hr).
  - intros Hnl Hnr. rewrite (decide_False _ _ Hnl), (decide_False _ _ Hnr).
    split; [|split].
    + intros Hlt. by rewrite decide_True by (by apply Qclt_le_weak).
    + intros Hlt. by rewrite decide_False by (by apply Qclt_not_le).
    + intros Heq. by rewrite decide_True by (rewrite Heq; apply Qcle_refl).
  - reflexivity.
  - intros g'. by apply resolveGate_chosen_skip.
  - intros gs g0 g'. apply resolveGates_settled.
Qed.

Lemma gate_resolution_witness :
  let g := newGame sample_save in
  let gate := sample_gatePair (num 170) in
  resolveGate sample_config gate g
  = (applyGate sample_config (gp_left gate) g, gate <| chosen := true |>).
Proof.
  intros g gate.
  destruct (gate_resolution sample_config g gate) as (_ & _ & Hneither & _).
  - reflexivity.
  - qc_compute.
  - destruct Hneither as (_ & _ & Htie).
    + intros [_ Hle]. revert Hle. qc_compute.
    + intros [Hle _]. revert Hle. qc_compute.
    + apply Htie. apply Qc_is_canon. vm_compute. reflexivity.
Defined.

(** ** The score and earnings doubler *)

Lemma rewardX2_guard_after_success g :
  gameOverScoreMultiplier g = num 2 → ∀ rewarded, rewardX2Button_click rewarded g = g.
Proof.
  intros Hdone rewarded. unfold rewardX2Button_click.
  rewrite (bool_decide_eq_true_2 _ Hdone). by rewrite orb_true_r.
Qed.

Lemma rewardX2_granted_multiplier g :
  gameOverScoreMultiplier (rewardX2_granted g) = num 2.
Proof. unfold rewardX2_granted, showToast, storeSave. fields. by repeat (case_decide; fields). Qed.

Lemma rewardX2_granted_bestScore g :
  bestScore (saveData (rewardX2_granted g))
  = if decide (bestScore (saveData g) < gameOverBaseScore g * num 2)
    then gameOverBaseScore g * num 2
    else bestScore (saveData g).
Proof. unfold rewardX2_granted, showToast, storeSave. fields. by repeat (case_decide; fields). Qed.

Lemma rewardX2_granted_wallet g :
  walletCoins (saveData (rewardX2_granted g))
  = if decide (0 < sessionEarningsBase g)
    then walletCoins (saveData g) + sessionEarningsBase g
    else walletCoins (saveData g).
Proof. unfold rewardX2_granted, showToast, storeSave. fields. by repeat (case_decide; fields). Qed.

Lemma rewardX2_granted_stored g :
  storedSave (rewardX2_granted g) = Some (saveData (rewardX2_granted g)).
Proof. unfold rewardX2_granted, showToast, storeSave. fields. by repeat (case_decide; fields). Qed.

(** C6.  After game over, a first rewarded use of the doubler sets the
    score multiplier to 2, raises the best score to the doubled base score
    when that is higher (so the best score is never below it), adds exactly
    the session's base earnings to the wallet and stores the save; from
    then on the handler changes nothing, rewarded or not.  With base score
    340 and earnings 12: best score at least 680, wallet up by exactly
    12. *)
Theorem rewardX2_idempotent (g : Game)
    (Hover : gameOver g = true)
    (Hfirst : gameOverScoreMultiplier g ≠ num 2)
    (Hearned : 0 ≤ sessionEarningsBase g) :
  let doubled := gameOverBaseScore g * num 2 in
  let g1 := rewardX2Button_click true g in
  gameOverScoreMultiplier g1 = num 2
  ∧ (bestScore (saveData g) < doubled → bestScore (saveData g1) = doubled)
  ∧ (doubled ≤ bestScore (saveData g) → bestScore (saveData g1) = bestScore (saveData g))
  ∧ doubled ≤ bestScore (saveData g1)
  ∧ walletCoins (saveData g1) = walletCoins (saveData g) + sessionEarningsBase g
  ∧ upgrades (saveData g1) = upgrades (saveData g)
  ∧ storedSave g1 = Some (saveData g1)
  ∧ (∀ rewarded, rewardX2Button_click rewarded g1 = g1)
  ∧ (gameOverBaseScore g = num 340 → sessionEarningsBase g = num 12 →
       num 680 ≤ bestScore (saveData g1)
       ∧ walletCoins (saveData g1) = walletCoins (saveData g) + num 12).
Proof.
  intros doubled g1.
  assert (Hg1 : g1 = rewardX2_granted g).
  { subst g1. unfold rewardX2Button_click. rewrite Hover.
    by rewrite (bool_decide_eq_false_2 _ Hfirst). }
  assert (Hbest : doubled ≤ bestScore (saveData g1)).
  { rewrite Hg1, rewardX2_granted_bestScore. fold doubled. case_decide.
    - apply Qcle_refl.
    - by apply Qcnot_lt_le. }
  assert (Hwallet : walletCoins (saveData g1)
                    = walletCoins (saveData g) + sessionEarningsBase g).
  { rewrite Hg1, rewardX2_granted_wallet. case_decide as Hpos; [reflexivity|].
    assert (sessionEarningsBase g = 0) as ->.
    { apply Qcle_antisym; [by apply Qcnot_lt_le | done]. }
    ring. }
  split; [by rewrite Hg1, rewardX2_granted_multiplier|].
  split.
  { intros Hlow. rewrite Hg1, rewardX2_granted_bestScore. fold doubled.
    by rewrite decide_True. }
  split.
  { intros Hhigh. rewrite Hg1, rewardX2_granted_bestScore. fold doubled.
    by rewrite decide_False by (by apply Qcle_not_lt). }
  split; [exact Hbest|]. split; [exact Hwallet|].
  split.
  { rewrite Hg1. unfold rewardX2_granted, showToast, storeSave. fields.
    by repeat (case_decide; fields). }
  split; [rewrite Hg1; apply rewardX2_granted_stored|].
  split.
  { apply rewardX2_guard_after_success. by rewrite Hg1, rewardX2_granted_multiplier. }
  intros Hscore Hearnings. split.
  - replace (num 680) with doubled; [exact Hbest|].
    subst doubled. rewrite Hscore. apply Qc_is_canon. vm_compute. reflexivity.
  - by rewrite Hwallet, Hearnings.
Qed.

Lemma rewardX2_idempotent_witness :
  let g := sample_gameOver (num 400) in
  let g1 := rewardX2Button_click true g in
  num 680 ≤ bestScore (saveData g1)
  ∧ walletCoins (saveData g1) = walletCoins (saveData g) + num 12
  ∧ rewardX2Button_click true g1 = g1.
Proof.
  intros g g1.
  destruct (rewardX2_idempotent g) as (_ & _ & _ & _ & _ & _ & _ & Hagain & Hsample).
  - reflexivity.
  - intros Heq. apply (f_equal this) in Heq. vm_compute in Heq. discriminate Heq.
  - qc_compute.
  - destruct Hsample as [Hbest Hwallet]; [reflexivity | reflexivity |].
    split; [exact Hbest|]. split; [exact Hwallet|]. apply Hagain.
Defined.

(** ** Bribe shots *)

Lemma fireBribe_keeps_idle_timer config u g :
  freeBribeReady g = false →
  freeBribeReady (fireBribe config u g) = false
  ∧ freeBribeTimerSec (fireBribe config u g) = freeBribeTimerSec g.
Proof.
  intros Hidle. unfold fireBribe. rewrite Hidle.
  repeat (case_match; try (split; [exact Hidle | reflexivity])).
Qed.

(** C7.  A bribe shot that goes off for free.  When it is free by the
    random roll while the periodic timer has not elapsed, the timer state
    (ready flag, remaining seconds) is left as it was; when the periodic
    timer has elapsed, the shot clears the ready flag and restarts the
    timer at its period.  Either way the shot costs nothing and a
    projectile is fired.  No call of [fireBribe] touches the timer state
    unless the timer had elapsed. *)
Theorem fireBribe_free_shot (config : GameConfig) (u : Qc) (g : Game)
    (Hrunning : paused g = false ∧ gameOver g = false ∧ runActive g = true)
    (Hcooled : bribeCooldownLeftSec g ≤ 0)
    (Hfree : u < freeBribeChance (economy config) ∨ freeBribeReady g = true) :
  let g' := fireBribe config u g in
  (freeBribeReady g = false →
     freeBribeReady g' = freeBribeReady g ∧ freeBribeTimerSec g' = freeBribeTimerSec g)
  ∧ (freeBribeReady g = true →
     freeBribeReady g' = false ∧ freeBribeTimerSec g' = freeBribeEverySec g)
  ∧ coinsBalance g' = coinsBalance g
  ∧ length (projectiles g') = S (length (projectiles g))
  ∧ toast g' = Some ToastFreeBribe
  ∧ (∀ u0 g0, freeBribeReady g0 = false →
       freeBribeReady (fireBribe config u0 g0) = false
       ∧ freeBribeTimerSec (fireBribe config u0 g0) = freeBribeTimerSec g0).
Proof.
  intros g'. destruct Hrunning as (Hp & Ho & Ha).
  assert (HfreeShot : bool_decide (u < freeBribeChance (economy config)) || freeBribeReady g = true).
  { destruct Hfree as [Hroll|Hready].
    - by rewrite (bool_decide_eq_true_2 _ Hroll).
    - rewrite Hready. apply orb_true_r. }
  assert (Hg' : g' =
    let g1 := if freeBribeReady g
              then g <| freeBribeReady := false |>
                     <| freeBribeTimerSec := freeBribeEverySec g |>
              else g in
    let g2 := showToast ToastFreeBribe g1 in
    let g3 := g2 <| bribeCooldownLeftSec := BASE_BRIBE_COOLDOWN_SEC * bribeCooldownMult g2 |> in
    g3 <| projectiles ::= λ ps, ps ++
            [ {| p_x := player_x (player g3); p_y := player_y (player g3) - num 20;
                 p_r := num 8; p_speed := num 450 |} ] |>).
  { subst g'. unfold fireBribe. rewrite Hp, Ho, Ha. cbn [orb negb].
    rewrite decide_False by (by apply Qcle_not_lt).
    cbn zeta. rewrite HfreeShot. reflexivity. }
  rewrite Hg'. clear Hg'.
  split; [|split; [|split; [|split; [|split]]]].
  - intros Hidle. rewrite Hidle. split; [exact Hidle | reflexivity].
  - intros Hready. rewrite Hready. split; reflexivity.
  - by destruct (freeBribeReady g).
  - destruct (freeBribeReady g); cbn; rewrite length_app; cbn; lia.
  - by destruct (freeBribeReady g).
  - intros u0 g0. apply fireBribe_keeps_idle_timer.
Qed.

Lemma fireBribe_free_shot_witness :
  let g := sample_running in
  let g' := fireBribe sample_config 0 g in
  freeBribeReady g' = freeBribeReady g ∧ freeBribeTimerSec g' = freeBribeTimerSec g.
Proof.
  intros g g'.
  destruct (fireBribe_free_shot sample_config 0 g) as (Hrandom & _).
  - repeat split; reflexivity.
  - qc_compute.
  - left. qc_compute.
  - apply Hrandom. reflexivity.
Defined.

(** ** Loading the save *)

Lemma foldl_insert_lookup {V} (entries : list (string * V)) (m : gmap string V) k :
  foldl (λ m kv, <[kv.1 := kv.2]> m) m entries !! k
  = match obj_get k entries with
    | Some v => Some v
    | None => m !! k
    end.
Proof.
  revert m. induction entries as [|[k' v] entries IH]; intros m; [reflexivity|].
  cbn [foldl obj_get fst snd]. rewrite IH.
  destruct (obj_get k entries); [reflexivity|].
  rewrite lookup_insert. by destruct (decide (k' = k)).
Qed.

Lemma default_entries_get upgrades0 k :
  obj_get k ((λ upgrade, (branch_id upgrade, 0)) <$> upgrades0)
  = if decide (k ∈ branch_id <$> upgrades0) then Some 0 else None.
Proof.
  induction upgrades0 as [|b bs IH]; [reflexivity|].
  cbn [fmap list_fmap obj_get]. rewrite IH. clear IH.
  destruct (decide (k ∈ branch_id <$> bs)) as [Hin|Hout].
  - rewrite decide_True; [reflexivity|]. by apply list_elem_of_further.
  - destruct (decide (branch_id b = k)) as [<-|Hne].
    + rewrite decide_True; [reflexivity|]. apply list_elem_of_here.
    + rewrite decide_False; [reflexivity|].
      intros Hin. apply elem_of_cons in Hin as [Heq|Hin]; [by subst|done].
Qed.

Lemma defaults_lookup upgrades0 k :
  upgrades (SaveService.defaults upgrades0) !! k
  = if decide (k ∈ branch_id <$> upgrades0) then Some 0 else None.
Proof.
  unfold SaveService.defaults, SaveService.fromEntries. cbn [upgrades].
  rewrite foldl_insert_lookup, lookup_empty, default_entries_get.
  by case_decide.
Qed.

Lemma default_save_upgrades upgrades0 branch :
  upgrades (SaveData_map JNum (SaveService.defaults upgrades0)) !! branch
  = if decide (branch ∈ branch_id <$> upgrades0) then Some (JNum 0) else None.
Proof.
  cbn [upgrades SaveData_map]. rewrite lookup_fmap, defaults_lookup. by case_decide.
Qed.

Lemma loaded_from_defaults upgrades0 :
  loaded_from upgrades0 [] (SaveData_map JNum (SaveService.defaults upgrades0)).
Proof.
  split; [reflexivity|]. split; [reflexivity|].
  intros branch. apply default_save_upgrades.
Qed.

Lemma loaded_from_object upgrades0 fields :
  loaded_from upgrades0 fields
    {| bestScore := SaveService.nullish (obj_get "bestScore" fields) (JNum 0);
       walletCoins := SaveService.nullish (obj_get "walletCoins" fields) (JNum 0);
       upgrades :=
         SaveService.spread
           (upgrades (SaveData_map JNum (SaveService.defaults upgrades0)))
           (SaveService.nullish (obj_get "upgrades" fields) (JObj [])) |}.
Proof.
  unfold loaded_from. cbn [bestScore walletCoins upgrades].
  split; [|split].
  - unfold SaveService.nullish. by destruct (obj_get "bestScore" fields) as [[]|].
  - unfold SaveService.nullish. by destruct (obj_get "walletCoins" fields) as [[]|].
  - intros branch. unfold SaveService.spread.
    rewrite foldl_insert_lookup, default_save_upgrades.
    by destruct (obj_get branch _).
Qed.

(** C8, as the code has it.  [load] never throws: whatever the storage
    and the parser do, it returns a save.  In that save, [bestScore] and
    [walletCoins] are 0 when the payload lacks them or holds [null], and
    are otherwise exactly what the payload holds, whatever its type; the
    level of a branch is the entry of the payload's [upgrades] when there
    is one, whatever it is, and else 0 for a configured branch; each field
    is decided by its own entry alone. *)
Theorem load_field_by_field (parse : string → completion json)
    (upgrades0 : list UpgradeBranchConfig) (read : SaveService.StorageRead) :
  let fields := payload_fields parse read in
  ∃ s, SaveService.load parse upgrades0 read = Normal s
       ∧ bestScore s = match obj_get "bestScore" fields with
                       | None | Some JNull => JNum 0
                       | Some stored => stored
                       end
       ∧ walletCoins s = match obj_get "walletCoins" fields with
                         | None | Some JNull => JNum 0
                         | Some stored => stored
                         end
       ∧ ∀ branch,
           upgrades s !! branch
           = match obj_get branch
                     (SaveService.own_entries
                        (SaveService.nullish (obj_get "upgrades" fields) (JObj []))) with
             | Some level => Some level
             | None => if decide (branch ∈ branch_id <$> upgrades0)
                       then Some (JNum 0) else None
             end.
Proof.
  intros fields. subst fields. change (∃ s, SaveService.load parse upgrades0 read = Normal s
    ∧ loaded_from upgrades0 (payload_fields parse read) s).
  unfold SaveService.load, SaveService.load_body, payload_fields.
  destruct read as [| |raw]; cbn [try_catch].
  - eexists. split; [reflexivity | apply loaded_from_defaults].
  - eexists. split; [reflexivity | apply loaded_from_defaults].
  - case_decide.
    { eexists. split; [reflexivity | apply loaded_from_defaults]. }
    destruct (parse raw) as [parsed|]; cbn [mbind completion_bind try_catch];
      [|eexists; split; [reflexivity | apply loaded_from_defaults]].
    destruct parsed; cbn [SaveService.get_prop mbind completion_bind try_catch];
      eexists; (split; [reflexivity|]);
      first [ apply loaded_from_object | apply (loaded_from_object upgrades0 [])
            | apply loaded_from_defaults ].
Qed.

Example load_sample :
  ∃ s, SaveService.load (λ _, Normal sample_payload)
         [sample_branch "defense"; sample_branch "farm"] (SaveService.Item "{}")
       = Normal s
     ∧ bestScore s = JStr "oops"
     ∧ walletCoins s = JNum 0
     ∧ upgrades s !! "defense" = Some (JNum 0)
     ∧ upgrades s !! "farm" = Some (JNum (num 2)).
Proof. eexists. split; [reflexivity|]. repeat split; vm_compute; reflexivity. Qed.

(** C8, as stated, fails: a [bestScore] that is present but not a number
    does not fall back to its default, it is returned as stored. *)
Lemma load_keeps_invalid_field :
  ¬ (∀ (parse : string → completion json) (upgrades0 : list UpgradeBranchConfig)
       (read : SaveService.StorageRead) (stored : json),
       obj_get "bestScore" (payload_fields parse read) = Some stored →
       (∀ q, stored ≠ JNum q) →
       ∃ s, SaveService.load parse upgrades0 read = Normal s
            ∧ bestScore s = JNum 0).
Proof.
  intros Hclaim.
  destruct (Hclaim (λ _, Normal sample_payload) [] (SaveService.Item "{}")
              (JStr "oops"))
    as (s & Hload & Hbest).
  - reflexivity.
  - discriminate.
  - injection Hload as <-. discriminate Hbest.
Qed.

(** ** What each method leaves alone

    Most methods never write the pause flags nor the shield fields. *)

Lemma shield_inv_core g g' : core g' = core g → shield_inv g → shield_inv g'.
Proof.
  unfold core, shield_inv. intros [= _ _ Hmax Hcount]. by rewrite Hmax, Hcount.
Qed.

Lemma pause_inv_core g g' : core g' = core g → pause_inv g → pause_inv g'.
Proof.
  unfold core, pause_inv. intros [= Hp Hm _ _]. by rewrite Hp, Hm.
Qed.

Lemma filter_with_invariant {A} (I : Game → Prop) (callback : nat → A → Game → Game * bool) :
  (∀ index item g, I g → I (callback index item g).1) →
  ∀ items index g, I g → I (filter_with callback index items g).1.
Proof.
  intros Hstep items. induction items as [|item items IH]; intros index g Hg; [exact Hg|].
  cbn [filter_with]. specialize (Hstep index item g Hg).
  destruct (callback index item g) as [g1 keep]. cbn [fst] in Hstep.
  specialize (IH (S index) g1 Hstep).
  by destruct (filter_with callback (S index) items g1).
Qed.

Lemma filter_with_core {A} (callback : nat → A → Game → Game * bool) :
  (∀ index item g, core (callback index item g).1 = core g) →
  ∀ items index g, core (filter_with callback index items g).1 = core g.
Proof.
  intros Hstep items index g.
  apply (filter_with_invariant (λ g', core g' = core g)); [|reflexivity].
  intros i item g' Hg'. by rewrite Hstep.
Qed.

Lemma showToast_core message g : core (showToast message g) = core g.
Proof. reflexivity. Qed.

Lemma applyGate_core config gate g : core (applyGate config gate g) = core g.
Proof. unfold applyGate. frame. Qed.

Lemma updateEffects_core dt g : core (updateEffects dt g) = core g.
Proof. reflexivity. Qed.

Lemma fireBribe_core config u g : core (fireBribe config u g) = core g.
Proof. unfold fireBribe. frame. Qed.

Lemma spawnObstacle_core config dt rnd g :
  core (spawnObstacle config dt rnd g).1 = core g.
Proof. unfold spawnObstacle. frame. Qed.

Lemma spawnCoin_core config dt rnd g : core (spawnCoin config dt rnd g) = core g.
Proof. unfold spawnCoin. frame. Qed.

Lemma spawnGate_core config dt rnd g : core (spawnGate config dt rnd g) = core g.
Proof. unfold spawnGate. frame. Qed.

Lemma moveAndCull_core scrollSpeed dt g : core (moveAndCull scrollSpeed dt g) = core g.
Proof. reflexivity. Qed.

Lemma spawnAndMove_core config dt rnd g :
  core (spawnAndMove config dt rnd g).1 = core g.
Proof.
  unfold spawnAndMove.
  pose proof (spawnObstacle_core config dt rnd g) as Hspawn.
  destruct (spawnObstacle config dt rnd g) as [g1 [[]|]]; cbn [fst] in *;
    [|exact Hspawn].
  by rewrite moveAndCull_core, spawnGate_core, spawnCoin_core.
Qed.

Lemma collectCoin_core boat magnetRadiusSq rolls index coin g :
  core (collectCoin boat magnetRadiusSq rolls index coin g).1 = core g.
Proof. unfold collectCoin. frame. Qed.

Lemma resolveGate_core config gate g : core (resolveGate config gate g).1 = core g.
Proof. unfold resolveGate. frame; cbn [fst]; apply applyGate_core. Qed.

Lemma resolveGates_core config gs g : core (resolveGates config gs g).1 = core g.
Proof.
  revert g. induction gs as [|gate gs IH]; intros g; [reflexivity|].
  cbn [resolveGates].
  pose proof (resolveGate_core config gate g) as H1.
  destruct (resolveGate config gate g) as [g1 gate1]. cbn [fst] in H1.
  specialize (IH g1). destruct (resolveGates config gs g1) as [g2 rest].
  cbn [fst] in *. congruence.
Qed.

Lemma hitProjectile_core index projectile g :
  core (hitProjectile index projectile g).1 = core g.
Proof. unfold hitProjectile. frame. Qed.

Lemma triggerGameOver_shield g :
  shieldMax (triggerGameOver g) = shieldMax g
  ∧ shieldCount (triggerGameOver g) = shieldCount g.
Proof. unfold triggerGameOver. frame; split; reflexivity. Qed.

Lemma triggerGameOver_paused g : paused (triggerGameOver g) = true.
Proof. unfold triggerGameOver. frame. Qed.

Lemma core_views g g' :
  core g' = core g ↔ pauseView g' = pauseView g ∧ shieldView g' = shieldView g.
Proof.
  unfold core, pauseView, shieldView. split.
  - intros [= -> -> -> ->]. by split.
  - intros [[= -> ->] [= -> ->]]. reflexivity.
Qed.

Lemma shield_inv_view g g' : shieldView g' = shieldView g → shield_inv g → shield_inv g'.
Proof.
  unfold shieldView, shield_inv. intros [= Hmax Hcount]. by rewrite Hmax, Hcount.
Qed.

Lemma pause_inv_view g g' : pauseView g' = pauseView g → pause_inv g → pause_inv g'.
Proof.
  unfold pauseView, pause_inv. intros [= Hp Hm]. by rewrite Hp, Hm.
Qed.

(** ** The shield stays within its capacity *)

Lemma regenShield_cases dt g :
  shieldCount (regenShield dt g) = shieldCount g
  ∨ (shieldCount g < shieldMax g ∧ shieldCount (regenShield dt g) = shieldCount g + 1).
Proof.
  unfold regenShield.
  destruct (bool_decide (0 < shieldRegenSec g)); cbn [andb]; [|by left].
  destruct (bool_decide (shieldCount g < shieldMax g)) eqn:Hbelow; [|by left].
  apply bool_decide_eq_true in Hbelow. case_decide; [|by left].
  right. by split.
Qed.

Lemma regenShield_capacity dt g : shieldMax (regenShield dt g) = shieldMax g.
Proof. unfold regenShield. frame. Qed.

Lemma regenShield_pauseView dt g : pauseView (regenShield dt g) = pauseView g.
Proof. unfold regenShield. frame. Qed.

Lemma regenShield_shield_inv dt g : shield_inv g → shield_inv (regenShield dt g).
Proof.
  intros (count & capacity & Hcount & Hmax & Hrange). unfold shield_inv.
  rewrite regenShield_capacity.
  destruct (regenShield_cases dt g) as [Hsame|[Hbelow Hmore]].
  - exists count, capacity. by rewrite Hsame.
  - exists (count + 1)%Z, capacity.
    rewrite Hmore, Hcount, Qc_of_Z_plus, Qc_of_Z_1. split; [reflexivity|].
    split; [exact Hmax|].
    rewrite Hcount, Hmax in Hbelow. apply Qc_of_Z_lt in Hbelow. lia.
Qed.

Lemma hitObstacle_cases config boat index obstacle g :
  shieldCount (hitObstacle config boat index obstacle g).1 = shieldCount g
  ∨ (0 < shieldCount g
     ∧ shieldCount (hitObstacle config boat index obstacle g).1 = shieldCount g - 1).
Proof.
  unfold hitObstacle. destruct (negb _); cbn [fst]; [by left|].
  case_decide; [|by left]. case_decide; [|by left]. right. by split.
Qed.

Lemma hitObstacle_capacity config boat index obstacle g :
  shieldMax (hitObstacle config boat index obstacle g).1 = shieldMax g.
Proof. unfold hitObstacle. frame. Qed.

Lemma hitObstacle_pauseView config boat index obstacle g :
  pauseView (hitObstacle config boat index obstacle g).1 = pauseView g.
Proof. unfold hitObstacle. frame. Qed.

Lemma hitObstacle_shield_inv config boat index obstacle g :
  shield_inv g → shield_inv (hitObstacle config boat index obstacle g).1.
Proof.
  intros (count & capacity & Hcount & Hmax & Hrange). unfold shield_inv.
  rewrite hitObstacle_capacity.
  destruct (hitObstacle_cases config boat index obstacle g) as [Hsame|[Hcharged Hless]].
  - exists count, capacity. by rewrite Hsame.
  - exists (count - 1)%Z, capacity.
    rewrite Hless, Hcount, Qc_of_Z_minus, Qc_of_Z_1. split; [reflexivity|].
    split; [exact Hmax|].
    rewrite Hcount, <- Qc_of_Z_0 in Hcharged. apply Qc_of_Z_lt in Hcharged. lia.
Qed.

(** [handleCollisions], one filter at a time. *)
Lemma handleCollisions_invariant (I : Game → Prop) config rnd g :
  (∀ g g', core g' = core g → I g → I g') →
  (∀ boat index obstacle g, I g → I (hitObstacle config boat index obstacle g).1) →
  I g → I (handleCollisions config rnd g).
Proof.
  intros Hcore Hhit Hg. unfold handleCollisions.
  set (boat := boatBody g).
  pose proof (filter_with_core _
    (collectCoin_core boat (BASE_MAGNET_RADIUS * magnetMult g * (BASE_MAGNET_RADIUS * magnetMult g))
       (u_doubleSoul rnd)) (coins g) 0 g) as H1.
  destruct (filter_with _ 0 (coins g) g) as [g1 kept1]. cbn [fst] in H1.
  assert (I1 : I (g1 <| coins := kept1 |>)) by (apply (Hcore g); [exact H1 | exact Hg]).
  pose proof (filter_with_invariant I _ (Hhit boat)
                (obstacles (g1 <| coins := kept1 |>)) 0 _ I1) as I2.
  destruct (filter_with _ 0 (obstacles _) _) as [g2 kept2]. cbn [fst] in I2.
  assert (I2' : I (g2 <| obstacles := kept2 |>)) by (by apply (Hcore g2)).
  pose proof (resolveGates_core config (gates (g2 <| obstacles := kept2 |>))
                (g2 <| obstacles := kept2 |>)) as H3.
  destruct (resolveGates config _ _) as [g3 resolved]. cbn [fst] in H3.
  assert (I3 : I (g3 <| gates := resolved |>)) by (apply (Hcore (g2 <| obstacles := kept2 |>)); done).
  pose proof (filter_with_core _ hitProjectile_core
                (projectiles (g3 <| gates := resolved |>)) 0 (g3 <| gates := resolved |>)) as H4.
  destruct (filter_with hitProjectile 0 _ _) as [g4 kept4]. cbn [fst] in H4.
  apply (Hcore (g3 <| gates := resolved |>)); done.
Qed.

Lemma handleCollisions_shield_inv config rnd g :
  shield_inv g → shield_inv (handleCollisions config rnd g).
Proof.
  apply handleCollisions_invariant.
  - apply shield_inv_core.
  - intros. by apply hitObstacle_shield_inv.
Qed.

Lemma handleCollisions_pauseView config rnd g :
  pauseView (handleCollisions config rnd g) = pauseView g.
Proof.
  apply (handleCollisions_invariant (λ g', pauseView g' = pauseView g)); [| |done].
  - intros g1 g2 Hcore Hg1. apply core_views in Hcore as [Hp _]. congruence.
  - intros boat index obstacle g1 Hg1. by rewrite hitObstacle_pauseView.
Qed.

Lemma tickTimers_core dt g : core (tickTimers dt g) = core g.
Proof. unfold tickTimers. frame. Qed.

Lemma steerAndDrain_core config dt g : core (steerAndDrain config dt g) = core g.
Proof. reflexivity. Qed.

(** [settle] up to the game-over test. *)
Lemma settle_cases dt g :
  ∃ g2, core g2 = core g
        ∧ settle dt g = if decide (coinsBalance g2 ≤ 0) then triggerGameOver g2 else g2.
Proof.
  unfold settle. cbn zeta.
  match goal with
  | |- context [decide (coinsBalance ?g2 ≤ 0)] => exists g2
  end.
  split; [|reflexivity]. frame.
Qed.

Lemma settle_shieldView dt g : shieldView (settle dt g) = shieldView g.
Proof.
  destruct (settle_cases dt g) as (g2 & Hcore & ->).
  apply core_views in Hcore as [_ Hshield]. rewrite <- Hshield.
  case_decide; [|reflexivity].
  unfold shieldView. by destruct (triggerGameOver_shield g2) as [-> ->].
Qed.

Lemma settle_pause_inv dt g : pause_inv g → pause_inv (settle dt g).
Proof.
  intros Hg. destruct (settle_cases dt g) as (g2 & Hcore & ->).
  case_decide.
  - intros _. apply triggerGameOver_paused.
  - by apply (pause_inv_core g).
Qed.

Lemma update_shield_inv config dt rnd g :
  shield_inv g → shield_inv (update config dt rnd g).1.
Proof.
  intros Hg. unfold update. cbn zeta.
  set (g3 := steerAndDrain config dt (regenShield dt (tickTimers dt g))).
  assert (H3 : shield_inv g3).
  { apply (shield_inv_core (regenShield dt (tickTimers dt g)));
      [apply steerAndDrain_core|].
    apply regenShield_shield_inv.
    apply (shield_inv_core g); [apply tickTimers_core | exact Hg]. }
  pose proof (spawnAndMove_core config dt rnd g3) as H4.
  destruct (spawnAndMove config dt rnd g3) as [g4 [[]|]]; cbn [fst] in *.
  - apply (shield_inv_view (handleCollisions config rnd g4)); [apply settle_shieldView|].
    apply handleCollisions_shield_inv. by apply (shield_inv_core g3).
  - by apply (shield_inv_core g3).
Qed.

Lemma update_pause_inv config dt rnd g :
  pause_inv g → pause_inv (update config dt rnd g).1.
Proof.
  intros Hg. unfold update. cbn zeta.
  set (g3 := steerAndDrain config dt (regenShield dt (tickTimers dt g))).
  assert (H3 : pause_inv g3).
  { apply (pause_inv_core (regenShield dt (tickTimers dt g)));
      [apply steerAndDrain_core|].
    apply (pause_inv_view (tickTimers dt g)); [apply regenShield_pauseView|].
    apply (pause_inv_core g); [apply tickTimers_core | exact Hg]. }
  pose proof (spawnAndMove_core config dt rnd g3) as H4.
  destruct (spawnAndMove config dt rnd g3) as [g4 [[]|]]; cbn [fst] in *.
  - apply settle_pause_inv.
    apply (pause_inv_view g4); [apply handleCollisions_pauseView|].
    by apply (pause_inv_core g3).
  - by apply (pause_inv_core g3).
Qed.

Lemma loop_shield_inv config elapsedMs rnd g :
  shield_inv g → shield_inv (loop config elapsedMs rnd g).
Proof.
  intros Hg. unfold loop. destruct (negb (loopRunning g)); [exact Hg|].
  destruct (_ && _); [|exact Hg].
  pose proof (update_shield_inv config (Math_min (elapsedMs / num 1000) (num 0.05)) rnd g Hg) as H.
  destruct (update _ _ _ g) as [g1 [[]|]]; cbn [fst] in H; [exact H|].
  by apply (shield_inv_core g1).
Qed.

Lemma loop_pause_inv config elapsedMs rnd g :
  pause_inv g → pause_inv (loop config elapsedMs rnd g).
Proof.
  intros Hg. unfold loop. destruct (negb (loopRunning g)); [exact Hg|].
  destruct (_ && _); [|exact Hg].
  pose proof (update_pause_inv config (Math_min (elapsedMs / num 1000) (num 0.05)) rnd g Hg) as H.
  destruct (update _ _ _ g) as [g1 [[]|]]; cbn [fst] in H; [exact H|].
  by apply (pause_inv_core g1).
Qed.

(** *** Run start and reset *)

Lemma reset_shield config g :
  shieldCount (reset config g) = 0 ∧ shieldMax (reset config g) = 0.
Proof. by split. Qed.

Lemma reset_flags config g :
  paused (reset config g) = true ∧ manualPaused (reset config g) = false.
Proof. by split. Qed.

Lemma shield_inv_zero g : shieldCount g = 0 → shieldMax g = 0 → shield_inv g.
Proof.
  intros Hcount Hmax. exists 0%Z, 0%Z. rewrite Hcount, Hmax, Qc_of_Z_0.
  repeat split; lia.
Qed.

Lemma applyDefense_shield_inv defense g : shield_inv (applyDefense defense g).
Proof.
  destruct (Math_max_0_floor (default 0 (shieldStart defense))) as (capacity & Hcap & Hpos).
  exists capacity, capacity. unfold applyDefense. fields.
  repeat split; [exact Hcap | exact Hcap | exact Hpos | lia].
Qed.

Lemma applyDefense_pauseView defense g : pauseView (applyDefense defense g) = pauseView g.
Proof. reflexivity. Qed.

Lemma applyFarm_core farm g : core (applyFarm farm g) = core g.
Proof. reflexivity. Qed.

Lemma applySkills_core skills g : core (applySkills skills g) = core g.
Proof. reflexivity. Qed.

Lemma applyMetaUpgradesForRun_shield_inv config g :
  shield_inv g → shield_inv (applyMetaUpgradesForRun config g).1.
Proof.
  intros Hg. unfold applyMetaUpgradesForRun.
  destruct (currentLevelEffect config "defense" g) as [defense|]; [|exact Hg].
  pose proof (applyDefense_shield_inv defense g) as H1.
  destruct (currentLevelEffect config "farm" _) as [farm|]; [|exact H1].
  destruct (currentLevelEffect config "skills" _) as [skills|]; cbn [fst].
  - apply (shield_inv_core (applyDefense defense g)); [|exact H1].
    by rewrite applySkills_core, applyFarm_core.
  - apply (shield_inv_core (applyDefense defense g)); [|exact H1].
    apply applyFarm_core.
Qed.

Lemma applyMetaUpgradesForRun_pauseView config g :
  pauseView (applyMetaUpgradesForRun config g).1 = pauseView g.
Proof.
  unfold applyMetaUpgradesForRun.
  destruct (currentLevelEffect config "defense" g) as [defense|]; [|reflexivity].
  destruct (currentLevelEffect config "farm" _) as [farm|];
    [|apply applyDefense_pauseView].
  assert (Hfarm : pauseView (applyFarm farm (applyDefense defense g)) = pauseView g).
  { pose proof (applyFarm_core farm (applyDefense defense g)) as Hc.
    apply core_views in Hc as [-> _]. apply applyDefense_pauseView. }
  destruct (currentLevelEffect config "skills" _) as [skills|]; cbn [fst];
    [|exact Hfarm].
  pose proof (applySkills_core skills (applyFarm farm (applyDefense defense g))) as Hc.
  apply core_views in Hc as [-> _]. exact Hfarm.
Qed.

Lemma startNewRun_shield_inv config g : shield_inv (startNewRun config g).
Proof.
  unfold startNewRun. cbn zeta.
  match goal with
  | |- context [applyMetaUpgradesForRun config ?g1] =>
      pose proof (applyMetaUpgradesForRun_shield_inv config g1
                    (shield_inv_zero g1 eq_refl eq_refl)) as H
  end.
  destruct (applyMetaUpgradesForRun config _) as [g2 [[]|]]; cbn [fst] in H.
  - by apply (shield_inv_core g2).
  - exact H.
Qed.

Lemma startNewRun_pause_inv config g : pause_inv (startNewRun config g).
Proof.
  unfold startNewRun. cbn zeta.
  match goal with
  | |- context [applyMetaUpgradesForRun config ?g1] =>
      pose proof (applyMetaUpgradesForRun_pauseView config g1) as H
  end.
  destruct (applyMetaUpgradesForRun config _) as [g2 [[]|]]; cbn [fst] in H.
  - apply (pause_inv_view g2); [reflexivity|].
    unfold pause_inv. injection H as _ ->. discriminate.
  - unfold pause_inv. injection H as _ ->. discriminate.
Qed.

(** *** Every handler *)

Lemma handle_shield_inv config ev g : shield_inv g → shield_inv (handle config ev g).
Proof.
  intros Hg. destruct ev; cbn [handle].
  - apply (shield_inv_view g); [|exact Hg]. unfold pauseButton_click. frame.
  - apply (shield_inv_view g); [|exact Hg]. unfold visibilitychange. frame.
  - apply (shield_inv_view g); [|exact Hg]. unfold platform_onPause. frame.
  - apply (shield_inv_view g); [|exact Hg]. unfold platform_onResume. frame.
  - apply (shield_inv_view g); [|exact Hg]. unfold reviveButton_click. frame.
  - apply (shield_inv_view g); [|exact Hg]. reflexivity.
  - apply (shield_inv_view g); [|exact Hg].
    unfold rewardX2Button_click, rewardX2_granted. frame.
  - apply (shield_inv_view g); [|exact Hg]. unfold rewardX2_granted. frame.
  - apply (shield_inv_view g); [|exact Hg]. reflexivity.
  - apply startNewRun_shield_inv.
  - apply (shield_inv_view g); [|exact Hg]. unfold handleProgressReset. frame.
  - apply (shield_inv_view g); [|exact Hg]. unfold buyUpgrade. frame.
  - apply (shield_inv_core g); [apply fireBribe_core | exact Hg].
  - apply (shield_inv_core g); [|exact Hg]. unfold keydown.
    destruct (_ && _); [|reflexivity]. by rewrite fireBribe_core.
  - apply (shield_inv_view g); [|exact Hg]. reflexivity.
  - apply (shield_inv_view g); [|exact Hg]. reflexivity.
  - apply (shield_inv_view g); [|exact Hg]. reflexivity.
  - by apply loop_shield_inv.
Qed.

Lemma handle_pause_inv config ev g : pause_inv g → pause_inv (handle config ev g).
Proof.
  intros Hg. destruct ev; cbn [handle].
  - unfold pauseButton_click, pause_inv in *. frame; fields; auto; discriminate.
  - unfold visibilitychange, pause_inv in *. frame; fields; auto.
  - unfold platform_onPause, pause_inv in *. frame; fields; auto.
  - unfold platform_onResume, pause_inv in *. frame; fields; auto.
    match goal with H : manualPaused g = true |- _ => rewrite H end.
    by rewrite orb_true_r.
  - unfold reviveButton_click, revive_granted, pause_inv in *. frame; fields; auto.
  - unfold revive_granted, pause_inv. fields. discriminate.
  - apply (pause_inv_view g); [|exact Hg].
    unfold rewardX2Button_click, rewardX2_granted. frame.
  - apply (pause_inv_view g); [|exact Hg]. unfold rewardX2_granted. frame.
  - unfold restartButton_click, pause_inv. fields. discriminate.
  - apply startNewRun_pause_inv.
  - apply (pause_inv_view g); [|exact Hg]. unfold handleProgressReset. frame.
  - apply (pause_inv_view g); [|exact Hg]. unfold buyUpgrade. frame.
  - apply (pause_inv_core g); [apply fireBribe_core | exact Hg].
  - apply (pause_inv_core g); [|exact Hg]. unfold keydown.
    destruct (_ && _); [|reflexivity]. by rewrite fireBribe_core.
  - apply (pause_inv_view g); [|exact Hg]. reflexivity.
  - apply (pause_inv_view g); [|exact Hg]. reflexivity.
  - apply (pause_inv_view g); [|exact Hg]. reflexivity.
  - by apply loop_pause_inv.
Qed.

Lemma run_invariant (I : Game → Prop) config :
  (∀ ev g, I g → I (handle config ev g)) →
  ∀ evs g, I g → I (run config evs g).
Proof.
  intros Hstep evs. unfold run.
  induction evs as [|ev evs IH]; intros g Hg; [exact Hg|].
  cbn [foldl]. apply IH, Hstep, Hg.
Qed.

Lemma newGame_shield_inv save : shield_inv (newGame save).
Proof. by apply shield_inv_zero. Qed.

Lemma newGame_pause_inv save : pause_inv (newGame save).
Proof. unfold pause_inv. discriminate. Qed.

Lemma shield_inv_bounds g :
  shield_inv g → 0 ≤ shieldCount g ∧ shieldCount g ≤ shieldMax g.
Proof.
  intros (count & capacity & -> & -> & Hlow & Hhigh). split.
  - rewrite <- Qc_of_Z_0. exact (proj1 (Qc_of_Z_le 0 count) Hlow).
  - exact (proj1 (Qc_of_Z_le count capacity) Hhigh).
Qed.

(** C10.  In every state reached from a fresh game by any sequence of
    events (run start, frames with their shield regeneration and obstacle
    collisions, reset inside run start, and every other handler),
    [0 <= shieldCount <= shieldMax].  Regeneration leaves the count alone
    or, only when it is strictly below the capacity, adds one, and never
    ends above the capacity; a collision leaves the count alone or, only
    when it is strictly positive, takes one off, and never ends below 0;
    [reset] puts both at 0. *)
Theorem shield_within_capacity (config : GameConfig) (save : SaveData Qc)
    (evs : list Event) :
  let g := run config evs (newGame save) in
  (0 ≤ shieldCount g ∧ shieldCount g ≤ shieldMax g)
  ∧ (∀ dt,
       let g' := regenShield dt g in
       shieldMax g' = shieldMax g
       ∧ (shieldCount g' = shieldCount g
          ∨ (shieldCount g < shieldMax g ∧ shieldCount g' = shieldCount g + 1))
       ∧ shieldCount g' ≤ shieldMax g')
  ∧ (∀ boat index obstacle,
       let g' := (hitObstacle config boat index obstacle g).1 in
       shieldMax g' = shieldMax g
       ∧ (shieldCount g' = shieldCount g
          ∨ (0 < shieldCount g ∧ shieldCount g' = shieldCount g - 1))
       ∧ 0 ≤ shieldCount g')
  ∧ (shieldCount (reset config g) = 0 ∧ shieldMax (reset config g) = 0).
Proof.
  intros g.
  assert (Hg : shield_inv g).
  { apply run_invariant; [apply handle_shield_inv | apply newGame_shield_inv]. }
  split; [exact (shield_inv_bounds g Hg)|]. split; [|split].
  - intros dt g'. split; [apply regenShield_capacity|].
    split; [apply regenShield_cases|].
    exact (proj2 (shield_inv_bounds _ (regenShield_shield_inv dt g Hg))).
  - intros boat index obstacle g'. split; [apply hitObstacle_capacity|].
    split; [apply hitObstacle_cases|].
    exact (proj1 (shield_inv_bounds _
                    (hitObstacle_shield_inv config boat index obstacle g Hg))).
  - apply reset_shield.
Qed.

(** ** Pause bookkeeping *)

Lemma platform_onResume_pending g :
  (0 < platformPauseDepth (platform_onResume g))%Z →
  paused (platform_onResume g) = paused g.
Proof.
  unfold platform_onResume. case_decide as Hnone; [reflexivity|].
  fields. case_decide as Hleft; [reflexivity|]. fields. intros Hpos. lia.
Qed.

Lemma platform_onResume_manual g :
  pause_inv g → manualPaused g = true → paused (platform_onResume g) = true.
Proof.
  intros Hinv Hmanual. unfold platform_onResume.
  case_decide; [by apply Hinv|]. fields. case_decide; fields; [by apply Hinv|].
  by rewrite Hmanual, orb_true_r.
Qed.

Lemma platform_onPause_nested g :
  (0 < platformPauseDepth g)%Z →
  pauseSnapshot (platform_onPause g) = pauseSnapshot g
  ∧ platformPauseDepth (platform_onPause g) = (platformPauseDepth g + 1)%Z
  ∧ paused (platform_onPause g) = true.
Proof.
  intros Hdeep. unfold platform_onPause.
  rewrite decide_False by lia. by repeat split.
Qed.

Lemma platform_onPause_twice g :
  (0 < platformPauseDepth (platform_onPause g))%Z →
  platform_onPause (platform_onPause g)
  = (platform_onPause g) <| platformPauseDepth ::= λ d, (d + 1)%Z |>.
Proof.
  destruct g. unfold platform_onPause. fields.
  repeat (case_decide; fields); intros Hdeep; first [ reflexivity | lia ].
Qed.

Lemma platform_onPause_first g :
  platformPauseDepth g = 0%Z →
  pauseSnapshot (platform_onPause g) = (paused g, audioMuted g).
Proof.
  intros Hnone. unfold platform_onPause. by rewrite decide_True.
Qed.

Lemma platform_signals_suspended signals g :
  (0 ≤ platformPauseDepth g)%Z ∧ ((0 < platformPauseDepth g)%Z → paused g = true) →
  (0 < platformPauseDepth (platform_signals signals g))%Z →
  paused (platform_signals signals g) = true.
Proof.
  unfold platform_signals. revert g.
  induction signals as [|suspend signals IH]; intros g [Hdepth Hpaused];
    [exact Hpaused|].
  cbn [foldl]. apply IH. clear IH. destruct suspend.
  - unfold platform_onPause. case_decide; fields; (split; [lia | reflexivity]).
  - unfold platform_onResume. case_decide as Hnone; [by split|].
    fields. case_decide as Hleft; fields.
    + split; [lia|]. intros _. apply Hpaused. lia.
    + split; lia.
Qed.

Lemma platform_signals_held signals g :
  held_paused g → held_paused (platform_signals signals g).
Proof.
  unfold platform_signals. revert g.
  induction signals as [|suspend signals IH]; intros g Hg; [exact Hg|].
  cbn [foldl]. apply IH. clear IH. destruct Hg as [Hpaused Hwas].
  destruct suspend.
  - unfold platform_onPause, held_paused. case_decide as Hdepth; fields.
    + by split.
    + split; [reflexivity|]. intros Hpos. apply Hwas. lia.
  - unfold platform_onResume, held_paused. case_decide as Hnone; [by split|].
    fields. case_decide as Hleft; fields.
    + split; [exact Hpaused|]. intros _. apply Hwas. lia.
    + rewrite Hwas by lia. rewrite orb_true_r. split; [reflexivity|]. lia.
Qed.

(** C9, as the code has it.  After any sequence of events: a platform
    resume leaves the game paused when the user's manual pause is active;
    a resume after which the suspend counter is still positive leaves the
    paused flag as it was, so a paused game stays paused; a suspend
    arriving while the counter is positive keeps the snapshot taken by the
    first one (which recorded the paused and muted flags at depth 0); a
    second suspend right after a first changes nothing but the counter.
    Through any burst of suspends and resumes that starts at depth 0, or
    in a paused game at a positive depth, the game is paused whenever the
    counter is positive, and a game that was paused before a burst from
    depth 0 is paused after it.  The pause button of a running game is not
    gated by the counter: it flips the paused flag and leaves the counter
    alone. *)
Theorem platform_resume_keeps_pauses (config : GameConfig) (save : SaveData Qc)
    (evs : list Event) :
  let g := run config evs (newGame save) in
  (manualPaused g = true → paused (platform_onResume g) = true)
  ∧ ((0 < platformPauseDepth (platform_onResume g))%Z →
       paused (platform_onResume g) = paused g
       ∧ (paused g = true → paused (platform_onResume g) = true))
  ∧ ((0 < platformPauseDepth g)%Z →
       pauseSnapshot (platform_onPause g) = pauseSnapshot g
       ∧ platformPauseDepth (platform_onPause g) = (platformPauseDepth g + 1)%Z
       ∧ paused (platform_onPause g) = true)
  ∧ (platformPauseDepth g = 0%Z →
       pauseSnapshot (platform_onPause g) = (paused g, audioMuted g)
       ∧ platform_onPause (platform_onPause g)
         = (platform_onPause g) <| platformPauseDepth ::= λ d, (d + 1)%Z |>)
  ∧ (∀ signals, platformPauseDepth g = 0%Z →
       (0 < platformPauseDepth (platform_signals signals g))%Z →
       paused (platform_signals signals g) = true)
  ∧ (∀ signals, platformPauseDepth g = 0%Z → paused g = true →
       paused (platform_signals signals g) = true)
  ∧ (∀ signals, (0 < platformPauseDepth g)%Z → paused g = true →
       (0 < platformPauseDepth (platform_signals signals g))%Z →
       paused (platform_signals signals g) = true)
  ∧ (gameOver g = false → runActive g = true →
       paused (pauseButton_click g) = negb (paused g)
       ∧ platformPauseDepth (pauseButton_click g) = platformPauseDepth g).
Proof.
  intros g.
  assert (Hg : pause_inv g).
  { apply run_invariant; [apply handle_pause_inv | apply newGame_pause_inv]. }
  split; [by apply platform_onResume_manual|].
  split.
  { intros Hpending. rewrite (platform_onResume_pending g Hpending). by split. }
  split; [apply platform_onPause_nested|].
  split.
  { intros Hnone. split; [by apply platform_onPause_first|].
    apply platform_onPause_twice. unfold platform_onPause.
    rewrite decide_True by exact Hnone. fields. lia. }
  split.
  { intros signals Hnone. apply platform_signals_suspended. split; lia. }
  split.
  { intros signals Hnone Hpaused.
    apply (platform_signals_held signals g). split; [exact Hpaused|]. lia. }
  split.
  { intros signals Hdeep Hpaused. apply platform_signals_suspended.
    split; [lia|]. intros _. exact Hpaused. }
  intros Hover Hactive. unfold pauseButton_click.
  rewrite Hover, Hactive. cbn [orb negb]. by destruct (paused g).
Qed.

Lemma platform_resume_keeps_pauses_witness :
  let g := run sample_config [StartRunClick; PauseClick; PlatformPause; PlatformPause]
             (newGame sample_save) in
  paused (platform_onResume g) = true
  ∧ paused (platform_onResume g) = paused g
  ∧ pauseSnapshot (platform_onPause g) = pauseSnapshot g.
Proof.
  intros g.
  destruct (platform_resume_keeps_pauses sample_config sample_save
              [StartRunClick; PauseClick; PlatformPause; PlatformPause])
    as (Hmanual & Hpending & Hnested & _).
  fold g in Hmanual, Hpending, Hnested.
  split; [apply Hmanual; vm_compute; reflexivity|].
  split; [apply Hpending; vm_compute; reflexivity|].
  apply Hnested. vm_compute. reflexivity.
Defined.

(** C9 as stated fails when the user's pause button is among the events:
    in a run suspended twice by the platform and resumed once, the counter
    is 1 and the game paused; the pause button then un-pauses it with the
    counter still at 1. *)
Lemma pauseButton_lifts_platform_pause :
  ¬ (∀ (config : GameConfig) (save : SaveData Qc) (history evs : list Event),
       Forall pauseSignal evs →
       spec_stays_suspended config (run config history (newGame save)) evs).
Proof.
  intros Hclaim.
  specialize (Hclaim sample_config sample_save [StartRunClick]
                [PlatformPause; PlatformPause; PlatformResume; PauseClick]).
  assert (Hpaused :
    paused (run sample_config
              [PlatformPause; PlatformPause; PlatformResume; PauseClick]
              (run sample_config [StartRunClick] (newGame sample_save))) = true).
  { apply Hclaim with (before := [PlatformPause; PlatformPause]) (after := [PauseClick]).
    - unfold pauseSignal. repeat apply Forall_cons_2; auto.
    - reflexivity.
    - intros [|[|k]]; vm_compute; reflexivity. }
  vm_compute in Hpaused. discriminate.
Qed.

(** The pause button is not gated by the suspend counter: pressed during
    a platform suspension it resumes the run. *)
Example pauseButton_during_suspension :
  let g := run sample_config [StartRunClick; PlatformPause; PauseClick]
             (newGame sample_save) in
  platformPauseDepth g = 1%Z ∧ paused g = false.
Proof. vm_compute. by split. Qed.

(** * Further properties *)

(** ** Linear arithmetic on [Qc] *)

Lemma Qc_eq_this (a b : Qc) : a = b → (this a == this b)%Q.
Proof. by intros ->. Qed.

(** Order and equality goals over [Qc] that are linear once the constants
    are computed. *)
Ltac qc_arith :=
  repeat match goal with
         | H : @eq Qc _ _ |- _ => apply Qc_eq_this in H
         | |- @eq Qc _ _ => apply Qc_is_canon
         | H : ¬ (_ < _)%Qc |- _ => apply Qcnot_lt_le in H
         | H : ¬ (_ ≤ _)%Qc |- _ => apply Qcnot_le_lt in H
         end;
  unfold WIDTH, HEIGHT, GATE_GAP, GATE_HEIGHT, REVIVE_INVULN_MS, BASE_MAGNET_RADIUS,
    BASE_BRIBE_COOLDOWN_SEC, num, Qcle, Qclt, Qcdiv, Qcinv, Qcminus, Qcplus, Qcopp,
    Qcmult, Q2Qc in *;
  cbn [this] in *;
  repeat (rewrite ?Qred_correct in *; cbn [this] in * );
  repeat match goal with
         | |- context [Qinv (Qmake ?a ?b)] =>
             let v := eval vm_compute in (Qinv (Qmake a b)) in
             change (Qinv (Qmake a b)) with v
         | H : context [Qinv (Qmake ?a ?b)] |- _ =>
             let v := eval vm_compute in (Qinv (Qmake a b)) in
             change (Qinv (Qmake a b)) with v in H
         end;
  lra.

Lemma Math_max_lower (a b : Qc) : a ≤ Math_max a b.
Proof. unfold Math_max. case_decide; [done|apply Qcle_refl]. Qed.

Lemma Math_max_upper (a b : Qc) : b ≤ Math_max a b.
Proof. unfold Math_max. case_decide; qc_arith. Qed.

Lemma Math_min_lower (a b c : Qc) : c ≤ a → c ≤ b → c ≤ Math_min a b.
Proof. unfold Math_min. by case_decide. Qed.

Lemma Math_min_upper (a b : Qc) : Math_min a b ≤ a.
Proof. unfold Math_min. case_decide; qc_arith. Qed.

Lemma clamp_range (value min max : Qc) :
  min ≤ max → min ≤ clamp value min max ∧ clamp value min max ≤ max.
Proof.
  intros Hrange. unfold clamp. split.
  - apply Math_min_lower; [exact Hrange | apply Math_max_lower].
  - apply Math_min_upper.
Qed.

Lemma clamp_inside (value min max : Qc) :
  min ≤ value → value ≤ max → clamp value min max = value.
Proof.
  intros Hmin Hmax. unfold clamp, Math_min, Math_max.
  repeat case_decide; qc_arith.
Qed.

(** ** The life of an effect *)

Lemma updateEffects_effects dt g :
  effects (updateEffects dt g) = omap (effect_step dt) (effects g).
Proof. reflexivity. Qed.

Lemma omap_length_le {A B} (f : A → option B) (l : list A) :
  (length (omap f l) ≤ length l)%nat.
Proof.
  induction l as [|a l IH]; [reflexivity|].
  cbn [omap list_omap]. destruct (f a); cbn [length]; lia.
Qed.

Lemma effect_step_filter dt (P : ActiveEffect → Prop) `{∀ e, Decision (P e)}
    (es : list ActiveEffect) :
  (∀ e, P e → permanent e = true) →
  filter P (omap (effect_step dt) es) = filter P es.
Proof.
  intros Hperm. induction es as [|e es IH]; [reflexivity|].
  cbn [omap list_omap]. rewrite (filter_cons _ e).
  destruct (effect_step dt e) as [e'|] eqn:Hstep.
  - rewrite filter_cons, IH.
    unfold effect_step in Hstep. destruct (permanent e) eqn:Hp.
    + by injection Hstep as <-.
    + case_decide; [|discriminate]. injection Hstep as <-.
      rewrite decide_False; [|intros HP; apply Hperm in HP; cbn in HP; congruence].
      rewrite decide_False; [done|]. intros HP. apply Hperm in HP. congruence.
  - rewrite IH. unfold effect_step in Hstep. destruct (permanent e) eqn:Hp; [discriminate|].
    rewrite decide_False; [done|]. intros HP. apply Hperm in HP. congruence.
Qed.

(** X1.  [updateEffects] never drops or changes a permanent effect, keeps
    the order of the list, never makes it longer, and leaves every
    temporary effect it keeps with a positive time, [dt] less than
    before; a temporary effect with more than [dt] left is kept. *)
Theorem updateEffects_keeps_permanent (dt : Qc) (g : Game) :
  filter (λ e, permanent e = true) (effects (updateEffects dt g))
  = filter (λ e, permanent e = true) (effects g)
  ∧ (length (effects (updateEffects dt g)) ≤ length (effects g))%nat
  ∧ (∀ e', e' ∈ effects (updateEffects dt g) → permanent e' = false →
       0 < remainingSec e'
       ∧ ∃ e, e ∈ effects g ∧ permanent e = false
              ∧ e' = e <| remainingSec := remainingSec e - dt |>)
  ∧ (∀ e, e ∈ effects g → permanent e = false → dt < remainingSec e →
       e <| remainingSec := remainingSec e - dt |> ∈ effects (updateEffects dt g)).
Proof.
  rewrite updateEffects_effects. split; [|split; [|split]].
  - by apply effect_step_filter.
  - apply omap_length_le.
  - intros e' Hin Htemp. apply list_elem_of_omap in Hin as (e & Hin & Hstep).
    unfold effect_step in Hstep. destruct (permanent e) eqn:Hp.
    + injection Hstep as <-. congruence.
    + case_decide as Hpos; [|discriminate]. injection Hstep as <-.
      split; [exact Hpos|]. by exists e.
  - intros e Hin Htemp Hleft. apply list_elem_of_omap. exists e. split; [exact Hin|].
    unfold effect_step. rewrite Htemp. rewrite decide_True; [reflexivity|].
    fields. qc_arith.
Qed.

(** *** From the gate to the end of its effect *)

Lemma updateEffects_each_effects dts g :
  effects (updateEffects_each dts g)
  = foldl (λ es dt, omap (effect_step dt) es) (effects g) dts.
Proof.
  unfold updateEffects_each. revert g.
  induction dts as [|dt dts IH]; intros g; [reflexivity|].
  cbn [foldl]. by rewrite IH, updateEffects_effects.
Qed.

Lemma effect_steps_app dts (es1 es2 : list ActiveEffect) :
  foldl (λ es dt, omap (effect_step dt) es) (es1 ++ es2) dts
  = foldl (λ es dt, omap (effect_step dt) es) es1 dts
    ++ foldl (λ es dt, omap (effect_step dt) es) es2 dts.
Proof.
  revert es1 es2. induction dts as [|dt dts IH]; intros es1 es2; [reflexivity|].
  cbn [foldl]. by rewrite omap_app, IH.
Qed.

Lemma effect_steps_nil dts :
  foldl (λ es dt, omap (effect_step dt) es) [] dts = [].
Proof. induction dts as [|dt dts IH]; [reflexivity|exact IH]. Qed.

Lemma effect_steps_permanent dts e :
  permanent e = true →
  foldl (λ es dt, omap (effect_step dt) es) [e] dts = [e].
Proof.
  intros Hp. induction dts as [|dt dts IH]; [reflexivity|].
  cbn [foldl omap list_omap]. unfold effect_step at 2. by rewrite Hp.
Qed.

Lemma remaining_steps_none dts : foldl remaining_step None dts = None.
Proof. induction dts as [|dt dts IH]; [reflexivity|exact IH]. Qed.

Lemma remainingAfter_cons dt dts remaining :
  remainingAfter (dt :: dts) remaining
  = if decide (0 < remaining - dt) then remainingAfter dts (remaining - dt) else None.
Proof.
  unfold remainingAfter. cbn [foldl]. unfold remaining_step at 2.
  cbn [mbind option_bind]. case_decide; [reflexivity|apply remaining_steps_none].
Qed.

Lemma remainingAfter_positive dts remaining r :
  dts ≠ [] → remainingAfter dts remaining = Some r → 0 < r.
Proof.
  revert remaining. induction dts as [|dt dts IH]; intros remaining Hsome Hleft; [done|].
  rewrite remainingAfter_cons in Hleft. case_decide as Hpos; [|discriminate].
  destruct dts as [|dt' dts].
  - injection Hleft as <-. exact Hpos.
  - by apply (IH (remaining - dt)).
Qed.

Lemma remainingAfter_le dts remaining r :
  Forall (λ dt, 0 ≤ dt) dts → remainingAfter dts remaining = Some r → r ≤ remaining.
Proof.
  intros Hforward. revert remaining.
  induction Hforward as [|dt dts Hdt _ IH]; intros remaining Hleft.
  - injection Hleft as <-. apply Qcle_refl.
  - rewrite remainingAfter_cons in Hleft. case_decide; [|discriminate].
    apply IH in Hleft. qc_arith.
Qed.

Lemma remainingAfter_gone dts dts' remaining :
  remainingAfter dts remaining = None → remainingAfter (dts ++ dts') remaining = None.
Proof.
  unfold remainingAfter. rewrite foldl_app. intros ->. apply remaining_steps_none.
Qed.

Lemma effect_steps_temporary dts e :
  permanent e = false →
  foldl (λ es dt, omap (effect_step dt) es) [e] dts
  = match remainingAfter dts (remainingSec e) with
    | Some r => [e <| remainingSec := r |>]
    | None => []
    end.
Proof.
  revert e. induction dts as [|dt dts IH]; intros e Htemp.
  - by destruct e.
  - rewrite remainingAfter_cons. cbn [foldl omap list_omap].
    unfold effect_step at 2. rewrite Htemp.
    destruct e as [id eff perm remaining]. fields. cbn [permanent] in Htemp.
    case_decide as Hpos.
    + rewrite IH by exact Htemp. fields. reflexivity.
    + apply effect_steps_nil.
Qed.

Lemma applyGate_effects config gate g :
  isPermanent gate && bool_decide (gate_id gate = "DEBT") && hasPermanentDebt g = false →
  effects (applyGate config gate g)
  = effects g ++ [effectOf gate (effectDuration config gate)].
Proof. apply applyGate_pushes. Qed.

(** X2.  From the gate to the end of its effect: once [applyGate] has
    accepted a gate, the effects that were there before evolve through
    the following frames as if the gate had not been taken, and the
    gate's effect stays behind them: for good if it is permanent; if it
    is temporary, with the time left by subtracting the frame times from
    its duration one frame after the other, for as long as every
    subtraction leaves a positive time, and no longer.  After a frame the
    time left is positive; with frame times that are not negative it is
    at most the duration; an effect that is gone stays gone. *)
Theorem gate_effect_lifetime (config : GameConfig) (gate : GateConfig) (g : Game)
    (dts : list Qc)
    (Haccepted : isPermanent gate && bool_decide (gate_id gate = "DEBT")
                 && hasPermanentDebt g = false) :
  effects (updateEffects_each dts (applyGate config gate g))
  = effects (updateEffects_each dts g)
    ++ (if isPermanent gate then [effectOf gate 0]
        else match remainingAfter dts (effectDuration config gate) with
             | Some r => [effectOf gate r]
             | None => []
             end)
  ∧ (∀ r, dts ≠ [] → remainingAfter dts (effectDuration config gate) = Some r → 0 < r)
  ∧ (∀ r, Forall (λ dt, 0 ≤ dt) dts →
          remainingAfter dts (effectDuration config gate) = Some r →
          r ≤ effectDuration config gate)
  ∧ (∀ dts', remainingAfter dts (effectDuration config gate) = None →
             remainingAfter (dts ++ dts') (effectDuration config gate) = None).
Proof.
  split; [|split; [|split]].
  - rewrite !updateEffects_each_effects, applyGate_effects, effect_steps_app
      by exact Haccepted.
    f_equal. destruct (isPermanent gate) eqn:Hp.
    + rewrite effect_steps_permanent by exact Hp.
      unfold effectDuration. by rewrite Hp.
    + rewrite effect_steps_temporary by exact Hp. cbn [remainingSec effectOf].
      by destruct (remainingAfter dts (effectDuration config gate)).
  - intros r. apply remainingAfter_positive.
  - intros r. apply remainingAfter_le.
  - intros dts'. apply remainingAfter_gone.
Qed.

Lemma gate_effect_lifetime_witness :
  effects (updateEffects_each [num 0.5; 1] (applyGate sample_config sample_timed_gate
                                               (newGame sample_save)))
  = effects (updateEffects_each [num 0.5; 1] (newGame sample_save))
    ++ (if isPermanent sample_timed_gate then [effectOf sample_timed_gate 0]
        else match remainingAfter [num 0.5; 1]
                     (effectDuration sample_config sample_timed_gate) with
             | Some r => [effectOf sample_timed_gate r]
             | None => []
             end).
Proof.
  apply (gate_effect_lifetime sample_config sample_timed_gate (newGame sample_save)
           [num 0.5; 1]).
  reflexivity.
Defined.

(** ** Invariants, one method at a time

    What every step of a frame preserves, the frame preserves. *)

Section Steps.

Variable config : GameConfig.
Variable I : Game → Prop.

Hypothesis I_coins : ∀ g l, I g → I (g <| coins := l |>).
Hypothesis I_obstacles : ∀ g l, I g → I (g <| obstacles := l |>).
Hypothesis I_gates : ∀ g l, I g → I (g <| gates := l |>).
Hypothesis I_projectiles : ∀ g l, I g → I (g <| projectiles := l |>).
Hypothesis I_collectCoin : ∀ boat radiusSq rolls index coin g,
  I g → I (collectCoin boat radiusSq rolls index coin g).1.
Hypothesis I_hitObstacle : ∀ boat index obstacle g,
  I g → I (hitObstacle config boat index obstacle g).1.
Hypothesis I_applyGate : ∀ gate g, I g → I (applyGate config gate g).
Hypothesis I_hitProjectile : ∀ index projectile g,
  I g → I (hitProjectile index projectile g).1.

Lemma resolveGate_steps gate g : I g → I (resolveGate config gate g).1.
Proof.
  intros Hg. unfold resolveGate.
  repeat (first [ case_decide | case_match ]); cbn [fst];
    first [ exact Hg | by apply I_applyGate ].
Qed.

Lemma resolveGates_steps gs g : I g → I (resolveGates config gs g).1.
Proof.
  revert g. induction gs as [|gate gs IH]; intros g Hg; [exact Hg|].
  cbn [resolveGates].
  pose proof (resolveGate_steps gate g Hg) as H1.
  destruct (resolveGate config gate g) as [g1 gate1]. cbn [fst] in H1.
  specialize (IH g1 H1). by destruct (resolveGates config gs g1) as [g2 rest].
Qed.

Lemma handleCollisions_steps rnd g : I g → I (handleCollisions config rnd g).
Proof.
  intros Hg. unfold handleCollisions.
  pose proof (filter_with_invariant I _
    (I_collectCoin (boatBody g)
       (BASE_MAGNET_RADIUS * magnetMult g * (BASE_MAGNET_RADIUS * magnetMult g))
       (u_doubleSoul rnd)) (coins g) 0 g Hg) as H1.
  destruct (filter_with _ 0 (coins g) g) as [g1 kept1]. cbn [fst] in H1.
  apply (I_coins _ kept1) in H1.
  pose proof (filter_with_invariant I _ (I_hitObstacle (boatBody g))
                (obstacles (g1 <| coins := kept1 |>)) 0 _ H1) as H2.
  destruct (filter_with _ 0 (obstacles _) _) as [g2 kept2]. cbn [fst] in H2.
  apply (I_obstacles _ kept2) in H2.
  pose proof (resolveGates_steps (gates (g2 <| obstacles := kept2 |>)) _ H2) as H3.
  destruct (resolveGates config _ _) as [g3 resolved]. cbn [fst] in H3.
  apply (I_gates _ resolved) in H3.
  pose proof (filter_with_invariant I _ I_hitProjectile
                (projectiles (g3 <| gates := resolved |>)) 0 _ H3) as H4.
  destruct (filter_with hitProjectile 0 _ _) as [g4 kept4]. cbn [fst] in H4.
  by apply I_projectiles.
Qed.

Hypothesis I_regenShield : ∀ dt g, I g → I (regenShield dt g).
Hypothesis I_steerAndDrain : ∀ dt g, I g → I (steerAndDrain config dt g).
Hypothesis I_spawnObstacle : ∀ dt rnd g, I g → I (spawnObstacle config dt rnd g).1.
Hypothesis I_spawnCoin : ∀ dt rnd g, I g → I (spawnCoin config dt rnd g).
Hypothesis I_spawnGate : ∀ dt rnd g, I g → I (spawnGate config dt rnd g).
Hypothesis I_moveAndCull : ∀ scrollSpeed dt g, I g → I (moveAndCull scrollSpeed dt g).

Lemma spawnAndMove_steps dt rnd g : I g → I (spawnAndMove config dt rnd g).1.
Proof.
  intros Hg. unfold spawnAndMove.
  pose proof (I_spawnObstacle dt rnd g Hg) as H1.
  destruct (spawnObstacle config dt rnd g) as [g1 [[]|]]; cbn [fst] in *; [|exact H1].
  by apply I_moveAndCull, I_spawnGate, I_spawnCoin.
Qed.

(** [update] between its first and its last step. *)
Lemma update_after_tick dt rnd g :
  I (tickTimers dt g) →
  match update config dt rnd g with
  | (g', Normal _) => ∃ g4, I g4 ∧ g' = settle dt g4
  | (g', Throw) => I g'
  end.
Proof.
  intros Hg. unfold update. cbn zeta.
  set (g3 := steerAndDrain config dt (regenShield dt (tickTimers dt g))).
  assert (H3 : I g3) by (by apply I_steerAndDrain, I_regenShield).
  pose proof (spawnAndMove_steps dt rnd g3 H3) as H4.
  destruct (spawnAndMove config dt rnd g3) as [g4 [[]|]]; cbn [fst] in *; [|exact H4].
  exists (handleCollisions config rnd g4). split; [|reflexivity].
  by apply handleCollisions_steps.
Qed.

Hypothesis I_tickTimers : ∀ dt g, I g → I (tickTimers dt g).

(** [update] up to its last step. *)
Lemma update_reaches_settle dt rnd g :
  I g →
  match update config dt rnd g with
  | (g', Normal _) => ∃ g4, I g4 ∧ g' = settle dt g4
  | (g', Throw) => I g'
  end.
Proof. intros Hg. by apply update_after_tick, I_tickTimers. Qed.

(** [update] up to the test of the purse. *)
Lemma beforeSettle_steps dt rnd g : I g → I (beforeSettle config dt rnd g).
Proof.
  intros Hg. unfold beforeSettle.
  by apply handleCollisions_steps, spawnAndMove_steps, I_steerAndDrain,
           I_regenShield, I_tickTimers.
Qed.

Hypothesis I_settle : ∀ dt g, I g → I (settle dt g).
Hypothesis I_loopRunning : ∀ g b, I g → I (g <| loopRunning := b |>).

Lemma update_steps dt rnd g : I g → I (update config dt rnd g).1.
Proof.
  intros Hg. pose proof (update_reaches_settle dt rnd g Hg) as H.
  destruct (update config dt rnd g) as [g' [[]|]]; cbn [fst]; [|exact H].
  destruct H as (g4 & H4 & ->). by apply I_settle.
Qed.

Lemma loop_steps elapsedMs rnd g : I g → I (loop config elapsedMs rnd g).
Proof.
  intros Hg. unfold loop. destruct (negb (loopRunning g)); [exact Hg|].
  destruct (_ && _); [|exact Hg].
  pose proof (update_steps (Math_min (elapsedMs / num 1000) (num 0.05)) rnd g Hg) as H.
  destruct (update _ _ _ g) as [g1 [[]|]]; cbn [fst] in H; [exact H|].
  by apply I_loopRunning.
Qed.

End Steps.

(** Unfolds the steps of a frame. *)
Ltac unfold_steps :=
  try unfold collectCoin; try unfold hitObstacle; try unfold hitProjectile;
  try unfold applyGate; try unfold tickTimers; try unfold regenShield;
  try unfold steerAndDrain; try unfold spawnAndMove; try unfold spawnObstacle;
  try unfold spawnCoin; try unfold spawnGate; try unfold moveAndCull;
  try unfold showToast.

(** ** The steady state of a game *)

Lemma steady_view g g' : steadyView g' = steadyView g → steady g → steady g'.
Proof.
  unfold steadyView, steady, modifiers_clamped, boat_in_lane, over_is_stopped.
  intros [= H1 H2 H3 H4 H5 H6 H7 H8 H9 H10 H11 H12 H13 H14].
  by rewrite H1, H2, H3, H4, H5, H6, H7, H8, H9, H10, H11, H12, H13, H14.
Qed.

(** A step that writes none of the fields of [steadyView]. *)
Ltac steady_frame :=
  intros;
  match goal with
  | H : steady ?g |- _ => apply (steady_view g); [|exact H]
  end;
  unfold_steps; frame.

Lemma movePlayer_lane x p :
  player_w p = num 50 →
  player_w (movePlayer x p) = num 50
  ∧ player_w (movePlayer x p) / num 2 ≤ player_x (movePlayer x p)
  ∧ player_x (movePlayer x p) ≤ WIDTH - player_w (movePlayer x p) / num 2.
Proof.
  intros Hw. unfold movePlayer. destruct p as [px py pw ph ps]. fields.
  cbn [player_w] in Hw. subst pw. split; [reflexivity|].
  apply clamp_range. qc_compute.
Qed.

Lemma runEarnings_nonneg g : 0 ≤ runEarnings g.
Proof. apply Math_max_lower. Qed.

Lemma triggerGameOver_steady g : steady g → steady (triggerGameOver g).
Proof.
  intros (Hmod & Hlane & Hover & Hdepth & Hearn).
  unfold steady, triggerGameOver. cbn zeta.
  split; [|split; [|split; [|split]]].
  - unfold modifiers_clamped in *. frame; fields; assumption.
  - unfold boat_in_lane in *. frame; fields; assumption.
  - unfold over_is_stopped. frame; fields; by split.
  - frame; fields; assumption.
  - frame; fields; apply (runEarnings_nonneg g).
Qed.

Lemma settle_steady dt g : steady g → steady (settle dt g).
Proof.
  intros Hg. unfold settle. cbn zeta.
  match goal with
  | |- context [decide (coinsBalance ?g2 ≤ 0)] =>
      assert (H2 : steady g2) by (apply (steady_view g); [|exact Hg]; frame);
      generalize dependent g2
  end.
  intros g2 H2. case_decide; [by apply triggerGameOver_steady | exact H2].
Qed.

Lemma steerAndDrain_steady config dt g : steady g → steady (steerAndDrain config dt g).
Proof.
  intros (Hmod & Hlane & Hover & Hdepth & Hearn).
  unfold steady, steerAndDrain. cbn zeta.
  split; [exact Hmod|]. split; [|split; [exact Hover|split; [exact Hdepth|exact Hearn]]].
  unfold boat_in_lane. fields. apply movePlayer_lane, Hlane.
Qed.

Lemma loop_steady config elapsedMs rnd g : steady g → steady (loop config elapsedMs rnd g).
Proof.
  apply loop_steps; try solve [steady_frame].
  - apply steerAndDrain_steady.
  - apply settle_steady.
Qed.

Lemma applyDefense_steady defense g : steady g → steady (applyDefense defense g).
Proof.
  intros (Hmod & Hlane & Hover & Hdepth & Hearn).
  split; [|split; [exact Hlane|split; [exact Hover|split; [exact Hdepth|exact Hearn]]]].
  unfold modifiers_clamped, applyDefense in *. fields.
  destruct Hmod as (_ & _ & Hrest).
  split; [apply Math_max_lower|]. split; [apply Math_max_lower|]. exact Hrest.
Qed.

Lemma applyFarm_steady farm g : steady g → steady (applyFarm farm g).
Proof.
  intros (Hmod & Hlane & Hover & Hdepth & Hearn).
  split; [|split; [exact Hlane|split; [exact Hover|split; [exact Hdepth|exact Hearn]]]].
  unfold modifiers_clamped, applyFarm in *. fields.
  destruct Hmod as (H1 & H2 & _ & _ & _ & Hrest).
  split; [exact H1|]. split; [exact H2|].
  split; [apply Math_max_lower|]. split; [apply Math_max_lower|].
  split; [apply clamp_range; qc_compute | exact Hrest].
Qed.

Lemma applySkills_steady skills g : steady g → steady (applySkills skills g).
Proof.
  intros (Hmod & Hlane & Hover & Hdepth & Hearn).
  split; [|split; [exact Hlane|split; [exact Hover|split; [exact Hdepth|exact Hearn]]]].
  unfold modifiers_clamped, applySkills in *. fields.
  destruct Hmod as (H1 & H2 & H3 & H4 & H5 & _).
  repeat (split; [assumption|]).
  split; [apply Math_max_lower|]. split; apply Math_max_lower.
Qed.

Lemma applyMetaUpgradesForRun_steady config g :
  steady g → steady (applyMetaUpgradesForRun config g).1.
Proof.
  intros Hg. unfold applyMetaUpgradesForRun.
  destruct (currentLevelEffect config "defense" g) as [defense|]; [|exact Hg].
  apply (applyDefense_steady defense) in Hg.
  destruct (currentLevelEffect config "farm" _) as [farm|]; [|exact Hg].
  apply (applyFarm_steady farm) in Hg.
  destruct (currentLevelEffect config "skills" _) as [skills|]; [|exact Hg].
  by apply applySkills_steady.
Qed.

Lemma startNewRun_steady config g : steady g → steady (startNewRun config g).
Proof.
  intros (Hmod & Hlane & Hover & Hdepth & Hearn). unfold startNewRun. cbn zeta.
  match goal with
  | |- context [applyMetaUpgradesForRun config ?g1] =>
      assert (H1 : steady g1);
      [|pose proof (applyMetaUpgradesForRun_steady config g1 H1) as H;
        destruct (applyMetaUpgradesForRun config g1) as [g2 [[]|]]; cbn [fst] in H;
        [by apply (steady_view g2)|exact H]]
  end.
  unfold steady, modifiers_clamped, boat_in_lane, over_is_stopped, reset in *. fields.
  split; [repeat split; qc_compute|]. split; [exact Hlane|].
  split; [discriminate|]. split; [exact Hdepth|apply Qcle_refl].
Qed.

(** Case analysis on a handler that writes a few flags. *)
Ltac steady_flags :=
  unfold steady, modifiers_clamped, boat_in_lane, over_is_stopped, showToast in *;
  frame; fields;
  repeat match goal with
         | H : _ ∧ _ |- _ => destruct H
         | H : bool_decide _ = true |- _ => apply bool_decide_eq_true in H
         | H : bool_decide _ = false |- _ => apply bool_decide_eq_false in H
         | H : _ || _ = false |- _ => apply orb_false_iff in H
         | H : negb _ = false |- _ => apply negb_false_iff in H
         | H : negb _ = true |- _ => apply negb_true_iff in H
         end;
  repeat split; intros; fields; try assumption; try congruence; try lia;
  try solve [intuition (try congruence; try lia)].

Lemma handle_steady config ev g : steady g → steady (handle config ev g).
Proof.
  intros Hg. destruct ev; cbn [handle].
  - unfold pauseButton_click. destruct (gameOver g || negb (runActive g)) eqn:Hguard;
      [exact Hg|]. apply orb_false_iff in Hguard as [Hover _].
    steady_flags.
  - unfold visibilitychange. steady_flags.
  - unfold platform_onPause. steady_flags.
  - unfold platform_onResume. steady_flags.
    match goal with H : gameOver g = true |- _ => by rewrite H end.
  - unfold reviveButton_click, revive_granted. steady_flags.
  - unfold revive_granted. steady_flags.
  - apply (steady_view g); [|exact Hg]. unfold rewardX2Button_click, rewardX2_granted. frame.
  - apply (steady_view g); [|exact Hg]. unfold rewardX2_granted. frame.
  - unfold restartButton_click. steady_flags.
  - by apply startNewRun_steady.
  - apply (steady_view g); [|exact Hg]. unfold handleProgressReset. frame.
  - apply (steady_view g); [|exact Hg]. unfold buyUpgrade. frame.
  - apply (steady_view g); [|exact Hg]. unfold fireBribe. frame.
  - apply (steady_view g); [|exact Hg]. unfold keydown, fireBribe. frame.
  - apply (steady_view g); [|exact Hg]. reflexivity.
  - apply (steady_view g); [|exact Hg]. reflexivity.
  - destruct Hg as (Hmod & Hlane & Hover & Hdepth & Hearn).
    split; [exact Hmod|]. split; [|split; [exact Hover|split; [exact Hdepth|exact Hearn]]].
    unfold boat_in_lane, onPointerMove. fields. apply movePlayer_lane, Hlane.
  - by apply loop_steady.
Qed.

Lemma newGame_steady save : steady (newGame save).
Proof.
  unfold steady, modifiers_clamped, boat_in_lane, over_is_stopped, newGame. fields.
  repeat split; first [qc_compute | discriminate | lia].
Qed.

Lemma run_steady config save evs : steady (run config evs (newGame save)).
Proof. apply run_invariant; [apply handle_steady | apply newGame_steady]. Qed.

(** X3.  In every game the handlers can produce, the modifiers of the run
    respect the floors and ranges of [applyMetaUpgradesForRun] and
    [reset], whatever the configuration and the save hold. *)
Theorem modifiers_stay_clamped (config : GameConfig) (save : SaveData Qc)
    (evs : list Event) :
  let g := run config evs (newGame save) in
  0 ≤ shieldRegenSec g
  ∧ num 0.1 ≤ obstacleDamageMult g
  ∧ 1 ≤ magnetMult g
  ∧ num 0.1 ≤ soulValueMult g
  ∧ (0 ≤ doubleSoulChance g ∧ doubleSoulChance g ≤ 1)
  ∧ num 0.2 ≤ bribeCooldownMult g
  ∧ 0 ≤ freeBribeEverySec g
  ∧ 0 ≤ bribeSplashRadius g.
Proof. intros g. by destruct (run_steady config save evs) as (Hmod & _). Qed.

Lemma lane_left : num 50 / num 2 = num 25.
Proof. apply Qc_is_canon. vm_compute. reflexivity. Qed.

Lemma lane_right : WIDTH - num 50 / num 2 = num 875.
Proof. apply Qc_is_canon. vm_compute. reflexivity. Qed.

(** X4.  The boat never leaves the lane: its width stays 50 and its
    centre stays between 25 and 875, whatever the keys, the pointer and
    the frame times do. *)
Theorem boat_stays_in_lane (config : GameConfig) (save : SaveData Qc)
    (evs : list Event) :
  let g := run config evs (newGame save) in
  player_w (player g) = num 50
  ∧ num 25 ≤ player_x (player g)
  ∧ player_x (player g) ≤ num 875
  ∧ (∀ x, onPointerMove x g = g <| player := movePlayer (x * WIDTH) (player g) |>
          ∧ num 25 ≤ player_x (player (onPointerMove x g)) ≤ num 875).
Proof.
  intros g. destruct (run_steady config save evs) as (_ & (Hw & Hlow & Hhigh) & _).
  fold g in Hw, Hlow, Hhigh. rewrite Hw, ?lane_left, ?lane_right in Hlow, Hhigh.
  split; [exact Hw|]. split; [exact Hlow|]. split; [exact Hhigh|].
  intros x. split; [reflexivity|].
  destruct (movePlayer_lane (x * WIDTH) (player g) Hw) as (Hw' & Hlow' & Hhigh').
  unfold onPointerMove. fields. rewrite Hw', ?lane_left, ?lane_right in Hlow', Hhigh'.
  by split.
Qed.

Lemma loop_idle config elapsedMs rnd g :
  paused g = true ∨ gameOver g = true ∨ runActive g = false →
  loop config elapsedMs rnd g = g.
Proof.
  intros Hidle. unfold loop. destruct (negb (loopRunning g)); [reflexivity|].
  destruct Hidle as [-> | [-> | ->]]; [reflexivity| |]; cbn [negb andb].
  - by rewrite andb_false_r.
  - by rewrite andb_false_r.
Qed.

Lemma fireBribe_idle config u g :
  paused g = true ∨ gameOver g = true ∨ runActive g = false →
  fireBribe config u g = g.
Proof.
  intros Hidle. unfold fireBribe.
  destruct Hidle as [-> | [-> | ->]]; [reflexivity| |]; cbn [negb orb].
  - by rewrite orb_true_r.
  - by rewrite orb_true_r.
Qed.

Lemma pauseButton_idle g :
  gameOver g = true ∨ runActive g = false → pauseButton_click g = g.
Proof.
  intros Hidle. unfold pauseButton_click.
  destruct Hidle as [-> | ->]; [reflexivity|]. by rewrite orb_true_r.
Qed.

(** X5.  Once the run is over the game is paused and no run is active, in
    every game the handlers can produce; frames, shots and the pause
    button then leave the game as it is, and resuming from a platform
    pause keeps it paused. *)
Theorem game_over_is_frozen (config : GameConfig) (save : SaveData Qc)
    (evs : list Event)
    (Hover : gameOver (run config evs (newGame save)) = true) :
  let g := run config evs (newGame save) in
  paused g = true
  ∧ runActive g = false
  ∧ (∀ elapsedMs rnd, loop config elapsedMs rnd g = g)
  ∧ (∀ u, fireBribe config u g = g)
  ∧ pauseButton_click g = g
  ∧ paused (platform_onResume g) = true
  ∧ gameOver (platform_onResume g) = true.
Proof.
  intros g. destruct (run_steady config save evs) as (_ & _ & Hstop & _).
  destruct (Hstop Hover) as [Hpaused Hidle]. fold g in Hover, Hpaused, Hidle.
  split; [exact Hpaused|]. split; [exact Hidle|].
  split; [intros; apply loop_idle; auto|].
  split; [intros; apply fireBribe_idle; auto|].
  split; [apply pauseButton_idle; auto|].
  unfold platform_onResume. repeat case_decide; fields; try by split.
  by rewrite Hover.
Qed.

Lemma game_over_is_frozen_witness :
  let g := run sample_poor_config sample_lost_run (newGame sample_save) in
  paused g = true
  ∧ runActive g = false
  ∧ (∀ elapsedMs rnd, loop sample_poor_config elapsedMs rnd g = g)
  ∧ (∀ u, fireBribe sample_poor_config u g = g)
  ∧ pauseButton_click g = g
  ∧ paused (platform_onResume g) = true
  ∧ gameOver (platform_onResume g) = true.
Proof.
  apply (game_over_is_frozen sample_poor_config sample_save sample_lost_run).
  vm_compute. reflexivity.
Defined.

(** X6.  A granted revive of a finished run refills the purse with 50
    coins, clears obstacles and projectiles, grants 1200 ms of
    invulnerability and lifts the pause, but [runActive] stays false as
    [triggerGameOver] left it: frames, shots and the pause button still
    leave the game as it is.  A refused reward, or a click while the run
    is not over, changes nothing. *)
Theorem revive_leaves_run_inactive (config : GameConfig) (save : SaveData Qc)
    (evs : list Event)
    (Hover : gameOver (run config evs (newGame save)) = true) :
  let g := run config evs (newGame save) in
  let g' := reviveButton_click true g in
  reviveButton_click false g = g
  ∧ (∀ g0 rewarded, gameOver g0 = false → reviveButton_click rewarded g0 = g0)
  ∧ coinsBalance g' = num 50
  ∧ gameOver g' = false ∧ paused g' = false ∧ manualPaused g' = false
  ∧ obstacles g' = [] ∧ projectiles g' = []
  ∧ reviveInvulnMs g' = num 1200
  ∧ audioMuted g' = false
  ∧ (coins g' = coins g ∧ gates g' = gates g ∧ effects g' = effects g
     ∧ distance g' = distance g ∧ saveData g' = saveData g)
  ∧ runActive g' = false
  ∧ (∀ elapsedMs rnd, loop config elapsedMs rnd g' = g')
  ∧ (∀ u, fireBribe config u g' = g')
  ∧ pauseButton_click g' = g'.
Proof.
  intros g g'. destruct (run_steady config save evs) as (_ & _ & Hstop & _).
  destruct (Hstop Hover) as [_ Hidle]. fold g in Hover, Hidle.
  assert (Hidle' : runActive g' = false).
  { unfold g', reviveButton_click. rewrite Hover. exact Hidle. }
  split; [unfold reviveButton_click; by rewrite Hover|].
  split; [intros g0 rewarded H0; unfold reviveButton_click; by rewrite H0|].
  unfold g', reviveButton_click in *. rewrite Hover in *. cbn [negb] in *.
  repeat (split; [reflexivity|]).
  split; [by repeat split|].
  split; [exact Hidle'|].
  split; [intros; apply loop_idle; auto|].
  split; [intros; apply fireBribe_idle; auto|].
  apply pauseButton_idle; auto.
Qed.

Lemma revive_leaves_run_inactive_witness :
  let g := run sample_poor_config sample_lost_run (newGame sample_save) in
  let g' := reviveButton_click true g in
  runActive g' = false ∧ paused g' = false ∧ gameOver g' = false
  ∧ (∀ elapsedMs rnd, loop sample_poor_config elapsedMs rnd g' = g').
Proof.
  pose proof (revive_leaves_run_inactive sample_poor_config sample_save sample_lost_run) as H.
  cbv zeta in H.
  destruct H as (_ & _ & _ & Hover & Hpaused & _ & _ & _ & _ & _ & _ & Hidle & Hloop & _);
    [vm_compute; reflexivity|].
  cbv zeta. split; [exact Hidle|]. split; [exact Hpaused|]. split; [exact Hover|exact Hloop].
Defined.

(** ** The wallet *)

Lemma solvent_view g g' : saveData g' = saveData g → solvent g → solvent g'.
Proof. unfold solvent. by intros ->. Qed.

(** A step that never writes the save. *)
Ltac solvent_frame :=
  intros;
  match goal with
  | H : solvent ?g |- _ => apply (solvent_view g); [|exact H]
  end;
  unfold_steps; frame.

Lemma triggerGameOver_wallet g :
  walletCoins (saveData (triggerGameOver g)) = walletCoins (saveData g) + runEarnings g.
Proof. unfold triggerGameOver. frame. Qed.

Lemma triggerGameOver_solvent g : solvent g → solvent (triggerGameOver g).
Proof.
  unfold solvent. rewrite triggerGameOver_wallet.
  pose proof (runEarnings_nonneg g). intros. qc_arith.
Qed.

Lemma settle_solvent dt g : solvent g → solvent (settle dt g).
Proof.
  intros Hg. unfold settle. cbn zeta.
  match goal with
  | |- context [decide (coinsBalance ?g2 ≤ 0)] =>
      assert (H2 : solvent g2) by (apply (solvent_view g); [|exact Hg]; frame);
      generalize dependent g2
  end.
  intros g2 H2. case_decide; [by apply triggerGameOver_solvent | exact H2].
Qed.

Lemma loop_solvent config elapsedMs rnd g : solvent g → solvent (loop config elapsedMs rnd g).
Proof.
  apply loop_steps; try solve [solvent_frame].
  apply settle_solvent.
Qed.

Lemma rewardX2_granted_solvent g : solvent g → solvent (rewardX2_granted g).
Proof.
  unfold solvent. rewrite rewardX2_granted_wallet. case_decide; [|done].
  intros. qc_arith.
Qed.

Lemma buyUpgrade_solvent config branchId g : solvent g → solvent (buyUpgrade config branchId g).
Proof.
  unfold solvent, buyUpgrade. intros Hg.
  destruct (find _ _) as [branch|]; [|exact Hg].
  destruct (array_get _ _) as [next|]; [|exact Hg].
  case_decide as Hshort; [exact Hg|]. unfold showToast, storeSave. fields. qc_arith.
Qed.

Lemma startNewRun_save config g : saveData (startNewRun config g) = saveData g.
Proof.
  unfold startNewRun. cbn zeta.
  match goal with
  | |- context [applyMetaUpgradesForRun config ?g1] =>
      change (saveData g) with (saveData g1); generalize g1
  end.
  intros g1. unfold applyMetaUpgradesForRun.
  repeat (match goal with
          | |- context [currentLevelEffect config ?b ?g2] =>
              destruct (currentLevelEffect config b g2)
          end; try reflexivity).
Qed.

Lemma handle_solvent config ev g : solvent g → solvent (handle config ev g).
Proof.
  intros Hg. destruct ev; cbn [handle].
  - apply (solvent_view g); [|exact Hg]. unfold pauseButton_click. frame.
  - apply (solvent_view g); [|exact Hg]. unfold visibilitychange. frame.
  - apply (solvent_view g); [|exact Hg]. unfold platform_onPause. frame.
  - apply (solvent_view g); [|exact Hg]. unfold platform_onResume. frame.
  - apply (solvent_view g); [|exact Hg]. unfold reviveButton_click. frame.
  - apply (solvent_view g); [|exact Hg]. reflexivity.
  - unfold rewardX2Button_click. repeat case_match; try exact Hg.
    by apply rewardX2_granted_solvent.
  - by apply rewardX2_granted_solvent.
  - apply (solvent_view g); [|exact Hg]. reflexivity.
  - apply (solvent_view g); [apply startNewRun_save|exact Hg].
  - unfold handleProgressReset. destruct (negb confirmed); [exact Hg|].
    unfold solvent. fields. apply Qcle_refl.
  - by apply buyUpgrade_solvent.
  - apply (solvent_view g); [|exact Hg]. unfold fireBribe. frame.
  - apply (solvent_view g); [|exact Hg]. unfold keydown, fireBribe. frame.
  - apply (solvent_view g); [|exact Hg]. reflexivity.
  - apply (solvent_view g); [|exact Hg]. reflexivity.
  - apply (solvent_view g); [|exact Hg]. reflexivity.
  - by apply loop_solvent.
Qed.

(** X7.  A wallet that starts out non-negative is never overdrawn, whatever
    the handlers do: purchases are refused when the wallet is short,
    payouts and the doubler only add, and a progress reset sets it to 0. *)
Theorem wallet_never_overdrawn (config : GameConfig) (save : SaveData Qc)
    (evs : list Event)
    (Hstart : 0 ≤ walletCoins save) :
  0 ≤ walletCoins (saveData (run config evs (newGame save))).
Proof.
  apply (run_invariant solvent config (handle_solvent config) evs (newGame save)).
  exact Hstart.
Qed.

Lemma wallet_never_overdrawn_witness :
  0 ≤ walletCoins (saveData (run sample_poor_config sample_lost_run (newGame sample_save))).
Proof.
  apply (wallet_never_overdrawn sample_poor_config sample_save sample_lost_run).
  qc_compute.
Defined.

(** ** One permanent debt *)

Lemma single_debt_view g g' : effects g' = effects g → single_debt g → single_debt g'.
Proof. unfold single_debt, permanentDebts. by intros ->. Qed.

(** A step that never writes the effects. *)
Ltac debt_frame :=
  intros;
  match goal with
  | H : single_debt ?g |- _ => apply (single_debt_view g); [|exact H]
  end;
  unfold_steps; frame.

Lemma permanentDebts_none g : hasPermanentDebt g = false → permanentDebts g = [].
Proof.
  intros Hnone. unfold permanentDebts.
  destruct (filter _ (effects g)) as [|e es] eqn:Hfilter; [reflexivity|].
  assert (He : e ∈ filter (λ e, permanent e = true ∧ gateId e = "DEBT") (effects g))
    by (rewrite Hfilter; left).
  apply list_elem_of_filter in He as [[Hp Hid] Hin].
  assert (Hsome : hasPermanentDebt g = true) by (apply hasPermanentDebt_spec; eauto).
  congruence.
Qed.

Lemma applyGate_single_debt config gate g :
  single_debt g → single_debt (applyGate config gate g).
Proof.
  intros Hg. unfold single_debt, permanentDebts in *.
  destruct (isPermanent gate && bool_decide (gate_id gate = "DEBT") && hasPermanentDebt g)
    eqn:Hguard.
  - unfold applyGate. rewrite Hguard. by rewrite showToast_effects.
  - rewrite applyGate_effects by exact Hguard. rewrite filter_app, length_app.
    rewrite filter_cons, filter_nil. unfold effectOf at 1 2. cbn [permanent gateId].
    destruct (decide (isPermanent gate = true ∧ gate_id gate = "DEBT")) as [[Hp Hid]|Hnot];
      [|cbn [length]; rewrite Nat.add_0_r; exact Hg].
    rewrite Hp, bool_decide_eq_true_2 in Hguard by exact Hid.
    cbn [andb] in Hguard. apply permanentDebts_none in Hguard.
    unfold permanentDebts in Hguard. rewrite Hguard. cbn [length]. reflexivity.
Qed.

Lemma updateEffects_debts dt g : permanentDebts (updateEffects dt g) = permanentDebts g.
Proof.
  unfold permanentDebts. rewrite updateEffects_effects.
  apply effect_step_filter. by intros e [Hp _].
Qed.

Lemma triggerGameOver_effects g : effects (triggerGameOver g) = effects g.
Proof. unfold triggerGameOver. frame. Qed.

Lemma settle_debts dt g : permanentDebts (settle dt g) = permanentDebts g.
Proof.
  rewrite <- (updateEffects_debts dt g). unfold settle. cbn zeta.
  match goal with
  | |- context [decide (coinsBalance ?g2 ≤ 0)] =>
      assert (H2 : effects g2 = effects (updateEffects dt g)) by frame;
      generalize dependent g2
  end.
  intros g2 H2. unfold permanentDebts.
  case_decide; [rewrite triggerGameOver_effects|]; by rewrite H2.
Qed.

Lemma loop_single_debt config elapsedMs rnd g :
  single_debt g → single_debt (loop config elapsedMs rnd g).
Proof.
  apply loop_steps; try solve [debt_frame].
  - intros gate g0. apply applyGate_single_debt.
  - intros dt g0. unfold single_debt. by rewrite settle_debts.
Qed.

Lemma startNewRun_effects config g : effects (startNewRun config g) = [].
Proof.
  unfold startNewRun. cbn zeta.
  match goal with
  | |- context [applyMetaUpgradesForRun config ?g1] =>
      assert (H1 : effects g1 = []) by reflexivity; generalize dependent g1
  end.
  intros g1 H1. unfold applyMetaUpgradesForRun.
  repeat (match goal with
          | |- context [currentLevelEffect config ?b ?g2] =>
              destruct (currentLevelEffect config b g2)
          end; try exact H1).
Qed.

Lemma handle_single_debt config ev g : single_debt g → single_debt (handle config ev g).
Proof.
  intros Hg. destruct ev; cbn [handle].
  - apply (single_debt_view g); [|exact Hg]. unfold pauseButton_click. frame.
  - apply (single_debt_view g); [|exact Hg]. unfold visibilitychange. frame.
  - apply (single_debt_view g); [|exact Hg]. unfold platform_onPause. frame.
  - apply (single_debt_view g); [|exact Hg]. unfold platform_onResume. frame.
  - apply (single_debt_view g); [|exact Hg]. unfold reviveButton_click. frame.
  - apply (single_debt_view g); [|exact Hg]. reflexivity.
  - apply (single_debt_view g); [|exact Hg].
    unfold rewardX2Button_click, rewardX2_granted. frame.
  - apply (single_debt_view g); [|exact Hg]. unfold rewardX2_granted. frame.
  - apply (single_debt_view g); [|exact Hg]. reflexivity.
  - unfold single_debt, permanentDebts, startRunButton_click.
    rewrite startNewRun_effects. cbn. lia.
  - apply (single_debt_view g); [|exact Hg]. unfold handleProgressReset. frame.
  - apply (single_debt_view g); [|exact Hg]. unfold buyUpgrade. frame.
  - apply (single_debt_view g); [|exact Hg]. unfold fireBribe. frame.
  - apply (single_debt_view g); [|exact Hg]. unfold keydown, fireBribe. frame.
  - apply (single_debt_view g); [|exact Hg]. reflexivity.
  - apply (single_debt_view g); [|exact Hg]. reflexivity.
  - apply (single_debt_view g); [|exact Hg]. reflexivity.
  - by apply loop_single_debt.
Qed.

(** X8.  The guard of [applyGate] does its job over a whole session: in
    every game the handlers can produce at most one permanent effect of
    the gate ["DEBT"] is active, however often the gate is taken; frames
    never remove it and only a new run clears it. *)
Theorem at_most_one_permanent_debt (config : GameConfig) (save : SaveData Qc)
    (evs : list Event) :
  let g := run config evs (newGame save) in
  (length (permanentDebts g) ≤ 1)%nat
  ∧ (∀ dt, permanentDebts (settle dt g) = permanentDebts g)
  ∧ permanentDebts (startNewRun config g) = [].
Proof.
  intros g. split; [|split].
  - apply (run_invariant single_debt config (handle_single_debt config) evs (newGame save)).
    unfold single_debt. cbn. lia.
  - intros dt. apply settle_debts.
  - unfold permanentDebts. by rewrite startNewRun_effects.
Qed.

(** ** Bribe shots and the button *)

Lemma fireBribe_fires config u g :
  runActive g = true → paused g = false → gameOver g = false →
  bribeCooldownLeftSec g ≤ 0 →
  u < freeBribeChance (economy config) ∨ freeBribeReady g = true
  ∨ bribeShotCost (economy config) ≤ coinsBalance g →
  projectiles (fireBribe config u g) = projectiles g ++ [bribeProjectile g]
  ∧ bribeCooldownLeftSec (fireBribe config u g)
    = BASE_BRIBE_COOLDOWN_SEC * bribeCooldownMult g
  ∧ coinsBalance (fireBribe config u g)
    = if bool_decide (u < freeBribeChance (economy config)) || freeBribeReady g
      then coinsBalance g
      else coinsBalance g - bribeShotCost (economy config).
Proof.
  intros Hrun Hpaused Hover Hcool Hway. unfold fireBribe, bribeProjectile.
  rewrite Hrun, Hpaused, Hover. cbn [negb orb].
  rewrite decide_False by (by apply Qcle_not_lt).
  destruct (bool_decide (u < freeBribeChance (economy config))) eqn:Hroll;
    destruct (freeBribeReady g) eqn:Hready; cbn [negb orb andb];
    try (by repeat split).
  apply bool_decide_eq_false in Hroll.
  destruct Hway as [Hlucky|[Hfree|Hafford]]; [done|done|].
  rewrite bool_decide_eq_false_2 by (by apply Qcle_not_lt).
  by repeat split.
Qed.

Lemma fireBribe_refuses config u g :
  ¬ (runActive g = true ∧ paused g = false ∧ gameOver g = false
     ∧ bribeCooldownLeftSec g ≤ 0
     ∧ (u < freeBribeChance (economy config) ∨ freeBribeReady g = true
        ∨ bribeShotCost (economy config) ≤ coinsBalance g)) →
  fireBribe config u g = g
  ∨ fireBribe config u g = showToast ToastInsufficientCoins g.
Proof.
  intros Hno. unfold fireBribe.
  destruct (paused g) eqn:Hpaused; [by left|].
  destruct (gameOver g) eqn:Hover; [by left|].
  destruct (runActive g) eqn:Hrun; [|by left]. cbn [negb orb].
  case_decide as Hcool; [by left|]. apply Qcnot_lt_le in Hcool.
  destruct (bool_decide (u < freeBribeChance (economy config))) eqn:Hroll.
  { apply bool_decide_eq_true in Hroll. exfalso. apply Hno. by auto 10. }
  destruct (freeBribeReady g) eqn:Hready.
  { exfalso. apply Hno. by auto 10. }
  cbn [negb orb andb].
  destruct (bool_decide (coinsBalance g < bribeShotCost (economy config))) eqn:Hshort;
    [by right|].
  apply bool_decide_eq_false in Hshort. apply Qcnot_lt_le in Hshort.
  exfalso. apply Hno. by auto 10.
Qed.

Lemma canFire_spec config g :
  canFire config g = true
  ↔ runActive g = true ∧ paused g = false ∧ gameOver g = false
    ∧ bribeCooldownLeftSec g ≤ 0
    ∧ (freeBribeReady g = true ∨ bribeShotCost (economy config) ≤ coinsBalance g).
Proof.
  unfold canFire. cbn zeta.
  rewrite !andb_true_iff, orb_true_iff, !negb_true_iff, !bool_decide_eq_true.
  tauto.
Qed.

(** X9.  The bribe button and the shot agree: [fireBribe] pushes a
    projectile at the boat and starts the cooldown exactly when [canFire]
    of [updateHud] holds or the roll makes the shot free; otherwise it
    leaves projectiles, purse and cooldown alone. *)
Theorem fireBribe_fires_when_enabled (config : GameConfig) (u : Qc) (g : Game) :
  let g' := fireBribe config u g in
  (canFire config g = true ∨ luckyShot config u g →
     projectiles g' = projectiles g ++ [bribeProjectile g]
     ∧ bribeCooldownLeftSec g' = BASE_BRIBE_COOLDOWN_SEC * bribeCooldownMult g
     ∧ coinsBalance g'
       = if bool_decide (u < freeBribeChance (economy config)) || freeBribeReady g
         then coinsBalance g
         else coinsBalance g - bribeShotCost (economy config))
  ∧ (¬ (canFire config g = true ∨ luckyShot config u g) →
       (g' = g ∨ g' = showToast ToastInsufficientCoins g)
       ∧ projectiles g' = projectiles g
       ∧ coinsBalance g' = coinsBalance g
       ∧ bribeCooldownLeftSec g' = bribeCooldownLeftSec g).
Proof.
  intros g'. unfold luckyShot. rewrite canFire_spec. split.
  - intros Hyes. apply fireBribe_fires; tauto.
  - intros Hno.
    assert (Hcases : g' = g ∨ g' = showToast ToastInsufficientCoins g).
    { apply fireBribe_refuses. tauto. }
    split; [exact Hcases|]. by destruct Hcases as [-> | ->].
Qed.

(** X10.  In every game the handlers can produce a shot starts a cooldown
    of at least 0.09 s, so a second shot before the next frame is
    refused, whatever its roll. *)
Theorem fireBribe_rate_limited (config : GameConfig) (save : SaveData Qc)
    (evs : list Event) (u u' : Qc)
    (Hfires : canFire config (run config evs (newGame save)) = true
              ∨ luckyShot config u (run config evs (newGame save))) :
  let g := run config evs (newGame save) in
  let g' := fireBribe config u g in
  num 0.09 ≤ bribeCooldownLeftSec g'
  ∧ canFire config g' = false
  ∧ fireBribe config u' g' = g'.
Proof.
  intros g g'. destruct (run_steady config save evs) as (Hmod & _).
  destruct Hmod as (_ & _ & _ & _ & _ & Hmult & _). fold g in Hmult, Hfires.
  assert (Hfire : bribeCooldownLeftSec g' = BASE_BRIBE_COOLDOWN_SEC * bribeCooldownMult g).
  { unfold luckyShot in Hfires. rewrite canFire_spec in Hfires.
    apply fireBribe_fires; tauto. }
  assert (Hleft : num 0.09 ≤ bribeCooldownLeftSec g').
  { rewrite Hfire. generalize dependent (bribeCooldownMult g). intros m Hm _. qc_arith. }
  split; [exact Hleft|].
  assert (Hpos : 0 < bribeCooldownLeftSec g') by qc_arith.
  split.
  - destruct (canFire config g') eqn:Hcan; [|reflexivity].
    apply canFire_spec in Hcan as (_ & _ & _ & Hcool & _). qc_arith.
  - unfold fireBribe at 1. destruct (_ || _); [reflexivity|].
    by rewrite decide_True.
Qed.

Lemma fireBribe_rate_limited_witness :
  let g := run sample_config [StartRunClick] (newGame sample_save) in
  let g' := fireBribe sample_config 1 g in
  num 0.09 ≤ bribeCooldownLeftSec g'
  ∧ canFire sample_config g' = false
  ∧ fireBribe sample_config 0 g' = g'.
Proof.
  apply (fireBribe_rate_limited sample_config sample_save [StartRunClick] 1 0).
  left. vm_compute. reflexivity.
Defined.

(** ** The end of a run *)

Lemma triggerGameOver_bestScore g :
  bestScore (saveData (triggerGameOver g))
  = Math_max (Math_floor (distance g)) (bestScore (saveData g)).
Proof.
  unfold triggerGameOver, Math_max. cbn zeta. fields.
  repeat case_decide; fields; try reflexivity; qc_arith.
Qed.

Lemma triggerGameOver_flags g :
  gameOver (triggerGameOver g) = true
  ∧ paused (triggerGameOver g) = true
  ∧ runActive (triggerGameOver g) = false
  ∧ coinsBalance (triggerGameOver g) = 0
  ∧ gameOverScoreMultiplier (triggerGameOver g) = 1
  ∧ gameOverBaseScore (triggerGameOver g) = Math_floor (distance g)
  ∧ sessionEarningsBase (triggerGameOver g) = runEarnings g
  ∧ storedSave (triggerGameOver g) = Some (saveData (triggerGameOver g))
  ∧ upgrades (saveData (triggerGameOver g)) = upgrades (saveData g).
Proof.
  unfold triggerGameOver, storeSave, showToast, runEarnings. cbn zeta.
  case_decide; fields; by repeat split.
Qed.

(** X11.  A lost run followed by the doubler: [triggerGameOver] pays the
    earnings of the run once, a granted doubler pays them a second time
    and raises the best score to twice the distance if that is a record,
    both payouts are written to the store, and a further click on the
    doubler changes nothing. *)
Theorem game_over_then_doubler (g : Game) :
  let fd := Math_floor (distance g) in
  let g1 := triggerGameOver g in
  let g2 := rewardX2Button_click true g1 in
  0 ≤ runEarnings g
  ∧ walletCoins (saveData g1) = walletCoins (saveData g) + runEarnings g
  ∧ bestScore (saveData g1) = Math_max fd (bestScore (saveData g))
  ∧ rewardX2Button_click false g1 = g1
  ∧ walletCoins (saveData g2) = walletCoins (saveData g) + runEarnings g + runEarnings g
  ∧ bestScore (saveData g2) = Math_max (fd * num 2) (Math_max fd (bestScore (saveData g)))
  ∧ storedSave g2 = Some (saveData g2)
  ∧ (∀ rewarded, rewardX2Button_click rewarded g2 = g2).
Proof.
  intros fd g1 g2.
  destruct (triggerGameOver_flags g)
    as (Hover & _ & _ & _ & Hmult & Hbase & Hearn & Hstored & _).
  fold g1 in Hover, Hmult, Hbase, Hearn, Hstored.
  pose proof (runEarnings_nonneg g) as Hpos.
  assert (Hfirst : bool_decide (gameOverScoreMultiplier g1 = num 2) = false).
  { rewrite Hmult. apply bool_decide_eq_false. qc_compute. }
  assert (Hg2 : g2 = rewardX2_granted g1).
  { unfold g2, rewardX2Button_click. by rewrite Hover, Hfirst. }
  split; [exact Hpos|].
  split; [apply triggerGameOver_wallet|].
  split; [apply triggerGameOver_bestScore|].
  split; [unfold rewardX2Button_click; by rewrite Hover, Hfirst|].
  split.
  { rewrite Hg2, rewardX2_granted_wallet, Hearn. unfold g1.
    rewrite triggerGameOver_wallet.
    destruct (decide (0 < runEarnings g)) as [Hsome|Hzero]; [reflexivity|].
    generalize dependent (runEarnings g). intros e. intros. qc_arith. }
  split.
  { rewrite Hg2, rewardX2_granted_bestScore, Hbase. unfold g1.
    rewrite triggerGameOver_bestScore. fold fd.
    generalize (Math_max fd (bestScore (saveData g))), (fd * num 2). intros best twice.
    unfold Math_max. repeat case_decide; try reflexivity; qc_arith. }
  split; [rewrite Hg2; apply rewardX2_granted_stored|].
  intros rewarded. apply rewardX2_guard_after_success.
  rewrite Hg2. apply rewardX2_granted_multiplier.
Qed.

Lemma runView_settle dt g :
  ∃ g2, runView g2 = runView g
        ∧ settle dt g = if decide (coinsBalance g2 ≤ 0) then triggerGameOver g2 else g2.
Proof.
  unfold settle. cbn zeta.
  match goal with
  | |- context [decide (coinsBalance ?g2 ≤ 0)] => exists g2
  end.
  split; [|reflexivity]. frame.
Qed.

Lemma update_runView config dt rnd g :
  match update config dt rnd g with
  | (g', Normal _) => ∃ g4, runView g4 = runView g ∧ g' = settle dt g4
  | (g', Throw) => runView g' = runView g
  end.
Proof.
  apply (update_reaches_settle config (λ g', runView g' = runView g));
    try reflexivity;
    try solve [ intros;
                match goal with
                | H : runView _ = runView g |- _ => rewrite <- H
                end;
                unfold_steps; frame ].
Qed.

Lemma beforeSettle_runView config dt rnd g :
  runView (beforeSettle config dt rnd g) = runView g.
Proof.
  apply (beforeSettle_steps config (λ g', runView g' = runView g));
    try reflexivity;
    try solve [ intros;
                match goal with
                | H : runView _ = runView g |- _ => rewrite <- H
                end;
                unfold_steps; frame ].
Qed.

Lemma update_beforeSettle config dt rnd g g' :
  update config dt rnd g = (g', Normal ()) →
  g' = settle dt (beforeSettle config dt rnd g).
Proof.
  unfold update, beforeSettle. cbn zeta.
  destruct (spawnAndMove config dt rnd _) as [g4 [[]|]]; cbn [fst]; [|discriminate].
  by intros [= <-].
Qed.

(** The last step of [update] on a purse that is empty or in debt, and on
    one that is not. *)
Lemma settle_broke dt g :
  coinsBalance g ≤ 0 →
  ∃ g2, settle dt g = triggerGameOver g2
        ∧ runView g2 = runView g ∧ runEarnings g2 = runEarnings g.
Proof.
  intros Hbroke. unfold settle. cbn zeta.
  match goal with
  | |- context [decide (coinsBalance ?g2 ≤ 0)] =>
      exists g2; assert (Hsame : coinsBalance g2 = coinsBalance g) by frame
  end.
  split; [|split].
  - rewrite decide_True; [reflexivity|]. by rewrite Hsame.
  - frame.
  - unfold runEarnings. frame.
Qed.

Lemma settle_afloat dt g :
  0 < coinsBalance g →
  runView (settle dt g) = runView g ∧ coinsBalance (settle dt g) = coinsBalance g.
Proof.
  intros Hafloat. unfold settle. cbn zeta.
  rewrite decide_False; [split; frame|].
  intros Hbroke. revert Hafloat Hbroke.
  match goal with
  | |- _ → coinsBalance ?g2 ≤ 0 → _ =>
      assert (Hsame : coinsBalance g2 = coinsBalance g) by frame; rewrite Hsame
  end.
  intros Hafloat Hbroke. qc_arith.
Qed.

(** X12.  A frame that completes on a game that is not over ends the run
    exactly when the purse is empty or in debt once the drain, the
    pickups and the impacts of the frame have been booked
    ([beforeSettle], the state the test of [update] reads the purse of).
    Then the purse is set to 0, the game is over, paused and inactive,
    and the earnings computed from that state, which are never negative,
    are added to the wallet and stored.  Otherwise the game is not over,
    the purse is the positive one that was tested, and the save and the
    flags are as before the frame. *)
Theorem update_ends_run_when_broke (config : GameConfig) (dt : Qc) (rnd : TickRandom)
    (g g' : Game)
    (Hdone : update config dt rnd g = (g', Normal ()))
    (Halive : gameOver g = false) :
  let g4 := beforeSettle config dt rnd g in
  (gameOver g' = true ↔ coinsBalance g4 ≤ 0)
  ∧ (coinsBalance g4 ≤ 0 →
       coinsBalance g' = 0 ∧ paused g' = true ∧ runActive g' = false
       ∧ sessionEarningsBase g' = runEarnings g4
       ∧ 0 ≤ runEarnings g4
       ∧ walletCoins (saveData g') = walletCoins (saveData g) + runEarnings g4
       ∧ storedSave g' = Some (saveData g'))
  ∧ (0 < coinsBalance g4 →
       coinsBalance g' = coinsBalance g4 ∧ saveData g' = saveData g
       ∧ paused g' = paused g ∧ runActive g' = runActive g).
Proof.
  apply update_beforeSettle in Hdone.
  pose proof (beforeSettle_runView config dt rnd g) as H4. cbv zeta.
  generalize dependent (beforeSettle config dt rnd g). intros g4 -> H4.
  assert (Hbroke : coinsBalance g4 ≤ 0 →
            gameOver (settle dt g4) = true
            ∧ coinsBalance (settle dt g4) = 0 ∧ paused (settle dt g4) = true
            ∧ runActive (settle dt g4) = false
            ∧ sessionEarningsBase (settle dt g4) = runEarnings g4
            ∧ 0 ≤ runEarnings g4
            ∧ walletCoins (saveData (settle dt g4))
              = walletCoins (saveData g) + runEarnings g4
            ∧ storedSave (settle dt g4) = Some (saveData (settle dt g4))).
  { intros Hbroke. destruct (settle_broke dt g4 Hbroke) as (g2 & -> & H2 & Hearn).
    rewrite H4 in H2. unfold runView in H2.
    injection H2 as _ _ _ Hsave _ _.
    destruct (triggerGameOver_flags g2)
      as (-> & -> & -> & -> & _ & _ & -> & -> & _).
    rewrite triggerGameOver_wallet, Hsave, Hearn.
    repeat split; try reflexivity. apply runEarnings_nonneg. }
  assert (Hafloat : 0 < coinsBalance g4 →
            gameOver (settle dt g4) = false
            ∧ coinsBalance (settle dt g4) = coinsBalance g4
            ∧ saveData (settle dt g4) = saveData g
            ∧ paused (settle dt g4) = paused g
            ∧ runActive (settle dt g4) = runActive g).
  { intros Hafloat. destruct (settle_afloat dt g4 Hafloat) as [Hview Hpurse].
    rewrite H4 in Hview. unfold runView in Hview.
    injection Hview as Hover Hpaused Hrun Hsave _ _.
    by rewrite Hover, Hpaused, Hrun, Hsave, Hpurse. }
  split; [split|split].
  - intros Hover. destruct (decide (coinsBalance g4 ≤ 0)) as [|Hpos]; [done|].
    assert (Hafloat' : 0 < coinsBalance g4) by qc_arith.
    apply Hafloat in Hafloat' as (Hstill & _). congruence.
  - intros Hbroke'. by apply Hbroke.
  - intros Hbroke'. by apply Hbroke in Hbroke' as (_ & Hrest).
  - intros Hafloat'. by apply Hafloat in Hafloat' as (_ & Hrest).
Qed.

Lemma update_ends_run_when_broke_witness :
  let g := startNewRun sample_poor_config (newGame sample_save) in
  let g' := (update sample_poor_config (num 0.016) sample_rolls g).1 in
  let g4 := beforeSettle sample_poor_config (num 0.016) sample_rolls g in
  coinsBalance g4 ≤ 0
  ∧ gameOver g' = true
  ∧ walletCoins (saveData g') = walletCoins (saveData g) + runEarnings g4.
Proof.
  intros g g' g4.
  destruct (update_ends_run_when_broke sample_poor_config (num 0.016) sample_rolls g g')
    as (Hover & Hbroke & _).
  - vm_compute. reflexivity.
  - reflexivity.
  - assert (Hempty : coinsBalance g4 ≤ 0) by qc_compute.
    split; [exact Hempty|]. split; [by apply Hover|].
    by apply Hbroke in Hempty as (_ & _ & _ & _ & _ & Hwallet & _).
Defined.

(** ** A configuration without obstacles *)

Lemma array_get_nil {A} (i : Qc) : array_get (@nil A) i = None.
Proof. unfold array_get. by case_decide. Qed.

Lemma spawnObstacle_empty config dt rnd g :
  cfg_obstacles config = [] → obstacleSpawnTimer g - dt ≤ 0 →
  (spawnObstacle config dt rnd g).2 = Throw.
Proof.
  intros Hempty Hdue. unfold spawnObstacle. cbn zeta. fields.
  rewrite decide_True by exact Hdue. by rewrite Hempty, array_get_nil.
Qed.

Lemma update_empty config dt rnd g :
  cfg_obstacles config = [] → obstacleSpawnTimer g - dt ≤ 0 →
  (update config dt rnd g).2 = Throw.
Proof.
  intros Hempty Hdue. unfold update, spawnAndMove. cbn zeta.
  match goal with
  | |- context [spawnObstacle config dt rnd ?g3] =>
      assert (H3 : obstacleSpawnTimer g3 = obstacleSpawnTimer g)
        by (unfold steerAndDrain, regenShield, tickTimers; frame);
      pose proof (spawnObstacle_empty config dt rnd g3 Hempty) as Hthrow;
      rewrite H3 in Hthrow; specialize (Hthrow Hdue);
      destruct (spawnObstacle config dt rnd g3) as [g4 [[]|]]
  end; [discriminate|reflexivity].
Qed.

(** X13.  With an empty list of obstacles the first spawn that falls due
    throws inside [update]: the loop stops for good, with the game neither
    paused nor over, and every later frame leaves it as it is. *)
Theorem empty_obstacle_list_halts_loop (config : GameConfig) (elapsedMs : Qc)
    (rnd : TickRandom) (g : Game)
    (Hempty : cfg_obstacles config = [])
    (Hlive : loopRunning g = true ∧ paused g = false ∧ gameOver g = false
             ∧ runActive g = true)
    (Hdue : obstacleSpawnTimer g ≤ Math_min (elapsedMs / num 1000) (num 0.05)) :
  let g' := loop config elapsedMs rnd g in
  loopRunning g' = false
  ∧ paused g' = false ∧ gameOver g' = false ∧ runActive g' = true
  ∧ saveData g' = saveData g
  ∧ (∀ elapsedMs' rnd', loop config elapsedMs' rnd' g' = g').
Proof.
  intros g'. destruct Hlive as (Hloop & Hpaused & Hover & Hrun).
  set (dt := Math_min (elapsedMs / num 1000) (num 0.05)) in *.
  assert (Hdue' : obstacleSpawnTimer g - dt ≤ 0) by qc_arith.
  pose proof (update_empty config dt rnd g Hempty Hdue') as Hthrow.
  pose proof (update_runView config dt rnd g) as Hview.
  assert (Hg' : g' = (update config dt rnd g).1 <| loopRunning := false |>).
  { unfold g', loop. rewrite Hloop, Hpaused, Hover, Hrun. cbn [negb andb]. fold dt.
    destruct (update config dt rnd g) as [g1 [[]|]]; [discriminate|reflexivity]. }
  destruct (update config dt rnd g) as [g1 [[]|]]; [discriminate|].
  cbn [fst] in Hg'. unfold runView in Hview.
  injection Hview as Hover1 Hpaused1 Hrun1 Hsave1 _ _.
  assert (Hstopped : loopRunning g' = false) by (by rewrite Hg').
  rewrite Hg' at 1 2 3 4 5. fields.
  split; [reflexivity|]. split; [congruence|]. split; [congruence|].
  split; [congruence|]. split; [exact Hsave1|].
  intros elapsedMs' rnd'. unfold loop. by rewrite Hstopped.
Qed.

Lemma empty_obstacle_list_halts_loop_witness :
  let g := run sample_config [StartRunClick] (newGame sample_save) in
  let g' := loop sample_config (num 16) sample_rolls g in
  loopRunning g' = false
  ∧ paused g' = false ∧ gameOver g' = false ∧ runActive g' = true
  ∧ saveData g' = saveData g
  ∧ (∀ elapsedMs' rnd', loop sample_config elapsedMs' rnd' g' = g').
Proof.
  apply (empty_obstacle_list_halts_loop sample_config (num 16) sample_rolls).
  - reflexivity.
  - by repeat split.
  - qc_compute.
Defined.

(** ** Upgrade levels *)

Lemma Qfloor_of_Z (z : Z) : Qfloor (Qc_of_Z z) = z.
Proof. unfold Qc_of_Z. cbn [this]. apply Qfloor_Z. Qed.

Lemma Math_floor_of_Z (z : Z) : Math_floor (Qc_of_Z z) = Qc_of_Z z.
Proof. unfold Math_floor. by rewrite Qfloor_of_Z. Qed.

Lemma array_get_whole {A} (l : list A) (z : Z) :
  array_get l (Qc_of_Z z) = if decide (0 ≤ z)%Z then l !! Z.to_nat z else None.
Proof.
  unfold array_get. rewrite Math_floor_of_Z, Qfloor_of_Z, <- Qc_of_Z_0.
  case_decide as Hq; case_decide as Hz; try reflexivity.
  - destruct Hq as [_ Hq]. exfalso. apply Hz. exact (proj2 (Qc_of_Z_le 0 z) Hq).
  - exfalso. apply Hq. split; [reflexivity|]. exact (proj1 (Qc_of_Z_le 0 z) Hz).
Qed.

Lemma array_get_index {A} (l : list A) (n : nat) :
  array_get l (Qc_of_Z (Z.of_nat n)) = l !! n.
Proof.
  rewrite array_get_whole, decide_True by lia. by rewrite Nat2Z.id.
Qed.

Lemma Math_min_of_Z (a b : Z) : Math_min (Qc_of_Z a) (Qc_of_Z b) = Qc_of_Z (Z.min a b).
Proof.
  unfold Math_min. case_decide as Hle.
  - apply Qc_of_Z_le in Hle. by rewrite Z.min_l.
  - apply Qcnot_le_lt in Hle. apply Qc_of_Z_lt in Hle. by rewrite Z.min_r by lia.
Qed.

Lemma currentLevelEffect_whole config branchId g branch (n : nat) :
  find (λ item, bool_decide (branch_id item = branchId)) (cfg_upgrades config) = Some branch →
  default 0 (upgrades (saveData g) !! branch_id branch) = Qc_of_Z (Z.of_nat (S n)) →
  currentLevelEffect config branchId g
  = match branch_levels branch !! (Nat.min (S n) (length (branch_levels branch)) - 1)%nat with
    | Some selectedLevel => Normal (level_effect selectedLevel)
    | None => Throw
    end.
Proof.
  intros Hbranch Hlevel. unfold currentLevelEffect. rewrite Hbranch. cbn zeta.
  rewrite Hlevel. rewrite decide_False.
  2:{ rewrite <- Qc_of_Z_0. intros Hle. apply Qc_of_Z_le in Hle. lia. }
  rewrite Math_min_of_Z, <- Qc_of_Z_1, <- Qc_of_Z_minus, array_get_whole.
  destruct (branch_levels branch) as [|level levels] eqn:Hlevels.
  - cbn [length]. rewrite Z.min_r by lia. by rewrite decide_False by lia.
  - rewrite decide_True by (cbn [length]; lia).
    replace (Z.to_nat (Z.min (Z.of_nat (S n)) (Z.of_nat (length (level :: levels))) - 1))
      with (Nat.min (S n) (length (level :: levels)) - 1)%nat by lia.
    reflexivity.
Qed.

(** X14.  Which level [currentLevelEffect] applies: none for an unknown
    branch, an absent level or level 0; for a whole level [n > 0] the
    effect of level [n], or of the last level when [n] exceeds their
    number; and the read throws exactly when the branch has no levels. *)
Theorem currentLevelEffect_by_level (config : GameConfig) (branchId : string) (g : Game)
    (branch : UpgradeBranchConfig) (n : nat)
    (Hbranch : find (λ item, bool_decide (branch_id item = branchId)) (cfg_upgrades config)
               = Some branch)
    (Hlevel : default 0 (upgrades (saveData g) !! branch_id branch) = Qc_of_Z (Z.of_nat n)) :
  (n = 0%nat → currentLevelEffect config branchId g = Normal noUpgradeEffect)
  ∧ (∀ selectedLevel, (0 < n)%nat →
       branch_levels branch !! (n - 1)%nat = Some selectedLevel →
       currentLevelEffect config branchId g = Normal (level_effect selectedLevel))
  ∧ (∀ lastLevel, (length (branch_levels branch) < n)%nat →
       last (branch_levels branch) = Some lastLevel →
       currentLevelEffect config branchId g = Normal (level_effect lastLevel))
  ∧ ((0 < n)%nat → (currentLevelEffect config branchId g = Throw ↔ branch_levels branch = []))
  ∧ (∀ g0 otherId,
       find (λ item, bool_decide (branch_id item = otherId)) (cfg_upgrades config) = None →
       currentLevelEffect config otherId g0 = Normal noUpgradeEffect).
Proof.
  split; [|split; [|split; [|split]]].
  - intros ->. unfold currentLevelEffect. rewrite Hbranch. cbn zeta. rewrite Hlevel.
    rewrite decide_True; [reflexivity|]. qc_compute.
  - intros selectedLevel Hpos Hsel. destruct n as [|n]; [lia|].
    rewrite (currentLevelEffect_whole config branchId g branch n Hbranch Hlevel).
    apply lookup_lt_Some in Hsel as Hlen.
    replace (Nat.min (S n) (length (branch_levels branch)) - 1)%nat with (S n - 1)%nat by lia.
    by rewrite Hsel.
  - intros lastLevel Hbeyond Hlast. destruct n as [|n]; [lia|].
    rewrite (currentLevelEffect_whole config branchId g branch n Hbranch Hlevel).
    rewrite last_lookup in Hlast.
    replace (Nat.min (S n) (length (branch_levels branch)) - 1)%nat
      with (Nat.pred (length (branch_levels branch))) by lia.
    by rewrite Hlast.
  - intros Hpos. destruct n as [|n]; [lia|].
    rewrite (currentLevelEffect_whole config branchId g branch n Hbranch Hlevel).
    destruct (branch_levels branch) as [|level levels] eqn:Hlevels; [done|].
    destruct (lookup_lt_is_Some_2 (level :: levels)
                (Nat.min (S n) (length (level :: levels)) - 1)%nat) as [sel ->].
    { cbn [length]. lia. }
    split; discriminate.
  - intros g0 otherId Hnone. unfold currentLevelEffect. by rewrite Hnone.
Qed.

Lemma currentLevelEffect_by_level_witness :
  let g := newGame (sample_shop_save (num 5)) in
  currentLevelEffect sample_shop_config "defense" g
  = Normal (level_effect (sample_level (num 80) "Hull" (num 2))).
Proof.
  pose proof (currentLevelEffect_by_level sample_shop_config "defense"
                (newGame (sample_shop_save (num 5))) sample_defense 5) as H.
  destruct H as (_ & _ & Hlast & _).
  - reflexivity.
  - apply Qc_is_canon. vm_compute. reflexivity.
  - apply Hlast; [cbn; lia | reflexivity].
Defined.

Lemma Qc_of_nat_succ (n : nat) : Qc_of_Z (Z.of_nat n) + 1 = Qc_of_Z (Z.of_nat (S n)).
Proof. by rewrite Nat2Z.inj_succ, <- Z.add_1_r, Qc_of_Z_plus, Qc_of_Z_1. Qed.

(** X15.  A purchase: with enough coins [buyUpgrade] takes exactly the
    price of the next level from the wallet, which stays non-negative,
    raises the level of the branch by one, writes the save to the store,
    and the next run reads the effect of the level just bought.  With a
    short wallet, at the last level or for an unknown branch nothing is
    bought. *)
Theorem buyUpgrade_buys_next_level (config : GameConfig) (branchId : string) (g : Game)
    (branch : UpgradeBranchConfig) (n : nat) (next : UpgradeLevelConfig)
    (Hbranch : find (λ item, bool_decide (branch_id item = branchId)) (cfg_upgrades config)
               = Some branch)
    (Hlevel : default 0 (upgrades (saveData g) !! branch_id branch) = Qc_of_Z (Z.of_nat n))
    (Hnext : branch_levels branch !! n = Some next)
    (Hfunds : level_cost next ≤ walletCoins (saveData g)) :
  let g' := buyUpgrade config branchId g in
  walletCoins (saveData g') = walletCoins (saveData g) - level_cost next
  ∧ 0 ≤ walletCoins (saveData g')
  ∧ upgrades (saveData g')
    = <[branch_id branch := Qc_of_Z (Z.of_nat (S n))]> (upgrades (saveData g))
  ∧ bestScore (saveData g') = bestScore (saveData g)
  ∧ storedSave g' = Some (saveData g')
  ∧ toast g' = Some (ToastPurchase (level_title next))
  ∧ currentLevelEffect config branchId g' = Normal (level_effect next)
  ∧ (∀ g0, default 0 (upgrades (saveData g0) !! branch_id branch) = Qc_of_Z (Z.of_nat n) →
           walletCoins (saveData g0) < level_cost next →
           buyUpgrade config branchId g0 = showToast ToastWalletShort g0)
  ∧ (∀ g0 m, default 0 (upgrades (saveData g0) !! branch_id branch) = Qc_of_Z (Z.of_nat m) →
             (length (branch_levels branch) ≤ m)%nat →
             buyUpgrade config branchId g0 = g0)
  ∧ (∀ g0 otherId,
       find (λ item, bool_decide (branch_id item = otherId)) (cfg_upgrades config) = None →
       buyUpgrade config otherId g0 = g0).
Proof.
  intros g'.
  assert (Hg' : g' = showToast (ToastPurchase (level_title next))
                       (storeSave
                          (g <| saveData ::= λ s, with_walletCoins (walletCoins s - level_cost next) s |>
                             <| saveData ::= λ s, with_upgrades
                                  (<[branch_id branch := Qc_of_Z (Z.of_nat (S n))]> (upgrades s)) s |>))).
  { unfold g', buyUpgrade. rewrite Hbranch. cbn zeta. rewrite Hlevel, array_get_index, Hnext.
    rewrite decide_False by (by apply Qcle_not_lt). by rewrite Qc_of_nat_succ. }
  assert (Hups : upgrades (saveData g')
                 = <[branch_id branch := Qc_of_Z (Z.of_nat (S n))]> (upgrades (saveData g)))
    by (by rewrite Hg').
  split; [by rewrite Hg'|].
  split; [rewrite Hg'; unfold showToast, storeSave; fields; qc_arith|].
  split; [exact Hups|].
  split; [by rewrite Hg'|]. split; [by rewrite Hg'|]. split; [by rewrite Hg'|].
  split.
  { rewrite (currentLevelEffect_whole config branchId g' branch n Hbranch).
    - apply lookup_lt_Some in Hnext as Hlen.
      replace (Nat.min (S n) (length (branch_levels branch)) - 1)%nat with n by lia.
      by rewrite Hnext.
    - by rewrite Hups, lookup_insert_eq. }
  split.
  { intros g0 H0 Hshort. unfold buyUpgrade. rewrite Hbranch. cbn zeta.
    rewrite H0, array_get_index, Hnext. by rewrite decide_True. }
  split.
  { intros g0 m H0 Hmax. unfold buyUpgrade. rewrite Hbranch. cbn zeta.
    rewrite H0, array_get_index. by rewrite lookup_ge_None_2. }
  intros g0 otherId Hnone. unfold buyUpgrade. by rewrite Hnone.
Qed.

Lemma buyUpgrade_buys_next_level_witness :
  let g := newGame (sample_shop_save 1) in
  let g' := buyUpgrade sample_shop_config "defense" g in
  walletCoins (saveData g') = walletCoins (saveData g) - num 80
  ∧ currentLevelEffect sample_shop_config "defense" g'
    = Normal (level_effect (sample_level (num 80) "Hull" (num 2))).
Proof.
  pose proof (buyUpgrade_buys_next_level sample_shop_config "defense"
                (newGame (sample_shop_save 1)) sample_defense 1
                (sample_level (num 80) "Hull" (num 2))) as H.
  destruct H as (Hwallet & _ & _ & _ & _ & _ & Heffect & _).
  - reflexivity.
  - apply Qc_is_canon. vm_compute. reflexivity.
  - reflexivity.
  - qc_compute.
  - split; [exact Hwallet | exact Heffect].
Defined.

(** ** The start of a run *)

Lemma currentLevelEffect_save config branchId g g' :
  saveData g' = saveData g →
  currentLevelEffect config branchId g' = currentLevelEffect config branchId g.
Proof. intros Hsave. unfold currentLevelEffect. by rewrite Hsave. Qed.

(** X16.  A new run: [startNewRun] resets the run, makes it active and
    unpaused whatever the platform pause depth, and applies the current
    level of the three branches with their floors; the shield starts
    full, the regeneration and free-shot timers start at their periods,
    and the save, the boat and the death count are kept.  When the read
    of the first branch throws, the run is active all the same, without
    upgrades and without the start toast. *)
Theorem startNewRun_applies_upgrades (config : GameConfig) (g : Game)
    (defense farm skills : UpgradeEffect)
    (Hdefense : currentLevelEffect config "defense" g = Normal defense)
    (Hfarm : currentLevelEffect config "farm" g = Normal farm)
    (Hskills : currentLevelEffect config "skills" g = Normal skills) :
  let g' := startNewRun config g in
  (runActive g' = true ∧ paused g' = false ∧ manualPaused g' = false
   ∧ gameOver g' = false ∧ audioMuted g' = false)
  ∧ (coinsBalance g' = startCoins (economy config) ∧ elapsedSec g' = 0 ∧ distance g' = 0
     ∧ soulsCollected g' = 0%Z ∧ sessionEarningsBase g' = 0)
  ∧ (obstacles g' = [] ∧ coins g' = [] ∧ projectiles g' = [] ∧ gates g' = []
     ∧ effects g' = [])
  ∧ (shieldMax g' = Math_max 0 (Math_floor (default 0 (shieldStart defense)))
     ∧ shieldCount g' = shieldMax g'
     ∧ shieldRegenSec g' = Math_max 0 (default 0 (up_shieldRegenSec defense))
     ∧ shieldRegenTimer g' = shieldRegenSec g'
     ∧ obstacleDamageMult g' = Math_max (num 0.1) (default 1 (up_obstacleDamageMult defense)))
  ∧ (magnetMult g' = Math_max 1 (default 1 (up_magnetMult farm))
     ∧ soulValueMult g' = Math_max (num 0.1) (default 1 (up_soulValueMult farm))
     ∧ doubleSoulChance g' = clamp (default 0 (up_doubleSoulChance farm)) 0 1)
  ∧ (bribeCooldownMult g' = Math_max (num 0.2) (default 1 (up_bribeCooldownMult skills))
     ∧ freeBribeEverySec g' = Math_max 0 (default 0 (up_freeBribeEverySec skills))
     ∧ bribeSplashRadius g' = Math_max 0 (default 0 (up_bribeSplashRadius skills))
     ∧ freeBribeTimerSec g' = freeBribeEverySec g'
     ∧ freeBribeReady g' = false ∧ bribeCooldownLeftSec g' = 0)
  ∧ (saveData g' = saveData g ∧ player g' = player g ∧ deathCount g' = deathCount g
     ∧ platformPauseDepth g' = platformPauseDepth g)
  ∧ toast g' = Some ToastStartRun
  ∧ (∀ g0, currentLevelEffect config "defense" g0 = Throw →
       startNewRun config g0
       = (reset config g0) <| runActive := true |> <| paused := false |>
           <| manualPaused := false |> <| pausedByUser := false |>
           <| audioMuted := false |>).
Proof.
  intros g'.
  assert (Hg' : ∃ g1, saveData g1 = saveData g
                ∧ g1 = (reset config g) <| runActive := true |> <| paused := false |>
                         <| manualPaused := false |> <| pausedByUser := false |>
                         <| audioMuted := false |>
                ∧ g' = showToast ToastStartRun
                         (applySkills skills (applyFarm farm (applyDefense defense g1)))).
  { eexists. split; [|split; [reflexivity|]]; [reflexivity|].
    unfold g', startNewRun, applyMetaUpgradesForRun. cbn zeta.
    rewrite (currentLevelEffect_save config "defense" g) by reflexivity. rewrite Hdefense.
    rewrite (currentLevelEffect_save config "farm" g) by reflexivity. rewrite Hfarm.
    rewrite (currentLevelEffect_save config "skills" g) by reflexivity. rewrite Hskills.
    reflexivity. }
  destruct Hg' as (g1 & Hsave & Hg1 & Hg').
  split; [|split; [|split; [|split; [|split; [|split; [|split; [|split]]]]]]].
  - rewrite Hg', Hg1. by repeat split.
  - rewrite Hg', Hg1. by repeat split.
  - rewrite Hg', Hg1. by repeat split.
  - rewrite Hg'. by repeat split.
  - rewrite Hg'. by repeat split.
  - rewrite Hg'. by repeat split.
  - rewrite Hg', Hg1. by repeat split.
  - by rewrite Hg'.
  - intros g0 Hthrow. unfold startNewRun, applyMetaUpgradesForRun. cbn zeta.
    rewrite (currentLevelEffect_save config "defense" g0) by reflexivity.
    by rewrite Hthrow.
Qed.

Lemma startNewRun_applies_upgrades_witness :
  let g' := startNewRun sample_shop_config (newGame (sample_shop_save 1)) in
  shieldMax g' = 1 ∧ shieldCount g' = shieldMax g' ∧ runActive g' = true
  ∧ toast g' = Some ToastStartRun.
Proof.
  pose proof (startNewRun_applies_upgrades sample_shop_config
                (newGame (sample_shop_save 1))
                (level_effect (sample_level (num 30) "Plank" 1))
                noUpgradeEffect noUpgradeEffect) as H.
  destruct H as ((Hactive & _) & _ & _ & (Hmax & Hcount & _) & _ & _ & _ & Htoast & _).
  - vm_compute. reflexivity.
  - reflexivity.
  - reflexivity.
  - cbv zeta. rewrite Hcount, Hmax. split; [|split; [reflexivity|split; [exact Hactive|exact Htoast]]].
    apply Qc_is_canon. vm_compute. reflexivity.
Defined.

(** ** Storing and loading the save *)

Lemma obj_get_unique {V} (k : string) (fields : list (string * V)) :
  NoDup fields.*1 →
  obj_get k fields = list_to_map (M := gmap string V) fields !! k.
Proof.
  induction fields as [|[k' v] fields IH]; intros Hdup; [symmetry; apply lookup_empty|].
  cbn [fmap list_fmap fst] in Hdup. apply NoDup_cons in Hdup as [Hfresh Hdup].
  cbn [obj_get list_to_map foldr]. rewrite (IH Hdup). cbn [uncurry].
  destruct (decide (k' = k)) as [->|Hother].
  - rewrite lookup_insert_eq.
    by rewrite (not_elem_of_list_to_map_1 (M := gmap string) fields k Hfresh).
  - rewrite lookup_insert_ne by exact Hother. by destruct (list_to_map fields !! k).
Qed.

Lemma obj_get_map_to_list {V} (k : string) (m : gmap string V) :
  obj_get k (map_to_list m) = m !! k.
Proof.
  rewrite obj_get_unique by apply NoDup_fst_map_to_list.
  by rewrite list_to_map_to_list.
Qed.

Lemma save_json_fields (s : SaveData Qc) :
  match save_json s with
  | JObj fields =>
      obj_get "bestScore" fields = Some (JNum (bestScore s))
      ∧ obj_get "walletCoins" fields = Some (JNum (walletCoins s))
      ∧ obj_get "upgrades" fields = Some (JObj (map_to_list (JNum <$> upgrades s)))
  | _ => False
  end.
Proof. unfold save_json. by repeat split. Qed.

(** X17.  Storing and loading again: when the stored text parses to the
    JSON tree of a save, [load] returns that save, with level 0 added for
    every configured branch the save does not mention; a save that
    mentions every configured branch is returned as it was stored. *)
Theorem store_then_load (parse : string → completion json)
    (upgrades0 : list UpgradeBranchConfig) (s : SaveData Qc) (raw : string)
    (Hraw : raw ≠ EmptyString)
    (Hparse : parse raw = Normal (save_json s)) :
  SaveService.load parse upgrades0 (SaveService.Item raw)
  = Normal (SaveData_map JNum
              (with_upgrades (upgrades s ∪ upgrades (SaveService.defaults upgrades0)) s))
  ∧ ((∀ branch, branch ∈ branch_id <$> upgrades0 → is_Some (upgrades s !! branch)) →
     SaveService.load parse upgrades0 (SaveService.Item raw) = Normal (SaveData_map JNum s)).
Proof.
  assert (Hload : SaveService.load parse upgrades0 (SaveService.Item raw)
                  = Normal (SaveData_map JNum
                      (with_upgrades (upgrades s ∪ upgrades (SaveService.defaults upgrades0)) s))).
  { unfold SaveService.load, SaveService.load_body. cbn zeta.
    rewrite decide_False by exact Hraw. rewrite Hparse.
    destruct (save_json_fields s) as (Hbest & Hwallet & Hups).
    unfold save_json, SaveService.get_prop in *. cbn [mbind completion_bind].
    rewrite Hbest, Hwallet, Hups.
    cbn [try_catch SaveService.nullish bestScore walletCoins upgrades SaveData_map].
    unfold with_upgrades, SaveData_map. cbn [bestScore walletCoins upgrades].
    do 2 f_equal. apply map_eq. intros k.
    unfold SaveService.spread. cbn [SaveService.own_entries].
    rewrite foldl_insert_lookup, obj_get_map_to_list, !lookup_fmap, lookup_union.
    by destruct (upgrades s !! k) as [v|],
      (upgrades (SaveService.defaults upgrades0) !! k). }
  split; [exact Hload|].
  intros Hall. rewrite Hload. f_equal. unfold with_upgrades, SaveData_map.
  cbn [bestScore walletCoins upgrades]. do 3 f_equal.
  apply map_eq. intros k. rewrite lookup_union.
  rewrite defaults_lookup.
  destruct (upgrades s !! k) as [v|] eqn:Hk; [by case_decide|].
  case_decide as Hin; [|reflexivity].
  apply Hall in Hin as [v Hv]. congruence.
Qed.

Lemma store_then_load_witness :
  SaveService.load (λ _, Normal (save_json (sample_shop_save (num 2)))) [sample_defense]
    (SaveService.Item "{}")
  = Normal (SaveData_map JNum (sample_shop_save (num 2))).
Proof.
  pose proof (store_then_load (λ _, Normal (save_json (sample_shop_save (num 2))))
                [sample_defense] (sample_shop_save (num 2)) "{}") as H.
  destruct H as [_ Hsame]; [discriminate | reflexivity |].
  apply Hsame. intros branch Hin. apply list_elem_of_singleton in Hin as ->.
  by eexists.
Defined.

(** ** Platform suspensions, nested *)

Lemma suspends_shape n g :
  platformPauseDepth g = 0%Z →
  suspends (S n) g
  = g <| wasPausedBeforePlatformPause := paused g |>
      <| wasMutedBeforePlatformPause := audioMuted g |>
      <| platformPauseDepth := Z.of_nat (S n) |>
      <| paused := true |> <| pausedByUser := false |> <| audioMuted := true |>.
Proof.
  intros Hdepth. unfold suspends. induction n as [|n IH].
  - change (Nat.iter 1 platform_onPause g) with (platform_onPause g).
    destruct g. cbn in Hdepth. subst.
    unfold platform_onPause. fields. case_decide; [reflexivity|done].
  - change (Nat.iter (S (S n)) platform_onPause g)
      with (platform_onPause (Nat.iter (S n) platform_onPause g)).
    rewrite IH. destruct g. unfold platform_onPause. fields.
    case_decide; [lia|]. fields. do 2 f_equal. lia.
Qed.

Lemma resumes_pending n k g :
  platformPauseDepth g = Z.of_nat (k + S n) →
  resumes k g = g <| platformPauseDepth := Z.of_nat (S n) |>.
Proof.
  unfold resumes. revert n. induction k as [|k IH]; intros n Hdepth.
  - change (Nat.iter 0 platform_onResume g) with g. destruct g. cbn in *. by subst.
  - change (Nat.iter (S k) platform_onResume g)
      with (platform_onResume (Nat.iter k platform_onResume g)).
    rewrite (IH (S n)) by (rewrite Hdepth; f_equal; lia).
    destruct g. unfold platform_onResume. fields.
    case_decide; [lia|]. fields. case_decide; [|lia]. do 2 f_equal. lia.
Qed.

Lemma resumes_last n g :
  platformPauseDepth g = Z.of_nat (S n) →
  resumes (S n) g
  = g <| platformPauseDepth := 0%Z |>
      <| paused := gameOver g || manualPaused g || wasPausedBeforePlatformPause g |>
      <| audioMuted := wasMutedBeforePlatformPause g |>.
Proof.
  intros Hdepth. unfold resumes.
  change (Nat.iter (S n) platform_onResume g)
    with (platform_onResume (resumes n g)).
  rewrite (resumes_pending 0 n g) by (rewrite Hdepth; f_equal; lia).
  destruct g. unfold platform_onResume. fields.
  case_decide; [lia|]. fields. case_decide; [lia|]. reflexivity.
Qed.

(** X18.  Nested platform suspensions undo themselves: from a game the
    handlers can produce, at depth 0, any number of suspends followed by
    as many resumes gives back the pause flag and the mute flag the game
    had, and only forgets who paused it; until the last resume the game
    stays paused and muted, and a further resume changes nothing. *)
Theorem suspend_resume_round_trip (config : GameConfig) (save : SaveData Qc)
    (evs : list Event) (n : nat)
    (Hdepth : platformPauseDepth (run config evs (newGame save)) = 0%Z) :
  let g := run config evs (newGame save) in
  let suspended := suspends (S n) g in
  let back := resumes (S n) suspended in
  (paused suspended = true ∧ audioMuted suspended = true
   ∧ platformPauseDepth suspended = Z.of_nat (S n))
  ∧ (∀ k, (k ≤ n)%nat →
       paused (resumes k suspended) = true ∧ audioMuted (resumes k suspended) = true)
  ∧ back = g <| pausedByUser := false |>
             <| wasPausedBeforePlatformPause := paused g |>
             <| wasMutedBeforePlatformPause := audioMuted g |>
  ∧ paused back = paused g
  ∧ audioMuted back = audioMuted g
  ∧ platformPauseDepth back = 0%Z
  ∧ platform_onResume back = back.
Proof.
  intros g suspended back.
  destruct (run_steady config save evs) as (_ & _ & Hstop & _).
  pose proof (run_invariant pause_inv config (handle_pause_inv config) evs (newGame save)
                (newGame_pause_inv save)) as Hmanual.
  fold g in Hdepth, Hstop, Hmanual.
  assert (Hsusp : suspended
                  = g <| wasPausedBeforePlatformPause := paused g |>
                      <| wasMutedBeforePlatformPause := audioMuted g |>
                      <| platformPauseDepth := Z.of_nat (S n) |>
                      <| paused := true |> <| pausedByUser := false |>
                      <| audioMuted := true |>)
    by (by apply suspends_shape).
  assert (Hstay : gameOver g || manualPaused g || paused g = paused g).
  { destruct (paused g) eqn:Hp; [by rewrite orb_true_r|]. rewrite orb_false_r.
    destruct (gameOver g) eqn:Ho; [destruct (Hstop Ho); congruence|].
    destruct (manualPaused g) eqn:Hm; [|reflexivity].
    pose proof (Hmanual Hm). congruence. }
  assert (Hback : back = g <| pausedByUser := false |>
                           <| wasPausedBeforePlatformPause := paused g |>
                           <| wasMutedBeforePlatformPause := audioMuted g |>).
  { unfold back. rewrite (resumes_last n suspended) by (by rewrite Hsusp).
    rewrite Hsusp. fields. rewrite Hstay.
    generalize dependent g. intros g0. intros. destruct g0. cbn in *. by subst. }
  split; [rewrite Hsusp; by repeat split|].
  split.
  { intros k Hk.
    rewrite (resumes_pending (n - k) k suspended)
      by (rewrite Hsusp; fields; f_equal; lia).
    rewrite Hsusp. by split. }
  split; [exact Hback|].
  rewrite Hback. repeat (split; [first [reflexivity | exact Hdepth]|]).
  unfold platform_onResume. fields. rewrite decide_True by lia. reflexivity.
Qed.

Lemma suspend_resume_round_trip_witness :
  let g := run sample_config [StartRunClick] (newGame sample_save) in
  let back := resumes 3 (suspends 3 g) in
  paused back = paused g ∧ audioMuted back = audioMuted g
  ∧ platformPauseDepth back = 0%Z.
Proof.
  pose proof (suspend_resume_round_trip sample_config sample_save [StartRunClick] 2) as H.
  destruct H as (_ & _ & _ & Hpaused & Hmuted & Hzero & _); [reflexivity|].
  split; [exact Hpaused|]. split; [exact Hmuted|exact Hzero].
Defined.

(** ** Pickups and projectiles *)

Lemma collectCoin_reach (boat : Body) radiusSq rolls index (coin : CoinEntity) g :
  (collectCoin boat radiusSq rolls index coin g).2
  = bool_decide (¬ (distanceSq boat coin ≤ radiusSq ∨ intersects boat coin = true)).
Proof.
  unfold collectCoin.
  destruct (negb (bool_decide (distanceSq boat coin ≤ radiusSq))
            && negb (intersects boat coin)) eqn:Hfar.
  - apply andb_true_iff in Hfar as [Hmagnet Htouch].
    apply negb_true_iff in Hmagnet, Htouch. apply bool_decide_eq_false in Hmagnet.
    cbn [snd]. symmetry. apply bool_decide_eq_true. intros [?|?]; [tauto|congruence].
  - apply andb_false_iff in Hfar as [Hmagnet|Htouch].
    + apply negb_false_iff, bool_decide_eq_true in Hmagnet.
      destruct (decide (rolls index < _)); cbn [snd]; symmetry;
        apply bool_decide_eq_false; tauto.
    + apply negb_false_iff in Htouch.
      destruct (decide (rolls index < _)); cbn [snd]; symmetry;
        apply bool_decide_eq_false; tauto.
Qed.

Lemma collectCoin_filter (boat : Body) radiusSq rolls (coins0 : list CoinEntity) index g :
  (filter_with (collectCoin boat radiusSq rolls) index coins0 g).2
  = filter (λ coin, ¬ (distanceSq boat coin ≤ radiusSq ∨ intersects boat coin = true)) coins0.
Proof.
  revert index g. induction coins0 as [|coin coins0 IH]; intros index g; [reflexivity|].
  cbn [filter_with].
  pose proof (collectCoin_reach boat radiusSq rolls index coin g) as Hkeep.
  destruct (collectCoin boat radiusSq rolls index coin g) as [g1 keep]. cbn [snd] in Hkeep.
  specialize (IH (S index) g1).
  destruct (filter_with _ (S index) coins0 g1) as [g2 kept]. cbn [snd] in *.
  rewrite filter_cons, <- IH, Hkeep.
  unfold bool_decide.
  destruct (decide (¬ _)) as [H1|H1], (not_dec _) as [H2|H2];
    try reflexivity; contradiction.
Qed.

(** X19.  A coin within reach of the magnet or touching the boat is
    collected: it pays its value times the soul-value modifier and the
    pickup multiplier, twice when the roll falls under the double-soul
    chance, and counts one or two souls; a coin out of reach is kept and
    changes nothing, so the coins that remain after the filter are
    exactly the ones out of reach. *)
Theorem collectCoin_pays (rolls : nat → Qc) (index : nat) (coin : CoinEntity) (g : Game)
    (Hreach : coinInReach coin g) :
  let radiusSq := BASE_MAGNET_RADIUS * magnetMult g * (BASE_MAGNET_RADIUS * magnetMult g) in
  let result := collectCoin (boatBody g) radiusSq rolls index coin g in
  result.2 = false
  ∧ (rolls index < doubleSoulChance g →
       coinsBalance result.1 = coinsBalance g + (coinValue coin g + coinValue coin g)
       ∧ soulsCollected result.1 = (soulsCollected g + 2)%Z)
  ∧ (¬ rolls index < doubleSoulChance g →
       coinsBalance result.1 = coinsBalance g + coinValue coin g
       ∧ soulsCollected result.1 = (soulsCollected g + 1)%Z)
  ∧ (∀ other i g0, ¬ coinInReach other g →
       collectCoin (boatBody g) radiusSq rolls i other g0 = (g0, true))
  ∧ (∀ coins0 i g0,
       (filter_with (collectCoin (boatBody g) radiusSq rolls) i coins0 g0).2
       = filter (λ other, ¬ (distanceSq (boatBody g) other ≤ radiusSq
                             ∨ intersects (boatBody g) other = true)) coins0).
Proof.
  intros radiusSq result.
  assert (Hin : negb (bool_decide (distanceSq (boatBody g) coin ≤ radiusSq))
                && negb (intersects (boatBody g) coin) = false).
  { destruct Hreach as [Hmagnet| ->]; [|by rewrite andb_false_r].
    by rewrite bool_decide_eq_true_2. }
  split; [|split; [|split; [|split]]].
  - unfold result. rewrite collectCoin_reach. by apply bool_decide_eq_false_2; intros [].
  - intros Hlucky. unfold result, collectCoin. rewrite Hin. fields.
    rewrite decide_True by exact Hlucky. unfold showToast. fields.
    split; [reflexivity|]. unfold Z.succ. lia.
  - intros Hplain. unfold result, collectCoin. rewrite Hin. fields.
    rewrite decide_False by exact Hplain. unfold showToast. fields.
    split; [reflexivity|]. unfold Z.succ. lia.
  - intros other i g0 Hfar. unfold collectCoin.
    unfold coinInReach in Hfar. fold radiusSq in Hfar.
    destruct (intersects (boatBody g) other) eqn:Htouch; [tauto|].
    rewrite bool_decide_eq_false_2 by tauto. reflexivity.
  - intros coins0 i g0. apply collectCoin_filter.
Qed.

Lemma collectCoin_pays_witness :
  let g := newGame sample_save in
  let result := collectCoin (boatBody g)
                  (BASE_MAGNET_RADIUS * magnetMult g * (BASE_MAGNET_RADIUS * magnetMult g))
                  (λ _, 1) 0 sample_coin g in
  result.2 = false ∧ coinsBalance result.1 = coinsBalance g + coinValue sample_coin g.
Proof.
  pose proof (collectCoin_pays (λ _, 1) 0 sample_coin (newGame sample_save)) as H.
  destruct H as (Hgone & _ & Hplain & _).
  - left. qc_compute.
  - split; [exact Hgone|]. apply Hplain. qc_compute.
Defined.

Lemma hitProjectile_miss index projectile g :
  (∀ obstacle, obstacle ∈ obstacles g → intersects projectile obstacle = false) →
  hitProjectile index projectile g = (g, true).
Proof.
  intros Hmiss. unfold hitProjectile.
  destruct (list_find _ (obstacles g)) as [[k hit]|] eqn:Hfind; [|reflexivity].
  apply list_find_Some in Hfind as (Hk & Hhit & _).
  apply list_elem_of_lookup_2 in Hk. rewrite (Hmiss hit Hk) in Hhit. discriminate.
Qed.

(** X20.  A projectile that touches no obstacle flies on and changes
    nothing.  One that touches an obstacle is spent and removes the first
    obstacle it touches; with a splash radius it also removes every
    obstacle whose centre lies within that radius of the target, and
    nothing else: no other field of the game changes and no obstacle is
    added. *)
Theorem hitProjectile_removes_target (index : nat) (projectile : ProjectileEntity)
    (g : Game) :
  let result := hitProjectile index projectile g in
  ((∀ obstacle, obstacle ∈ obstacles g → intersects projectile obstacle = false) →
     result = (g, true))
  ∧ (∀ k hit,
       list_find (λ obstacle, intersects projectile obstacle = true) (obstacles g)
       = Some (k, hit) →
       result.2 = false
       ∧ result.1 = g <| obstacles := obstacles result.1 |>
       ∧ obstacles g !! k = Some hit
       ∧ intersects projectile hit = true
       ∧ (length (obstacles result.1) < length (obstacles g))%nat
       ∧ (bribeSplashRadius g ≤ 0 → obstacles result.1 = delete k (obstacles g))
       ∧ (0 < bribeSplashRadius g →
            obstacles result.1
            = filter (λ obstacle,
                        bribeSplashRadius g * bribeSplashRadius g < distanceSq obstacle hit)
                     (delete k (obstacles g)))).
Proof.
  intros result. split; [apply hitProjectile_miss|].
  intros k hit Hfind. unfold result, hitProjectile. rewrite Hfind.
  apply list_find_Some in Hfind as (Hk & Hhit & _).
  assert (Hless : (length (delete k (obstacles g)) < length (obstacles g))%nat).
  { rewrite length_delete by eauto. apply lookup_lt_Some in Hk. lia. }
  fields. case_decide as Hsplash; fields.
  - split; [reflexivity|]. split; [by destruct g|]. split; [exact Hk|]. split; [exact Hhit|].
    split.
    { eapply Nat.le_lt_trans; [apply length_filter|exact Hless]. }
    split; [intros Hnone; exfalso; qc_arith|]. reflexivity.
  - split; [reflexivity|]. split; [by destruct g|]. split; [exact Hk|]. split; [exact Hhit|].
    split; [exact Hless|]. split; [reflexivity|]. intros Hsome. contradiction.
Qed.

(** ** Timers *)

Lemma triggerGameOver_timers g : timersView (triggerGameOver g) = timersView g.
Proof. unfold triggerGameOver. frame. Qed.

Lemma settle_timers dt g : timersView (settle dt g) = timersView g.
Proof.
  unfold settle. cbn zeta.
  match goal with
  | |- context [decide (coinsBalance ?g2 ≤ 0)] =>
      assert (H2 : timersView g2 = timersView g) by frame;
      generalize dependent g2
  end.
  intros g2 H2. case_decide; [rewrite triggerGameOver_timers|]; exact H2.
Qed.

Lemma update_timers config dt rnd g :
  timersView (update config dt rnd g).1 = timersView (tickTimers dt g).
Proof.
  assert (H : match update config dt rnd g with
              | (g', Normal _) =>
                  ∃ g4, timersView g4 = timersView (tickTimers dt g) ∧ g' = settle dt g4
              | (g', Throw) => timersView g' = timersView (tickTimers dt g)
              end).
  { apply (update_after_tick config (λ g', timersView g' = timersView (tickTimers dt g)));
      try reflexivity;
      try solve [ intros;
                  match goal with
                  | H : timersView _ = timersView (tickTimers dt g) |- _ => rewrite <- H
                  end;
                  unfold_steps; frame ]. }
  destruct (update config dt rnd g) as [g' [[]|]]; cbn [fst]; [|exact H].
  destruct H as (g4 & H4 & ->). by rewrite settle_timers.
Qed.

Lemma tickTimers_timers dt g :
  timersView (tickTimers dt g)
  = (Math_max 0 (reviveInvulnMs g - dt * num 1000),
     Math_max 0 (bribeCooldownLeftSec g - dt),
     elapsedSec g + dt).
Proof. unfold tickTimers. frame. Qed.

Lemma triple_inv {A B C} (a a' : A) (b b' : B) (c c' : C) :
  (a, b, c) = (a', b', c') → a = a' ∧ b = b' ∧ c = c'.
Proof. by intros [= -> -> ->]. Qed.

Lemma updates_timers config ticks g :
  timersView (updates config ticks g)
  = (invulnAfter ticks.*1 (reviveInvulnMs g),
     cooldownAfter ticks.*1 (bribeCooldownLeftSec g),
     elapsedAfter ticks.*1 (elapsedSec g)).
Proof.
  unfold updates, invulnAfter, cooldownAfter, elapsedAfter. revert g.
  induction ticks as [|[dt rnd] ticks IH]; intros g; [reflexivity|].
  cbn [foldl fmap list_fmap fst snd].
  pose proof (update_timers config dt rnd g) as Hstep.
  rewrite tickTimers_timers in Hstep. unfold timersView in Hstep.
  apply triple_inv in Hstep as (Hms1 & Hcd1 & Hel1).
  by rewrite IH, Hms1, Hcd1, Hel1.
Qed.

(** A timer that a frame takes down to [step x dt], never below 0. *)
Section Countdown.

Variable step : Qc → Qc → Qc.
Hypothesis step_floor : ∀ x dt, 0 ≤ step x dt.
Hypothesis step_down : ∀ x dt, 0 ≤ dt → 0 ≤ x → step x dt ≤ x.

Lemma countdown_floor dts x : dts ≠ [] → 0 ≤ foldl step x dts.
Proof.
  revert x. induction dts as [|dt dts IH]; intros x Hsome; [done|].
  cbn [foldl]. destruct dts as [|dt' dts]; [apply step_floor|].
  by apply IH.
Qed.

Lemma countdown_down dts x :
  Forall (λ dt, 0 ≤ dt) dts → 0 ≤ x → foldl step x dts ≤ x.
Proof.
  intros Hforward. revert x.
  induction Hforward as [|dt dts Hdt _ IH]; intros x Hx; [apply Qcle_refl|].
  cbn [foldl]. apply Qcle_trans with (step x dt); [|by apply step_down].
  apply IH, step_floor.
Qed.

Lemma countdown_rest dts x :
  Forall (λ dt, 0 ≤ dt) dts → x = 0 → foldl step x dts = 0.
Proof.
  intros Hforward ->. destruct dts as [|dt dts]; [reflexivity|].
  apply Qcle_antisym; [by apply countdown_down|by apply countdown_floor].
Qed.

End Countdown.

Lemma invuln_step_floor (ms dt : Qc) : 0 ≤ Math_max 0 (ms - dt * num 1000).
Proof. apply Math_max_lower. Qed.

Lemma invuln_step_down (ms dt : Qc) :
  0 ≤ dt → 0 ≤ ms → Math_max 0 (ms - dt * num 1000) ≤ ms.
Proof. intros Hdt Hms. unfold Math_max. case_decide; qc_arith. Qed.

Lemma cooldown_step_floor (sec dt : Qc) : 0 ≤ Math_max 0 (sec - dt).
Proof. apply Math_max_lower. Qed.

Lemma cooldown_step_down (sec dt : Qc) :
  0 ≤ dt → 0 ≤ sec → Math_max 0 (sec - dt) ≤ sec.
Proof. intros Hdt Hsec. unfold Math_max. case_decide; qc_arith. Qed.

Lemma elapsedAfter_up dts sec :
  Forall (λ dt, 0 ≤ dt) dts → sec ≤ elapsedAfter dts sec.
Proof.
  unfold elapsedAfter. intros Hforward. revert sec.
  induction Hforward as [|dt dts Hdt _ IH]; intros sec; [apply Qcle_refl|].
  cbn [foldl]. apply Qcle_trans with (sec + dt); [qc_arith|apply IH].
Qed.

Lemma hitObstacle_invulnerable config boat index obstacle g :
  0 < reviveInvulnMs g → intersects boat obstacle = true →
  hitObstacle config boat index obstacle g = (g, false).
Proof.
  intros Hms Hhit. unfold hitObstacle. rewrite Hhit. cbn [negb].
  by rewrite decide_False by (by apply Qclt_not_le).
Qed.

(** X21.  The invulnerability, the bribe cooldown and the clock of the
    run after any number of frames are what the first lines of [update]
    make of them one frame after the other, [max(0, ms - dt * 1000)],
    [max(0, s - dt)] and [t + dt], whatever else happens in the frames (a
    game over or an exception in the spawn included).  After a frame both
    timers are at least 0; with frame times that are not negative, a timer
    that was at least 0 has not grown, a timer at 0 stays at 0 and the
    clock has not gone back.  As long as some invulnerability is left, an
    impact removes the obstacle and changes nothing else. *)
Theorem timers_count_down (config : GameConfig) (ticks : list (Qc * TickRandom)) (g : Game) :
  let g' := updates config ticks g in
  reviveInvulnMs g' = invulnAfter ticks.*1 (reviveInvulnMs g)
  ∧ bribeCooldownLeftSec g' = cooldownAfter ticks.*1 (bribeCooldownLeftSec g)
  ∧ elapsedSec g' = elapsedAfter ticks.*1 (elapsedSec g)
  ∧ (ticks ≠ [] → 0 ≤ reviveInvulnMs g' ∧ 0 ≤ bribeCooldownLeftSec g')
  ∧ (Forall (λ dt, 0 ≤ dt) ticks.*1 →
       (0 ≤ reviveInvulnMs g → reviveInvulnMs g' ≤ reviveInvulnMs g)
       ∧ (0 ≤ bribeCooldownLeftSec g → bribeCooldownLeftSec g' ≤ bribeCooldownLeftSec g)
       ∧ (reviveInvulnMs g = 0 → reviveInvulnMs g' = 0)
       ∧ (bribeCooldownLeftSec g = 0 → bribeCooldownLeftSec g' = 0)
       ∧ elapsedSec g ≤ elapsedSec g')
  ∧ (0 < reviveInvulnMs g' →
       ∀ boat index obstacle, intersects boat obstacle = true →
         hitObstacle config boat index obstacle g' = (g', false)).
Proof.
  intros g'.
  pose proof (updates_timers config ticks g) as Hview.
  unfold timersView in Hview. apply triple_inv in Hview as (Hms & Hcd & Hel).
  fold g' in Hms, Hcd, Hel. clearbody g'.
  split; [exact Hms|]. split; [exact Hcd|]. split; [exact Hel|].
  rewrite Hms, Hcd, Hel. split; [|split].
  - intros Hsome.
    assert (Hframes : ticks.*1 ≠ []) by (by destruct ticks).
    split; apply countdown_floor;
      first [ exact Hframes | exact invuln_step_floor | exact cooldown_step_floor ].
  - intros Hforward. split; [|split; [|split; [|split]]].
    + apply countdown_down;
        first [ exact Hforward | exact invuln_step_floor | exact invuln_step_down ].
    + apply countdown_down;
        first [ exact Hforward | exact cooldown_step_floor | exact cooldown_step_down ].
    + apply countdown_rest;
        first [ exact Hforward | exact invuln_step_floor | exact invuln_step_down ].
    + apply countdown_rest;
        first [ exact Hforward | exact cooldown_step_floor | exact cooldown_step_down ].
    + by apply elapsedAfter_up.
  - intros Hleft boat index obstacle. apply hitObstacle_invulnerable. by rewrite Hms.
Qed.

Lemma timers_count_down_witness :
  let g := (newGame sample_save) <| reviveInvulnMs := REVIVE_INVULN_MS |> in
  let g' := updates sample_poor_config [(num 0.05, sample_rolls); (num 0.05, sample_rolls)] g in
  reviveInvulnMs g' = invulnAfter [num 0.05; num 0.05] REVIVE_INVULN_MS
  ∧ reviveInvulnMs g' ≤ REVIVE_INVULN_MS
  ∧ hitObstacle sample_poor_config (boatBody g') 0 (sample_obstacle 1) g' = (g', false).
Proof.
  intros g g'.
  destruct (timers_count_down sample_poor_config
              [(num 0.05, sample_rolls); (num 0.05, sample_rolls)] g)
    as (Hms & _ & _ & _ & Hforward & Hleft).
  fold g' in Hms, Hforward, Hleft.
  destruct Hforward as (Hdown & _); [repeat constructor; qc_compute|].
  split; [exact Hms|]. split.
  - apply Hdown. qc_compute.
  - apply Hleft; [qc_compute|vm_compute; reflexivity].
Defined.

(** ** Leaving and returning to the tab *)

Lemma platform_onPause_flags g :
  paused (platform_onPause g) = true
  ∧ manualPaused (platform_onPause g) = manualPaused g.
Proof. unfold platform_onPause. frame; by split. Qed.

Lemma paused_of_view g g' : pauseView g' = pauseView g → paused g' = paused g.
Proof. unfold pauseView. by intros [= -> _]. Qed.

(** A manual pause holds against every event but three. *)
Lemma manual_pause_holds config ev g :
  paused g = true → manualPaused g = true → gameOver g = false →
  paused (handle config ev g) = true
  ∨ ev = PauseClick ∨ ev = StartRunClick ∨ ev = ReviveGrantedLate.
Proof.
  intros Hpaused Hmanual Hover.
  destruct ev; cbn [handle]; auto; left.
  - unfold visibilitychange, showToast. frame; fields; auto.
  - apply platform_onResume_manual; [by intros _|exact Hmanual].
  - unfold reviveButton_click. by rewrite Hover.
  - unfold rewardX2Button_click. by rewrite Hover.
  - rewrite <- Hpaused. apply paused_of_view. unfold rewardX2_granted. frame.
  - rewrite <- Hpaused. apply paused_of_view. unfold handleProgressReset. frame.
  - rewrite <- Hpaused. apply paused_of_view. unfold buyUpgrade. frame.
  - rewrite fireBribe_idle; [exact Hpaused|by left].
  - unfold keydown. destruct (_ && _); [|exact Hpaused].
    rewrite fireBribe_idle; [exact Hpaused|by left].
  - rewrite loop_idle; [exact Hpaused|by left].
Qed.

(** X22.  Hiding the tab pauses the game and releases the keys; coming
    back to a running game keeps it paused and marks the pause as manual,
    so frames and shots do nothing and a platform suspension that comes
    and goes does not lift it.  Of all the events, three can lift the
    pause, and each of them does: the pause button, which resumes the
    run, the start of a new run, and a revive that was granted late. *)
Theorem tab_return_needs_manual_resume (config : GameConfig) (g : Game)
    (Hrun : runActive g = true)
    (Hover : gameOver g = false) :
  let away := visibilitychange true g in
  let back := visibilitychange false away in
  (paused away = true ∧ manualPaused away = false ∧ keys away = ∅)
  ∧ (paused back = true ∧ manualPaused back = true ∧ toast back = Some ToastTabReturned)
  ∧ (∀ elapsedMs rnd, loop config elapsedMs rnd back = back)
  ∧ (∀ u, fireBribe config u back = back)
  ∧ paused (platform_onResume (platform_onPause back)) = true
  ∧ (paused (pauseButton_click back) = false
     ∧ manualPaused (pauseButton_click back) = false
     ∧ toast (pauseButton_click back) = Some ToastResumed)
  ∧ (∀ g0, runActive g0 = false → visibilitychange false g0 = g0)
  ∧ (∀ ev, paused (handle config ev back) = true
           ∨ ev = PauseClick ∨ ev = StartRunClick ∨ ev = ReviveGrantedLate)
  ∧ paused (handle config StartRunClick back) = false
  ∧ paused (handle config ReviveGrantedLate back) = false.
Proof.
  intros away back.
  assert (Hback : back = showToast ToastTabReturned
                           (away <| paused := true |> <| manualPaused := true |>
                                 <| pausedByUser := false |>)).
  { unfold back, away, visibilitychange, showToast. fields. by rewrite Hrun. }
  split; [by repeat split|]. split; [rewrite Hback; by repeat split|].
  split; [intros; apply loop_idle; left; by rewrite Hback|].
  split; [intros; apply fireBribe_idle; left; by rewrite Hback|].
  split.
  { destruct (platform_onPause_flags back) as [Hp Hm].
    apply platform_onResume_manual; [by intros _|]. by rewrite Hm, Hback. }
  split.
  { unfold pauseButton_click. rewrite Hback.
    unfold away, visibilitychange, showToast. fields. rewrite Hover, Hrun. by repeat split. }
  split; [intros g0 H0; unfold visibilitychange; by rewrite H0|].
  split.
  { intros ev. apply manual_pause_holds; rewrite Hback; try reflexivity.
    unfold away, visibilitychange, showToast. fields. exact Hover. }
  split.
  - cbn [handle]. unfold startRunButton_click, startNewRun. cbn zeta.
    match goal with
    | |- context [applyMetaUpgradesForRun config ?g1] =>
        pose proof (applyMetaUpgradesForRun_pauseView config g1) as Hview;
        destruct (applyMetaUpgradesForRun config g1) as [g2 [[]|]]
    end; cbn [fst] in Hview; apply paused_of_view in Hview;
      unfold showToast; fields; by rewrite Hview.
  - reflexivity.
Qed.

Lemma tab_return_needs_manual_resume_witness :
  let g := run sample_config [StartRunClick] (newGame sample_save) in
  let back := visibilitychange false (visibilitychange true g) in
  paused back = true ∧ manualPaused back = true
  ∧ paused (pauseButton_click back) = false
  ∧ paused (handle sample_config StartRunClick back) = false.
Proof.
  pose proof (tab_return_needs_manual_resume sample_config
                (run sample_config [StartRunClick] (newGame sample_save))) as H.
  destruct H as (_ & (Hpaused & Hmanual & _) & _ & _ & _ & (Hresumed & _) & _ & _ & Hstart & _);
    [reflexivity|reflexivity|].
  split; [exact Hpaused|]. split; [exact Hmanual|]. split; [exact Hresumed|exact Hstart].
Defined.

(** ** A progress reset *)

(** X23.  A confirmed progress reset replaces the save by the defaults
    and stores them: wallet and best score are 0, every configured branch
    is at level 0, so the next run reads no upgrade from any branch; a
    declined reset changes nothing. *)
Theorem progress_reset_clears_upgrades (config : GameConfig) (g : Game) :
  let g' := handleProgressReset config true g in
  handleProgressReset config false g = g
  ∧ walletCoins (saveData g') = 0
  ∧ bestScore (saveData g') = 0
  ∧ storedSave g' = Some (saveData g')
  ∧ (∀ branch, upgrades (saveData g') !! branch
               = if decide (branch ∈ branch_id <$> cfg_upgrades config)
                 then Some 0 else None)
  ∧ (∀ branchId, currentLevelEffect config branchId g' = Normal noUpgradeEffect)
  ∧ (∀ g0, saveData g0 = saveData g' →
       (applyMetaUpgradesForRun config g0).2 = Normal ()).
Proof.
  intros g'.
  assert (Hsave : saveData g' = SaveService.defaults (cfg_upgrades config)) by reflexivity.
  assert (Hnone : ∀ branchId g0, saveData g0 = saveData g' →
                    currentLevelEffect config branchId g0 = Normal noUpgradeEffect).
  { intros branchId g0 H0. unfold currentLevelEffect.
    destruct (find _ _) as [branch|]; [|reflexivity].
    rewrite H0, Hsave, defaults_lookup.
    destruct (decide (branch_id branch ∈ branch_id <$> cfg_upgrades config));
      cbn [default from_option]; by rewrite decide_True by apply Qcle_refl. }
  split; [reflexivity|]. split; [reflexivity|]. split; [reflexivity|].
  split; [reflexivity|].
  split; [intros branch; rewrite Hsave; apply defaults_lookup|].
  split; [intros branchId; by apply Hnone|].
  intros g0 H0. unfold applyMetaUpgradesForRun.
  rewrite (Hnone "defense" g0 H0).
  rewrite (Hnone "farm") by exact H0.
  rewrite (Hnone "skills") by exact H0. reflexivity.
Qed.

(** ** Where entities are spawned *)

Lemma rand_range (min max u : Qc) :
  min ≤ max → unitRoll u → min ≤ rand min max u ∧ rand min max u ≤ max.
Proof.
  intros Hrange [Hlow Hhigh]. unfold rand.
  assert (Hspan : 0 ≤ max - min) by qc_arith.
  assert (H1 : 0 ≤ u * (max - min)) by (by apply Qcmult_nonneg_nonneg).
  assert (H2 : u * (max - min) ≤ 1 * (max - min)).
  { apply Qcmult_le_compat_r; [|exact Hspan]. by apply Qclt_le_weak. }
  generalize dependent (u * (max - min)). intros x H1 H2. split; qc_arith.
Qed.

(** X24.  Where and when things are spawned, for rolls in [0, 1): an
    obstacle appears above the screen, wholly inside the lane when its
    template is no wider than the lane, and the next one is due in 0.8 to
    1.4 s; a coin appears between 24 and 876 with the configured value,
    and the next one is due in 0.45 to 0.9 s; nothing is spawned while a
    timer has time left, and nothing already there is changed. *)
Theorem spawns_inside_lane (config : GameConfig) (dt : Qc) (rnd : TickRandom) (g : Game)
    (Hrolls : unitRoll (u_obstacleInterval rnd) ∧ unitRoll (u_obstacleX rnd)
              ∧ unitRoll (u_coinInterval rnd) ∧ unitRoll (u_coinX rnd))
    (Hfits : Forall (λ template, obstacle_radius template * num 2 ≤ WIDTH)
                    (cfg_obstacles config)) :
  (∀ g', spawnObstacle config dt rnd g = (g', Normal ()) →
     (dt < obstacleSpawnTimer g →
        obstacles g' = obstacles g ∧ obstacleSpawnTimer g' = obstacleSpawnTimer g - dt)
     ∧ (obstacleSpawnTimer g ≤ dt →
          (num 0.8 ≤ obstacleSpawnTimer g' ∧ obstacleSpawnTimer g' ≤ num 1.4)
          ∧ ∃ obstacle template,
              obstacles g' = obstacles g ++ [obstacle]
              ∧ template ∈ cfg_obstacles config
              ∧ o_r obstacle = obstacle_radius template
              ∧ o_damage obstacle = obstacle_damage template
              ∧ o_y obstacle = - num 40
              ∧ o_r obstacle ≤ o_x obstacle
              ∧ o_x obstacle ≤ WIDTH - o_r obstacle))
  ∧ (dt < coinSpawnTimer g →
       coins (spawnCoin config dt rnd g) = coins g
       ∧ coinSpawnTimer (spawnCoin config dt rnd g) = coinSpawnTimer g - dt)
  ∧ (coinSpawnTimer g ≤ dt →
       (num 0.45 ≤ coinSpawnTimer (spawnCoin config dt rnd g)
        ∧ coinSpawnTimer (spawnCoin config dt rnd g) ≤ num 0.9)
       ∧ ∃ coin,
           coins (spawnCoin config dt rnd g) = coins g ++ [coin]
           ∧ c_value coin = pickupValue (economy config)
           ∧ c_y coin = - num 20 ∧ c_r coin = num 10
           ∧ num 24 ≤ c_x coin ∧ c_x coin ≤ num 876).
Proof.
  destruct Hrolls as (HoI & HoX & HcI & HcX).
  split; [|split].
  - intros g' Hspawn. unfold spawnObstacle in Hspawn. cbn zeta in Hspawn. fields.
    split.
    + intros Hleft. rewrite decide_False in Hspawn by qc_arith.
      injection Hspawn as <-. by split.
    + intros Hdue. rewrite decide_True in Hspawn by qc_arith.
      destruct (array_get (cfg_obstacles config) _) as [template|] eqn:Hpick;
        [|discriminate].
      injection Hspawn as <-. fields.
      split; [apply rand_range; [qc_compute|exact HoI]|].
      assert (Hin : template ∈ cfg_obstacles config).
      { unfold array_get in Hpick. case_decide; [|discriminate].
        by apply list_elem_of_lookup_2 in Hpick. }
      eexists _, template. split; [reflexivity|]. split; [exact Hin|].
      fields. split; [reflexivity|]. split; [reflexivity|]. split; [reflexivity|].
      apply rand_range; [|exact HoX].
      rewrite Forall_forall in Hfits. specialize (Hfits template Hin).
      generalize dependent (obstacle_radius template). intros r. intros. qc_arith.
  - intros Hleft. unfold spawnCoin. cbn zeta. fields.
    rewrite decide_False by qc_arith. by split.
  - intros Hdue. unfold spawnCoin. cbn zeta. fields.
    rewrite decide_True by qc_arith. fields.
    split; [apply rand_range; [qc_compute|exact HcI]|].
    eexists. split; [reflexivity|]. fields.
    split; [reflexivity|]. split; [reflexivity|]. split; [reflexivity|].
    replace (num 876) with (WIDTH - num 24) by (apply Qc_is_canon; vm_compute; reflexivity).
    apply rand_range; [qc_compute|exact HcX].
Qed.

Lemma spawns_inside_lane_witness :
  let g := newGame sample_save in
  (num 0.45 ≤ coinSpawnTimer (spawnCoin sample_poor_config (num 0.016) sample_rolls g)
   ∧ coinSpawnTimer (spawnCoin sample_poor_config (num 0.016) sample_rolls g) ≤ num 0.9)
  ∧ ∃ coin,
      coins (spawnCoin sample_poor_config (num 0.016) sample_rolls g) = coins g ++ [coin]
      ∧ c_value coin = pickupValue (economy sample_poor_config)
      ∧ c_y coin = - num 20 ∧ c_r coin = num 10
      ∧ num 24 ≤ c_x coin ∧ c_x coin ≤ num 876.
Proof.
  pose proof (spawns_inside_lane sample_poor_config (num 0.016) sample_rolls
                (newGame sample_save)) as H.
  destruct H as (_ & _ & Hcoin).
  - repeat split; qc_compute.
  - repeat constructor. qc_compute.
  - apply Hcoin. qc_compute.
Defined.

(** ** Drain tiers in any order *)

Lemma insert_tier_perm t tiers : insert_tier t tiers ≡ₚ t :: tiers.
Proof.
  induction tiers as [|u tiers IH]; [reflexivity|].
  cbn [insert_tier]. case_decide; [reflexivity|].
  rewrite IH. apply Permutation_swap.
Qed.

Lemma sort_tiers_perm tiers : sort_tiers tiers ≡ₚ tiers.
Proof.
  induction tiers as [|t tiers IH]; [reflexivity|].
  unfold sort_tiers in *. cbn [foldr]. by rewrite insert_tier_perm, IH.
Qed.

Lemma insert_tier_sorted t tiers :
  StronglySorted (λ a b, fromSec a ≤ fromSec b) tiers →
  StronglySorted (λ a b, fromSec a ≤ fromSec b) (insert_tier t tiers).
Proof.
  induction 1 as [|u tiers Hsorted IH Hhead]; [repeat constructor|].
  cbn [insert_tier]. case_decide as Hle.
  - constructor; [by constructor|]. constructor; [exact Hle|].
    eapply Forall_impl; [exact Hhead|]. intros v Hv. cbn in *. qc_arith.
  - constructor; [exact IH|].
    rewrite insert_tier_perm. constructor; [|exact Hhead]. qc_arith.
Qed.

Lemma sort_tiers_sorted tiers :
  StronglySorted (λ a b, fromSec a ≤ fromSec b) (sort_tiers tiers).
Proof.
  induction tiers as [|t tiers IH]; [constructor|].
  unfold sort_tiers in *. cbn [foldr]. by apply insert_tier_sorted.
Qed.

(** X25.  The order of the tiers in the configuration does not matter:
    [currentDrainRate] is the rate of the tier with the latest threshold
    already reached, provided no other reached tier shares that
    threshold. *)
Theorem currentDrainRate_any_order (config : GameConfig) (g : Game) (tier : DrainTier)
    (Hin : tier ∈ coinDrainTiers (economy config))
    (Hreached : fromSec tier ≤ elapsedSec g)
    (Hlatest : ∀ other, other ∈ coinDrainTiers (economy config) →
                 fromSec other ≤ elapsedSec g →
                 other = tier ∨ fromSec other < fromSec tier) :
  currentDrainRate config g = rate tier.
Proof.
  unfold currentDrainRate. cbn zeta. rewrite drain_loop. unfold spec_activeTier.
  pose proof (sort_tiers_sorted (coinDrainTiers (economy config))) as Hsorted.
  pose proof (sort_tiers_perm (coinDrainTiers (economy config))) as Hperm.
  set (sorted := sort_tiers (coinDrainTiers (economy config))) in *.
  assert (Htier : tier ∈ filter (λ t, fromSec t ≤ elapsedSec g) sorted).
  { apply list_elem_of_filter. split; [exact Hreached|]. by rewrite Hperm. }
  destruct (last (filter (λ t, fromSec t ≤ elapsedSec g) sorted)) as [x|] eqn:Hlast.
  2:{ apply last_None in Hlast. rewrite Hlast in Htier. by apply elem_of_nil in Htier. }
  assert (Hx : x ∈ filter (λ t, fromSec t ≤ elapsedSec g) sorted).
  { apply last_Some in Hlast as [l' ->]. apply elem_of_app. right. left. }
  apply list_elem_of_filter in Hx as [Hxreached Hxin].
  apply last_filter_Some in Hlast as (l1 & l2 & Hsplit & Hlater).
  destruct (Hlatest x) as [->|Hearlier]; [by rewrite <- Hperm|exact Hxreached|reflexivity|].
  exfalso.
  apply list_elem_of_filter in Htier as [_ Htier]. rewrite Hsplit in Htier, Hsorted.
  apply elem_of_app in Htier as [Hbefore|Hafter].
  - assert (Hle : fromSec tier ≤ fromSec x).
    { apply (StronglySorted_app_1_elem_of _ l1 (x :: l2) tier x Hsorted Hbefore). left. }
    qc_arith.
  - apply elem_of_cons in Hafter as [->|Hafter]; [qc_arith|].
    rewrite Forall_forall in Hlater. by apply (Hlater tier Hafter).
Qed.

Lemma currentDrainRate_any_order_witness :
  currentDrainRate sample_shuffled_config (at_time (num 45))
  = rate {| fromSec := num 30; rate := num 2 |}.
Proof.
  apply (currentDrainRate_any_order sample_shuffled_config (at_time (num 45))
           {| fromSec := num 30; rate := num 2 |}).
  - cbn. right. right. left.
  - qc_compute.
  - intros other Hother Hreached. cbn in Hother.
    apply elem_of_cons in Hother as [->|Hother].
    { exfalso. revert Hreached. qc_compute. }
    apply elem_of_cons in Hother as [->|Hother]; [right; qc_compute|].
    apply elem_of_cons in Hother as [->|Hother]; [by left|].
    by apply elem_of_nil in Hother.
Defined.
